(** * DatasetViewer: the record store, the search-query compiler, the
      stream ingestor and the list and detail panels of
      [src/datasetviewer.py], as a shallow embedding.

    Python values are modelled as follows.
    - [str] is a list of characters ([list ascii]); only the ASCII behaviour of
      [lower], [strip], [int] and [float] is modelled.
    - Python [int] is [Z]; [None] is [option]'s [None].
    - An exception that leaves a function is an explicit [Raise] result; an
      exception the source catches on the spot is an [option].
    - A Python [float] is a sign, a mantissa and a binary exponent, rounded as
      a double is; an [int] bound to a statement must fit in 64 signed bits.
    - A decoded JSON value is an object, by the keys the store reads, or
      something else.
    - The SQLite tables are a list of rows (table [posts]) and a finite map
      (table [processed_files], keyed by its [UNIQUE] filename). *)

From Stdlib Require Import ZArith List Ascii String DecimalString DecimalZ
  DecimalPos Lia Permutation.
From stdpp Require Import gmap strings list sorting.
Import ListNotations.

#[local] Open Scope Z_scope.
#[local] Open Scope char_scope.

(** ** Python primitives *)

Module Py.

Definition str := list ascii.

(** A literal of the source. *)
Definition py (s : string) : str := list_ascii_of_string s.

Definition chr_eqb (a b : ascii) : bool := Ascii.eqb a b.

(** The double quote and the line feed, by their codes. *)
Definition dquote : ascii := "034".
Definition newline : ascii := "010".

Fixpoint str_eqb (a b : str) : bool :=
  match a, b with
  | [], [] => true
  | x :: a', y :: b' => chr_eqb x y && str_eqb a' b'
  | _, _ => false
  end.

(** [bool(s)] of a string: the empty string is falsy. *)
Definition truthy (s : str) : bool :=
  match s with [] => false | _ => true end.

(** [c in s]. *)
Definition contains_chr (c : ascii) (s : str) : bool := existsb (chr_eqb c) s.

(** [s.startswith(p)]. *)
Fixpoint startswith (p s : str) : bool :=
  match p, s with
  | [], _ => true
  | x :: p', y :: s' => chr_eqb x y && startswith p' s'
  | _ :: _, [] => false
  end.

(** [s.endswith(p)]. *)
Definition endswith (p s : str) : bool := startswith (rev p) (rev s).

(** [s[n:]] and [s[:-n]] for a positive [n], [s[:n]]. *)
Definition slice_from (n : nat) (s : str) : str := drop n s.
Definition slice_to_minus (n : nat) (s : str) : str := take (length s - n)%nat s.
Definition slice_to (n : nat) (s : str) : str := take n s.

(** [s.lower()], on ASCII letters. *)
Definition lower_chr (c : ascii) : ascii :=
  let n := N_of_ascii c in
  if ((65 <=? n) && (n <=? 90))%N then ascii_of_N (n + 32) else c.

Definition lower (s : str) : str := map lower_chr s.

(** The ASCII characters [str.strip()] removes: tab, line feed, vertical tab,
    form feed, carriage return, the four separators 28 to 31 and the space. *)
Definition is_space (c : ascii) : bool :=
  let n := N_of_ascii c in
  (((9 <=? n) && (n <=? 13)) || ((28 <=? n) && (n <=? 32)))%N.

Fixpoint lstrip (s : str) : str :=
  match s with
  | c :: s' => if is_space c then lstrip s' else s
  | [] => []
  end.

Definition strip (s : str) : str := rev (lstrip (rev (lstrip s))).

(** [s.split(sep, 1)] for a one-character separator that occurs in [s]:
    the text before the first occurrence and the text after it. *)
Fixpoint split_once (sep : ascii) (s : str) : str * str :=
  match s with
  | [] => ([], [])
  | c :: s' =>
      if chr_eqb c sep then ([], s')
      else let '(a, b) := split_once sep s' in (c :: a, b)
  end.

(** [s.replace(a, b)] for single characters. *)
Definition replace_chr (a b : ascii) (s : str) : str :=
  map (fun c => if chr_eqb c a then b else c) s.

Definition is_digit (c : ascii) : bool :=
  let n := N_of_ascii c in ((48 <=? n) && (n <=? 57))%N.

Definition digit_val (c : ascii) : Z := Z.of_N (N_of_ascii c) - 48.

(** The digits of an [int] or [float] literal: at least one digit, single
    underscores allowed between digits.  [seen] tells whether the previous
    character was a digit. *)
Fixpoint digits_acc (seen : bool) (acc : Z) (s : str) : option Z :=
  match s with
  | [] => if seen then Some acc else None
  | c :: s' =>
      if is_digit c then digits_acc true (10 * acc + digit_val c) s'
      else if chr_eqb c "_" && seen then digits_acc false acc s'
      else None
  end.

Definition signed (body : str -> option Z) (s : str) : option Z :=
  match s with
  | "+" :: s' => body s'
  | "-" :: s' => Z.opp <$> body s'
  | _ => body s
  end.

(** The ASCII characters [int()] and [float()] skip around a literal: tab to
    carriage return, and the space; the four separators that [str.strip()]
    removes as well are not among them. *)
Definition is_c_space (c : ascii) : bool :=
  let n := N_of_ascii c in
  (((9 <=? n) && (n <=? 13)) || (n =? 32))%N.

Fixpoint c_lstrip (s : str) : str :=
  match s with
  | c :: s' => if is_c_space c then c_lstrip s' else s
  | [] => []
  end.

Definition c_strip (s : str) : str := rev (c_lstrip (rev (c_lstrip s))).

(** [int(s)] of a string; [None] stands for [ValueError].  The limit on the
    number of digits that some interpreters put on the conversion is not
    modelled. *)
Definition py_int (s : str) : option Z := signed (digits_acc false 0) (c_strip s).

(** A Python [float]: not a number, an infinity, or the finite number
    [(-1)^neg * m * 2^e] with [0 <= m]. *)
Inductive float :=
| FNan
| FInf (neg : bool)
| FFin (neg : bool) (m e : Z).

(** The double nearest to [num / den], for [0 <= num] and [0 < den], ties to
    even, as mantissa and exponent; [None] when it is beyond the largest
    double.  The mantissa has 53 bits, fewer below [2^-1022]. *)
Definition round_binary64 (num den : Z) : option (Z * Z) :=
  if Z.eqb num 0 then Some (0, 0)
  else
    let e0 := Z.log2 num - Z.log2 den in
    let below :=
      if Z.leb 0 e0 then Z.ltb num (den * 2 ^ e0) else Z.ltb (num * 2 ^ (- e0)) den in
    let e := if below then e0 - 1 else e0 in
    let q := Z.max (e - 52) (-1074) in
    let a := if Z.ltb q 0 then num * 2 ^ (- q) else num in
    let b := if Z.ltb q 0 then den else den * 2 ^ q in
    let n := a / b in
    let r := a mod b in
    let m :=
      if Z.ltb (2 * r) b then n
      else if Z.ltb b (2 * r) then n + 1
      else if Z.even n then n else n + 1 in
    if Z.leb 0 q && Z.leb (2 ^ 1024) (m * 2 ^ q) then None else Some (m, q).

Definition finite (neg : bool) (r : option (Z * Z)) : float :=
  match r with
  | Some (m, e) => FFin neg m e
  | None => FInf neg
  end.

(** The digits after the point: their number, and how many they are. *)
Definition frac_digits (s : str) : option (Z * nat) :=
  match s with
  | [] => Some (0, 0%nat)
  | _ => (fun n => (n, length (filter (fun c => is_digit c) s))) <$> digits_acc false 0 s
  end.

(** [digits], [digits.], [.digits] or [digits.digits]: the digits as one
    number, and how many of them follow the point. *)
Definition mantissa (s : str) : option (Z * nat) :=
  let '(ip, fp) :=
    if contains_chr "." s then split_once "." s else (s, []) in
  match ip, fp with
  | [], [] => None
  | _, _ =>
      i ← (match ip with [] => Some 0 | _ => digits_acc false 0 ip end);
      '(f, k) ← frac_digits fp;
      Some (i * 10 ^ Z.of_nat k + f, k)
  end.

(** The text before the first [e] or [E], and the text after it, if any. *)
Fixpoint split_exp (s : str) : str * option str :=
  match s with
  | [] => ([], None)
  | c :: s' =>
      if chr_eqb c "e" || chr_eqb c "E" then ([], Some s')
      else let '(a, b) := split_exp s' in (c :: a, b)
  end.

(** A literal without sign: [inf], [infinity] or [nan] in any case of the
    letters, or a decimal number with an optional exponent. *)
Definition unsigned_float (s : str) : option float :=
  let l := lower s in
  if str_eqb l (py "inf") || str_eqb l (py "infinity") then Some (FInf false)
  else if str_eqb l (py "nan") then Some FNan
  else
    let '(m, e) := split_exp s in
    '(n, k) ← mantissa m;
    x ← (match e with None => Some 0 | Some t => signed (digits_acc false 0) t end);
    let p := x - Z.of_nat k in
    Some (finite false (if Z.leb 0 p then round_binary64 (n * 10 ^ p) 1
                        else round_binary64 n (10 ^ (- p)))).

Definition fneg (x : float) : float :=
  match x with
  | FNan => FNan
  | FInf neg => FInf (negb neg)
  | FFin neg m e => FFin (negb neg) m e
  end.

(** [float(s)] of a string; [None] stands for [ValueError]. *)
Definition py_float (s : str) : option float :=
  match c_strip s with
  | "+" :: s' => unsigned_float s'
  | "-" :: s' => fneg <$> unsigned_float s'
  | s' => unsigned_float s'
  end.

(** [float(n)] of an [int], as the product of a [float] and an [int] takes
    it; [None] stands for [OverflowError]. *)
Definition float_of_int (n : Z) : option float :=
  match round_binary64 (Z.abs n) 1 with
  | Some (m, e) => Some (FFin (Z.ltb n 0) m e)
  | None => None
  end.

(** [x * y] *)
Definition fmul (x y : float) : float :=
  match x, y with
  | FNan, _ | _, FNan => FNan
  | FInf a, FInf b => FInf (xorb a b)
  | FInf a, FFin b m _ | FFin b m _, FInf a => if Z.eqb m 0 then FNan else FInf (xorb a b)
  | FFin a m e, FFin b m' e' =>
      finite (xorb a b)
        (if Z.leb 0 (e + e') then round_binary64 (m * m' * 2 ^ (e + e')) 1
         else round_binary64 (m * m') (2 ^ (- (e + e'))))
  end.

(** What leaves a function as an exception. *)
Inductive exn := ValueError | ProgrammingError | OverflowError | AttributeError.

Inductive result (A : Type) :=
| Ok (a : A)
| Raise (e : exn).
Arguments Ok {A} a.
Arguments Raise {A} e.

(** [int(x)] of a [float]: [Ok None] stands for the [ValueError] of a NaN,
    which the callers catch with that of [float]; the [OverflowError] of an
    infinity is not theirs to catch. *)
Definition int_of_float (x : float) : result (option Z) :=
  match x with
  | FNan => Ok None
  | FInf _ => Raise OverflowError
  | FFin neg m e =>
      let a := if Z.leb 0 e then m * 2 ^ e else m / 2 ^ (- e) in
      Ok (Some (if neg then - a else a))
  end.

(** [int(float(s) * mult)]: [Ok None] stands for [ValueError]. *)
Definition py_int_float_times (s : str) (mult : Z) : result (option Z) :=
  match py_float s with
  | None => Ok None
  | Some x =>
      match float_of_int mult with
      | Some y => int_of_float (fmul x y)
      | None => Raise OverflowError
      end
  end.

(** The integers [sqlite3] binds to a statement: those of 64 signed bits;
    any other [int] is [OverflowError]. *)
Definition min_int64 : Z := - 2 ^ 63.
Definition max_int64 : Z := 2 ^ 63 - 1.

Definition int64 (n : Z) : bool := Z.leb min_int64 n && Z.leb n max_int64.

(** [f"{n}"] of an integer. *)
Definition str_of_int (n : Z) : str := py (NilZero.string_of_int (Z.to_int n)).

(** [a or b] on optional strings: [a] when it is a non-empty string. *)
Definition or_else (a b : option str) : option str :=
  match a with
  | Some s => if truthy s then a else b
  | None => b
  end.

End Py.
Import Py.

(** ** The record store ([class DatasetDatabase]) *)

Module Store.

(** A decoded JSON object, by the keys the store reads with [data.get(key)];
    a missing key and a JSON [null] are both [None].  Each value has the type
    of the column it is bound to. *)
Record post_data := {
  j_id : option Z;
  j_md5 : option str;
  j_url : option str;
  j_file_url : option str;
  j_tags : option str;
  j_tag_string : option str;
  j_rating : option str;
  j_file_ext : option str;
  j_source : option str;
  j_created_at : option str;
  j_score : option Z;
  j_fav_count : option Z;
  j_image_width : option Z;
  j_image_height : option Z;
  j_file_size : option Z;
  j_description : option str;
  j_regular_summary : option str;
  j_individual_parts : option str;
  j_midjourney_style_summary : option str;
  j_deviantart_commission_request : option str;
  j_brief_summary : option str
}.

(** A decoded JSON value: an object, or a number, a string, a list or
    [null], on which [data.get] is [AttributeError]. *)
Inductive json :=
| JObject (data : post_data)
| JOther.

(** A row of table [posts]: [row_id] is the [id INTEGER PRIMARY KEY
    AUTOINCREMENT] column, [post_id] is [NOT NULL], [md5] is [UNIQUE]. *)
Record row := {
  row_id : Z;
  post_id : Z;
  md5 : option str;
  url : option str;
  tags : option str;
  tag_string : option str;
  rating : option str;
  file_ext : option str;
  source : option str;
  created_at : option str;
  score : option Z;
  fav_count : option Z;
  image_width : option Z;
  image_height : option Z;
  file_size : option Z;
  description : option str;
  regular_summary : option str;
  individual_parts : option str;
  midjourney_style_summary : option str;
  deviantart_commission_request : option str;
  brief_summary : option str
}.

(** The database: table [posts] in insertion order, the next value of its
    AUTOINCREMENT counter, table [processed_files] as a map from the unique
    [filename] to [file_hash], and the number of [conn.commit()] calls. *)
Record db := {
  posts : list row;
  next_id : Z;
  processed_files : gmap str (option str);
  commits : nat
}.

Definition empty_db : db :=
  {| posts := []; next_id := 1; processed_files := ∅; commits := 0 |}.

Definition commit (d : db) : db :=
  {| posts := posts d; next_id := next_id d;
     processed_files := processed_files d; commits := S (commits d) |}.

(** [SELECT 1 FROM processed_files WHERE filename = ?] *)
Definition is_file_processed (d : db) (filename : str) : bool :=
  match processed_files d !! filename with
  | Some _ => true
  | None => false
  end.

(** [INSERT OR REPLACE INTO processed_files (filename, file_hash)], then commit. *)
Definition mark_file_processed (d : db) (filename : str) (file_hash : option str) : db :=
  commit {| posts := posts d; next_id := next_id d;
            processed_files := <[filename := file_hash]> (processed_files d);
            commits := commits d |}.

(** [SELECT 1 FROM posts WHERE md5 = ?] returns a row. *)
Definition select_md5 (d : db) (h : str) : bool :=
  existsb (fun r => bool_decide (md5 r = Some h)) (posts d).

Definition post_exists (d : db) (md5 : option str) : bool :=
  match md5 with
  | Some h => if truthy h then select_md5 d h else false
  | None => false
  end.

(** The tuple bound to the [INSERT INTO posts (...) VALUES (...)] statement. *)
Definition new_row (rid pid : Z) (data : post_data) : row :=
  {| row_id := rid;
     post_id := pid;
     md5 := j_md5 data;
     url := or_else (j_url data) (j_file_url data);
     tags := j_tags data;
     tag_string := j_tag_string data;
     rating := j_rating data;
     file_ext := j_file_ext data;
     source := j_source data;
     created_at := j_created_at data;
     score := j_score data;
     fav_count := j_fav_count data;
     image_width := j_image_width data;
     image_height := j_image_height data;
     file_size := j_file_size data;
     description := j_description data;
     regular_summary := j_regular_summary data;
     individual_parts := j_individual_parts data;
     midjourney_style_summary := j_midjourney_style_summary data;
     deviantart_commission_request := j_deviantart_commission_request data;
     brief_summary := j_brief_summary data |}.

Definition opt_int64 (x : option Z) : bool :=
  match x with
  | Some n => int64 n
  | None => true
  end.

(** Whether the integers of the tuple can be bound to the statement. *)
Definition bindable (data : post_data) : bool :=
  opt_int64 (j_id data) && opt_int64 (j_score data) && opt_int64 (j_fav_count data)
  && opt_int64 (j_image_width data) && opt_int64 (j_image_height data)
  && opt_int64 (j_file_size data).

(** The [INSERT INTO posts] statement.  An integer that cannot be bound is
    [OverflowError], before the statement runs; [Ok None] is
    [sqlite3.IntegrityError], raised when [post_id] would be NULL or when
    [md5] is not NULL and some row already holds it (NULLs never collide
    under [UNIQUE]). *)
Definition insert_row (d : db) (data : post_data) : result (option db) :=
  if bindable data then
    Ok (match j_id data with
        | None => None
        | Some pid =>
            if (match j_md5 data with Some h => select_md5 d h | None => false end)
            then None
            else Some {| posts := posts d ++ [new_row (next_id d) pid data];
                         next_id := next_id d + 1;
                         processed_files := processed_files d;
                         commits := commits d |}
        end)
  else Raise OverflowError.

(** [insert_post(data)]: what it returns or raises, and the database
    after it; an exception leaves the database as it is. *)
Definition insert_post (d : db) (data : json) : result bool * db :=
  match data with
  | JOther => (Raise AttributeError, d)
  | JObject data =>
      let md5 := j_md5 data in
      if (match md5 with Some h => truthy h | None => false end) && post_exists d md5
      then (Ok false, d)
      else match insert_row d data with
           | Ok (Some d') => (Ok true, commit d')
           | Ok None => (Ok false, d)
           | Raise e => (Raise e, d)
           end
  end.

(** The [for data in posts] loop of [insert_batch]: the count and the
    database when the loop is over, or the exception that leaves the loop,
    with the database as it is then: the rows inserted so far are in it. *)
Fixpoint insert_loop (posts : list json) (inserted : Z) (d : db) : result Z * db :=
  match posts with
  | [] => (Ok inserted, d)
  | JOther :: _ => (Raise AttributeError, d)
  | JObject data :: posts' =>
      match insert_row d data with
      | Ok (Some d') => insert_loop posts' (inserted + 1) d'
      | Ok None => insert_loop posts' inserted d
      | Raise e => (Raise e, d)
      end
  end.

(** [insert_batch(posts)]: the commit is skipped when an exception leaves
    the loop. *)
Definition insert_batch (d : db) (posts : list json) : result Z * db :=
  match insert_loop posts 0 d with
  | (Ok inserted, d') => (Ok inserted, commit d')
  | (Raise e, d') => (Raise e, d')
  end.

Definition get_total_count (d : db) : Z := Z.of_nat (length (posts d)).

(** [get_post_by_id(db_id)]: the first row of [SELECT * FROM posts WHERE
    id = ?], if any. *)
Definition get_post_by_id (d : db) (db_id : Z) : result (option row) :=
  if int64 db_id then Ok (find (fun r => bool_decide (row_id r = db_id)) (posts d))
  else Raise OverflowError.

End Store.
Import Store.

(** ** The SQL fragment [search_posts] builds *)

Module Sql.

(** The numeric columns a comparison may name. *)
Inductive column :=
| col_score | col_fav_count | col_image_width | col_image_height
| col_file_size | col_post_id.

Inductive cmp_op := op_eq | op_ge | op_le | op_gt | op_lt.

(** One [" AND ..."] fragment appended to the statement text; every ["?"] in
    it is a placeholder bound later, by position, to one element of [params].
    [OrLikes n] is [" AND (tag_string LIKE ? OR ... OR tag_string LIKE ?)"]
    with [n] placeholders. *)
Inductive clause :=
| RatingEq
| RatingNullOrNe
| FileExtEq
| FileExtNullOrNe
| TagLike
| TagNotLike
| NumCmp (c : column) (o : cmp_op)
| OrLikes (n : nat).

(** A bound parameter: a Python [str] or [int]. *)
Inductive param :=
| PText (s : str)
| PInt (n : Z).

(** SQLite's [LIKE]: [%] matches any run of characters, [_] any single
    character, every other character itself, ASCII letters without regard to
    case. *)
Fixpoint like (pat : str) : str -> bool :=
  match pat with
  | [] => fun s => match s with [] => true | _ => false end
  | p :: pat' =>
      if chr_eqb p "%" then
        fix any_run (s : str) : bool :=
          like pat' s || match s with [] => false | _ :: s' => any_run s' end
      else if chr_eqb p "_" then
        fun s => match s with [] => false | _ :: s' => like pat' s' end
      else
        fun s => match s with
                 | [] => false
                 | c :: s' => chr_eqb (lower_chr p) (lower_chr c) && like pat' s'
                 end
  end.

(** A clause with its parameters bound. *)
Inductive bound :=
| BRatingEq (v : str)
| BRatingNullOrNe (v : str)
| BFileExtEq (v : str)
| BFileExtNullOrNe (v : str)
| BTagLike (pat : str)
| BTagNotLike (pat : str)
| BNumCmp (c : column) (o : cmp_op) (v : Z)
| BOrLikes (pats : list str).

Definition placeholders (c : clause) : nat :=
  match c with OrLikes n => n | _ => 1%nat end.

Fixpoint texts (ps : list param) : option (list str) :=
  match ps with
  | [] => Some []
  | PText s :: ps' => (fun l => s :: l) <$> texts ps'
  | PInt _ :: _ => None
  end.

(** Binding one clause consumes its placeholders' worth of parameters.
    [search_posts] pairs a text clause with a [str] and a numeric comparison
    with an [int]; any other pairing, like a missing parameter, is [None]. *)
Definition bind_clause (c : clause) (ps : list param) : option (bound * list param) :=
  match c, ps with
  | RatingEq, PText v :: ps' => Some (BRatingEq v, ps')
  | RatingNullOrNe, PText v :: ps' => Some (BRatingNullOrNe v, ps')
  | FileExtEq, PText v :: ps' => Some (BFileExtEq v, ps')
  | FileExtNullOrNe, PText v :: ps' => Some (BFileExtNullOrNe v, ps')
  | TagLike, PText v :: ps' => Some (BTagLike v, ps')
  | TagNotLike, PText v :: ps' => Some (BTagNotLike v, ps')
  | NumCmp col o, PInt v :: ps' => Some (BNumCmp col o v, ps')
  | OrLikes n, _ =>
      if (n <=? length ps)%nat
      then (fun l => (BOrLikes l, drop n ps)) <$> texts (take n ps)
      else None
  | _, _ => None
  end.

Fixpoint bind_all (sql : list clause) (ps : list param) : option (list bound * list param) :=
  match sql with
  | [] => Some ([], ps)
  | c :: sql' =>
      '(b, ps') ← bind_clause c ps;
      '(bs, rest) ← bind_all sql' ps';
      Some (b :: bs, rest)
  end.

Definition column_value (c : column) (r : row) : option Z :=
  match c with
  | col_score => score r
  | col_fav_count => fav_count r
  | col_image_width => image_width r
  | col_image_height => image_height r
  | col_file_size => file_size r
  | col_post_id => Some (post_id r)
  end.

Definition compare (o : cmp_op) (x v : Z) : bool :=
  match o with
  | op_eq => Z.eqb x v
  | op_ge => Z.leb v x
  | op_le => Z.leb x v
  | op_gt => Z.ltb v x
  | op_lt => Z.ltb x v
  end.

(** Whether a condition is true of a row.  A comparison on a NULL column is
    NULL, and a row whose [WHERE] clause is NULL is not selected. *)
Definition holds (b : bound) (r : row) : bool :=
  match b with
  | BRatingEq v => match rating r with Some x => bool_decide (x = v) | None => false end
  | BRatingNullOrNe v => match rating r with Some x => negb (bool_decide (x = v)) | None => true end
  | BFileExtEq v => match file_ext r with Some x => bool_decide (x = v) | None => false end
  | BFileExtNullOrNe v => match file_ext r with Some x => negb (bool_decide (x = v)) | None => true end
  | BTagLike pat => match tag_string r with Some t => like pat t | None => false end
  | BTagNotLike pat => match tag_string r with Some t => negb (like pat t) | None => false end
  | BNumCmp c o v => match column_value c r with Some x => compare o x v | None => false end
  | BOrLikes pats =>
      match tag_string r with Some t => existsb (fun pat => like pat t) pats | None => false end
  end.

(** [WHERE 1=1 AND ... AND ...] *)
Definition where_ (bs : list bound) (r : row) : bool := forallb (fun b => holds b r) bs.

(** [ORDER BY post_id DESC]; SQL leaves the order of rows with equal [post_id]
    open, the merge sort fixes one. *)
Definition post_id_desc (a b : row) : Prop := post_id b <= post_id a.

#[global] Instance post_id_desc_dec (a b : row) : Decision (post_id_desc a b) :=
  Z_le_dec (post_id b) (post_id a).

Definition order_by_post_id_desc (rows : list row) : list row :=
  merge_sort post_id_desc rows.

(** [LIMIT ?]: a negative limit is no limit. *)
Definition limit_rows (limit : Z) (rows : list row) : list row :=
  if Z.ltb limit 0 then rows else take (Z.to_nat limit) rows.

(** The columns of [SELECT id, post_id, tag_string]. *)
Definition selected (r : row) : Z * Z * option str := (row_id r, post_id r, tag_string r).

(** Whether the integer of a condition can be bound. *)
Definition bound_int64 (b : bound) : bool :=
  match b with
  | BNumCmp _ _ v => int64 v
  | _ => true
  end.

(** [cursor.execute(sql, params); cursor.fetchall()] for
    ["SELECT id, post_id, tag_string FROM posts WHERE 1=1" + sql +
     " ORDER BY post_id DESC LIMIT ?"].  A number of parameters different
    from the number of placeholders is [sqlite3.ProgrammingError]; when the
    numbers agree, an integer that cannot be bound is [OverflowError]. *)
Definition execute_select (d : db) (sql : list clause) (params : list param)
  : result (list (Z * Z * option str)) :=
  match bind_all sql params with
  | Some (bs, [PInt limit]) =>
      if forallb bound_int64 bs && int64 limit then
        Ok (map selected (limit_rows limit (order_by_post_id_desc (filter (fun r => where_ bs r) (posts d)))))
      else Raise OverflowError
  | _ => Raise ProgrammingError
  end.

End Sql.
Import Sql.

(** ** The query compiler ([search_posts] and its helpers) *)

Module Query.

(** The three variables of the scan in [_parse_search_query]. *)
Record scan_state := {
  terms : list str;
  current_term : str;
  in_quotes : bool
}.

Definition scan_start : scan_state :=
  {| terms := []; current_term := []; in_quotes := false |}.

(** The body of [for char in query]. *)
Definition scan_char (st : scan_state) (char : ascii) : scan_state :=
  if chr_eqb char dquote then
    {| terms := terms st; current_term := current_term st;
       in_quotes := negb (in_quotes st) |}
  else if chr_eqb char " " && negb (in_quotes st) then
    if truthy (current_term st) then
      {| terms := terms st ++ [current_term st]; current_term := [];
         in_quotes := in_quotes st |}
    else st
  else
    {| terms := terms st; current_term := current_term st ++ [char];
       in_quotes := in_quotes st |}.

Definition scan (query : str) (st : scan_state) : scan_state :=
  fold_left scan_char query st.

(** The statements after the loop. *)
Definition scan_finish (st : scan_state) : list str :=
  if truthy (current_term st) then terms st ++ [current_term st] else terms st.

Definition _parse_search_query (query : str) : list str :=
  scan_finish (scan query scan_start).

(** The [value] argument of [_add_numeric_condition]: the [int] that
    [_parse_filesize] may return, or a [str]. *)
Inductive num_value :=
| VInt (n : Z)
| VStr (s : str).

(** [params.append(int(text))] after [sql += ...]: the [ValueError] of [int]
    leaves the function. *)
Definition append_int (sql : list clause) (params : list param) (text : str)
  : result (list clause * list param) :=
  match py_int text with
  | Some n => Ok (sql, params ++ [PInt n])
  | None => Raise ValueError
  end.

Definition _add_numeric_condition (sql : list clause) (params : list param)
    (column : column) (value : num_value) : result (list clause * list param) :=
  match value with
  | VInt n => Ok (sql ++ [NumCmp column op_eq], params ++ [PInt n])
  | VStr value =>
      if startswith (py ">=") value then
        append_int (sql ++ [NumCmp column op_ge]) params (slice_from 2 value)
      else if startswith (py "<=") value then
        append_int (sql ++ [NumCmp column op_le]) params (slice_from 2 value)
      else if startswith (py ">") value then
        append_int (sql ++ [NumCmp column op_gt]) params (slice_from 1 value)
      else if startswith (py "<") value then
        append_int (sql ++ [NumCmp column op_lt]) params (slice_from 1 value)
      else
        (* try: sql += ...; params.append(int(value)) / except ValueError: pass.
           The text of [sql] is already extended when [int] fails. *)
        match py_int value with
        | Some n => Ok (sql ++ [NumCmp column op_eq], params ++ [PInt n])
        | None => Ok (sql ++ [NumCmp column op_eq], params)
        end
  end.

(** The [multipliers] dict of [_parse_filesize], in its insertion order. *)
Definition multipliers : list (str * Z) :=
  [(py "b", 1); (py "kb", 1024); (py "mb", 1024 * 1024); (py "gb", 1024 * 1024 * 1024)].

(** What becomes of [int(float(...) * mult)] in a [return] of the [try] block
    under [if value.endswith(suffix)]: the value made of the integer, [None]
    after a [ValueError], or the exception the block does not catch. *)
Definition returned {A : Type} (f : Z -> A) (r : result (option Z)) : result (option A) :=
  match r with
  | Ok (Some n) => Ok (Some (f n))
  | Ok None => Ok None
  | Raise e => Raise e
  end.

(** The [try] block under [if value.endswith(suffix)]: every path leaves the
    function. *)
Definition parse_suffixed (value suffix : str) (mult : Z) : result (option num_value) :=
  let num := slice_to_minus (length suffix) value in
  if startswith (py ">=") num then
    returned (fun n => VStr (py ">=" ++ str_of_int n))
      (py_int_float_times (slice_from 2 num) mult)
  else if startswith (py "<=") num then
    returned (fun n => VStr (py "<=" ++ str_of_int n))
      (py_int_float_times (slice_from 2 num) mult)
  else if startswith (py ">") num then
    returned (fun n => VStr (py ">" ++ str_of_int n))
      (py_int_float_times (slice_from 1 num) mult)
  else if startswith (py "<") num then
    returned (fun n => VStr (py "<" ++ str_of_int n))
      (py_int_float_times (slice_from 1 num) mult)
  else
    returned VInt (py_int_float_times num mult).

(** The statements after the loop: no suffix matched. *)
Definition parse_unsuffixed (value : str) : option num_value :=
  if startswith (py ">=") value then
    (fun n => VStr (py ">=" ++ str_of_int n)) <$> py_int (slice_from 2 value)
  else if startswith (py "<=") value then
    (fun n => VStr (py "<=" ++ str_of_int n)) <$> py_int (slice_from 2 value)
  else if startswith (py ">") value then
    (fun n => VStr (py ">" ++ str_of_int n)) <$> py_int (slice_from 1 value)
  else if startswith (py "<") value then
    (fun n => VStr (py "<" ++ str_of_int n)) <$> py_int (slice_from 1 value)
  else
    VInt <$> py_int value.

(** [for suffix, mult in multipliers.items()]: the first suffix the value
    ends with decides. *)
Fixpoint parse_with (items : list (str * Z)) (value : str)
  : result (option num_value) :=
  match items with
  | [] => Ok (parse_unsuffixed value)
  | (suffix, mult) :: items' =>
      if endswith suffix value then parse_suffixed value suffix mult
      else parse_with items' value
  end.

(** [Ok None] is the [None] the source returns. *)
Definition _parse_filesize (value : str) : result (option num_value) :=
  parse_with multipliers (strip (lower value)).

(** The variables [search_posts] updates while it walks the terms. *)
Record build := {
  sql : list clause;
  params : list param;
  or_tags : list str
}.

Definition build_start : build := {| sql := []; params := []; or_tags := [] |}.

(** [sql += clause; params.append(text)] *)
Definition add_text (b : build) (c : clause) (text : str) : build :=
  {| sql := sql b ++ [c]; params := params b ++ [PText text]; or_tags := or_tags b |}.

(** [sql, params = self._add_numeric_condition(sql, params, column, value)] *)
Definition add_numeric (b : build) (column : column) (value : num_value) : result build :=
  match _add_numeric_condition (sql b) (params b) column value with
  | Ok (s, p) => Ok {| sql := s; params := p; or_tags := or_tags b |}
  | Raise e => Raise e
  end.

(** [f"%{text}%"] *)
Definition percent (text : str) : str := py "%" ++ text ++ py "%".

Definition key_in (key : str) (keys : list string) : bool :=
  existsb (fun k => str_eqb key (py k)) keys.

(** The body of [for term in terms]. *)
Definition search_term (b : build) (term : str) : result build :=
  if startswith (py "~") term then
    Ok {| sql := sql b; params := params b; or_tags := or_tags b ++ [slice_from 1 term] |}
  else if startswith (py "-") term then
    let neg_term := slice_from 1 term in
    if contains_chr ":" neg_term then
      let '(key, value) := split_once ":" neg_term in
      let key := lower key in
      if key_in key ["rating"%string] then
        Ok (add_text b RatingNullOrNe (slice_to 1 (lower value)))
      else if key_in key ["type"%string] then
        Ok (add_text b FileExtNullOrNe (lower value))
      else
        Ok (add_text b TagNotLike (percent neg_term))
    else
      Ok (add_text b TagNotLike (percent neg_term))
  else if contains_chr ":" term then
    let '(key, value) := split_once ":" term in
    let key := lower key in
    if key_in key ["rating"%string] then
      Ok (add_text b RatingEq (slice_to 1 (lower value)))
    else if key_in key ["score"%string] then
      add_numeric b col_score (VStr value)
    else if key_in key ["favcount"; "fav_count"; "favorites"]%string then
      add_numeric b col_fav_count (VStr value)
    else if key_in key ["type"; "filetype"; "file_type"]%string then
      Ok (add_text b FileExtEq (lower value))
    else if key_in key ["width"%string] then
      add_numeric b col_image_width (VStr value)
    else if key_in key ["height"%string] then
      add_numeric b col_image_height (VStr value)
    else if key_in key ["filesize"; "file_size"; "size"]%string then
      match _parse_filesize value with
      | Ok (Some size_bytes) => add_numeric b col_file_size size_bytes
      | Ok None => Ok b
      | Raise e => Raise e
      end
    else if key_in key ["id"%string] then
      add_numeric b col_post_id (VStr value)
    else
      Ok (add_text b TagLike (percent term))
  else if contains_chr "*" term then
    Ok (add_text b TagLike (percent (replace_chr "*" "%" term)))
  else
    Ok (add_text b TagLike (percent term)).

Fixpoint search_terms (b : build) (terms : list str) : result build :=
  match terms with
  | [] => Ok b
  | term :: terms' =>
      match search_term b term with
      | Ok b' => search_terms b' terms'
      | Raise e => Raise e
      end
  end.

(** [if or_tags: ...]: one parenthesised disjunction, one parameter per tag. *)
Definition handle_or_tags (b : build) : list clause * list param :=
  match or_tags b with
  | [] => (sql b, params b)
  | _ => (sql b ++ [OrLikes (length (or_tags b))],
          params b ++ map (fun tag => PText (percent tag)) (or_tags b))
  end.

(** The statement and the parameters [search_posts] has built when it reaches
    [cursor.execute], the [LIMIT] parameter included. *)
Definition compile (query : option str) (limit : Z) : result (list clause * list param) :=
  match query with
  | Some q =>
      if truthy q then
        match search_terms build_start (_parse_search_query q) with
        | Ok b => let '(s, p) := handle_or_tags b in Ok (s, p ++ [PInt limit])
        | Raise e => Raise e
        end
      else Ok ([], [PInt limit])
  | None => Ok ([], [PInt limit])
  end.

Definition search_posts (d : db) (query : option str) (limit : Z)
  : result (list (Z * Z * option str)) :=
  match compile query limit with
  | Ok (s, p) => execute_select d s p
  | Raise e => Raise e
  end.

(** The default of the [limit] argument. *)
Definition default_limit : Z := 50000.

End Query.
Import Query.

(** ** The stream ingestor ([class DatasetDownloader])

    The two callbacks only report progress and are left out: they are taken
    not to raise.  The remote side and the thread that may call [cancel()]
    are a [world] the run is given. *)

Module Downloader.

Definition FILE_EXTENSION : str := py ".jsonl".
Definition TEST_FILE_LIMIT : option nat := Some 3%nat.

(** What [requests.get(url, stream=True)] gives for one file: the chunks
    [iter_content] yields, and whether the stream then breaks (the iterator
    raises) instead of ending. *)
Record response := {
  chunks : list str;
  broken : bool
}.

(** How the remote side answers for one file. *)
Inductive remote_file :=
| UrlError                  (* [hf_hub_url] raises *)
| FetchError                (* [requests.get] or [raise_for_status] raises *)
| Stream (r : response).

(** The surroundings of one run: the listing ([None] when [list_repo_files]
    raises), the answer for each file, and the other thread's [cancel()]:
    [cancel_after = Some k] means that the first [k] calls of
    [cancel_flag.is_set()] of the run see the flag clear and every later call
    sees it set; [None] means nobody cancels. *)
Record world := {
  listing : option (list str);
  remote : str -> remote_file;
  cancel_after : option nat
}.

(** What the run prints. *)
Inductive event :=
| ErrorListingFiles
| StreamError (filename : str)
| ErrorProcessing (filename : str).

(** The downloader and the database it writes to; [polls] counts the calls of
    [cancel_flag.is_set()] since [cancel_flag.clear()]. *)
Record downloader := {
  db_ : db;
  file_limit : option nat;
  polls : nat;
  total_files : nat;
  processed_files_ : nat;
  total_posts_added : Z;
  is_downloading : bool;
  log : list event
}.

Definition with_db (ds : downloader) (d : db) : downloader :=
  {| db_ := d; file_limit := file_limit ds; polls := polls ds;
     total_files := total_files ds; processed_files_ := processed_files_ ds;
     total_posts_added := total_posts_added ds;
     is_downloading := is_downloading ds; log := log ds |}.

Definition with_log (ds : downloader) (e : event) : downloader :=
  {| db_ := db_ ds; file_limit := file_limit ds; polls := polls ds;
     total_files := total_files ds; processed_files_ := processed_files_ ds;
     total_posts_added := total_posts_added ds;
     is_downloading := is_downloading ds; log := log ds ++ [e] |}.

(** [self.cancel_flag.is_set()] *)
Definition is_set (w : world) (ds : downloader) : bool * downloader :=
  (match cancel_after w with
   | Some k => (k <=? polls ds)%nat
   | None => false
   end,
   {| db_ := db_ ds; file_limit := file_limit ds; polls := S (polls ds);
      total_files := total_files ds; processed_files_ := processed_files_ ds;
      total_posts_added := total_posts_added ds;
      is_downloading := is_downloading ds; log := log ds |}).

(** Lexicographic order of strings by character code, the order of [sorted]. *)
Fixpoint str_leb (a b : str) : bool :=
  match a, b with
  | [], _ => true
  | _ :: _, [] => false
  | x :: a', y :: b' =>
      if (N_of_ascii x <? N_of_ascii y)%N then true
      else if (N_of_ascii y <? N_of_ascii x)%N then false
      else str_leb a' b'
  end.

Definition sorted (l : list str) : list str :=
  merge_sort (fun a b => Is_true (str_leb a b)) l.

Definition get_jsonl_files (w : world) (ds : downloader) : list str * downloader :=
  match listing w with
  | Some all_files => (sorted (filter (fun f => endswith FILE_EXTENSION f) all_files), ds)
  | None => ([], with_log ds ErrorListingFiles)
  end.

Section Ingest.

(** [json.loads] on one line; [None] is [json.JSONDecodeError]. *)
Variable json_loads : str -> option json.

Definition batch_size : nat := 1000.

(** The local variables of [_stream_process_file], with the database. *)
Record stream_state := {
  s_db : db;
  buffer : str;
  batch : list json;
  posts_added : Z
}.

(** Where a step inside the [try] block of [_stream_process_file] leaves it:
    the block goes on, or an exception is on its way to [except Exception];
    the state is the one the step has reached. *)
Inductive flow :=
| Go (st : stream_state)
| Halt (st : stream_state).

Definition state_of (f : flow) : stream_state :=
  match f with
  | Go st => st
  | Halt st => st
  end.

(** [batch.append(data)], and the flush of a full batch; the exception of
    [insert_batch] is not a [json.JSONDecodeError], so it leaves the block. *)
Definition append_data (st : stream_state) (data : json) : flow :=
  let batch := batch st ++ [data] in
  if (batch_size <=? length batch)%nat then
    match insert_batch (s_db st) batch with
    | (Ok added, d) =>
        Go {| s_db := d; buffer := buffer st; batch := [];
              posts_added := posts_added st + added |}
    | (Raise _, d) =>
        Halt {| s_db := d; buffer := buffer st; batch := batch;
                posts_added := posts_added st |}
    end
  else
    Go {| s_db := s_db st; buffer := buffer st; batch := batch;
          posts_added := posts_added st |}.

(** [if line.strip(): try: ... except json.JSONDecodeError: pass] *)
Definition process_line (st : stream_state) (line : str) : flow :=
  if truthy (strip line) then
    match json_loads line with
    | Some data => append_data st data
    | None => Go st
    end
  else Go st.

Definition set_buffer (st : stream_state) (b : str) : stream_state :=
  {| s_db := s_db st; buffer := b; batch := batch st; posts_added := posts_added st |}.

(** [while '\n' in buffer: line, buffer = buffer.split('\n', 1); ...].
    Every round shortens the buffer, so [length buffer] rounds are enough. *)
Fixpoint complete_lines (rounds : nat) (st : stream_state) : flow :=
  match rounds with
  | O => Go st
  | S rounds' =>
      if contains_chr newline (buffer st) then
        let '(line, rest) := split_once newline (buffer st) in
        match process_line (set_buffer st rest) line with
        | Go st' => complete_lines rounds' st'
        | Halt st' => Halt st'
        end
      else Go st
  end.

(** The body of [for chunk in response.iter_content(...)] below the
    cancellation test. *)
Definition process_chunk (st : stream_state) (chunk : str) : flow :=
  if truthy chunk then
    let st := set_buffer st (buffer st ++ chunk) in
    complete_lines (length (buffer st)) st
  else Go st.

(** The [for chunk] loop.  The result tells whether the loop was left
    normally (exhausted or [break]) or by an exception: that of a broken
    stream, or that of [insert_batch]. *)
Fixpoint chunk_loop (w : world) (cs : list str) (broken : bool)
    (ds : downloader) (st : stream_state) : bool * downloader * stream_state :=
  match cs with
  | [] => (negb broken, ds, st)
  | chunk :: cs' =>
      let '(cancelled, ds) := is_set w ds in
      if cancelled then (true, ds, st)
      else match process_chunk st chunk with
           | Go st' => chunk_loop w cs' broken ds st'
           | Halt st' => (false, ds, st')
           end
  end.

(** The statements after the loop: the last line without a newline, and the
    flush of the rest of the batch. *)
Definition finish_stream (st : stream_state) : flow :=
  let st :=
    if truthy (strip (buffer st)) then
      match json_loads (buffer st) with
      | Some data =>
          {| s_db := s_db st; buffer := buffer st; batch := batch st ++ [data];
             posts_added := posts_added st |}
      | None => st
      end
    else st in
  match batch st with
  | [] => Go st
  | _ =>
      match insert_batch (s_db st) (batch st) with
      | (Ok added, d) =>
          Go {| s_db := d; buffer := buffer st; batch := batch st;
                posts_added := posts_added st + added |}
      | (Raise _, d) =>
          Halt {| s_db := d; buffer := buffer st; batch := batch st;
                  posts_added := posts_added st |}
      end
  end.

(** [_stream_process_file]: every exception is caught inside and printed, and
    [posts_added] is returned in every case.  [file] is the remote side's
    answer to the request. *)
Definition _stream_process_file (w : world) (ds : downloader) (filename : str)
    (file : option response) : Z * downloader :=
  let st0 := {| s_db := db_ ds; buffer := []; batch := []; posts_added := 0 |} in
  match file with
  | None => (0, with_log ds (StreamError filename))
  | Some r =>
      let '(normal, ds, st) := chunk_loop w (chunks r) (broken r) ds st0 in
      if normal then
        match finish_stream st with
        | Go st => (posts_added st, with_db ds (s_db st))
        | Halt st =>
            (posts_added st, with_log (with_db ds (s_db st)) (StreamError filename))
        end
      else
        (posts_added st, with_log (with_db ds (s_db st)) (StreamError filename))
  end.

(** The [try] block of the [for filename] loop, with its [except]. *)
Definition process_file (w : world) (ds : downloader) (filename : str)
    (file : remote_file) : downloader :=
  match file with
  | UrlError => with_log ds (ErrorProcessing filename)
  | _ =>
      let '(posts_added, ds) :=
        _stream_process_file w ds filename
          (match file with Stream r => Some r | _ => None end) in
      {| db_ := mark_file_processed (db_ ds) filename None;
         file_limit := file_limit ds; polls := polls ds;
         total_files := total_files ds;
         processed_files_ := S (processed_files_ ds);
         total_posts_added := total_posts_added ds + posts_added;
         is_downloading := is_downloading ds; log := log ds |}
  end.

(** [for i, filename in enumerate(files_to_process)] *)
Fixpoint files_loop (w : world) (files : list str) (ds : downloader) : downloader :=
  match files with
  | [] => ds
  | filename :: files' =>
      let '(cancelled, ds) := is_set w ds in
      if cancelled then ds
      else files_loop w files' (process_file w ds filename (remote w filename))
  end.

Definition set_downloading (ds : downloader) (b : bool) : downloader :=
  {| db_ := db_ ds; file_limit := file_limit ds; polls := polls ds;
     total_files := total_files ds; processed_files_ := processed_files_ ds;
     total_posts_added := total_posts_added ds;
     is_downloading := b; log := log ds |}.

Definition download_and_process (w : world) (ds : downloader) : downloader :=
  (* self.is_downloading = True; self.cancel_flag.clear() *)
  let ds := {| db_ := db_ ds; file_limit := file_limit ds; polls := 0;
               total_files := total_files ds; processed_files_ := processed_files_ ds;
               total_posts_added := total_posts_added ds;
               is_downloading := true; log := log ds |} in
  let '(jsonl_files, ds) := get_jsonl_files w ds in
  let jsonl_files :=
    match file_limit ds with
    | Some (S n) => take (S n) jsonl_files
    | _ => jsonl_files
    end in
  let ds := {| db_ := db_ ds; file_limit := file_limit ds; polls := polls ds;
               total_files := length jsonl_files; processed_files_ := 0;
               total_posts_added := total_posts_added ds;
               is_downloading := is_downloading ds; log := log ds |} in
  let files_to_process :=
    filter (fun f => is_file_processed (db_ ds) f = false) jsonl_files in
  match files_to_process with
  | [] => set_downloading ds false
  | _ => set_downloading (files_loop w files_to_process ds) false
  end.

End Ingest.

(** A downloader on a given database, as [__init__] and the caller's choice
    of [file_limit] leave it. *)
Definition new_downloader (d : db) (limit : option nat) : downloader :=
  {| db_ := d; file_limit := limit; polls := 0; total_files := 0;
     processed_files_ := 0; total_posts_added := 0; is_downloading := false;
     log := [] |}.

End Downloader.
Import Downloader.

(** ** Notions the properties are stated with *)

Module Notions.

(** *** Tokens, as the specification words them *)

Definition is_quote (c : ascii) : bool := chr_eqb c dquote.

(** [push c fs] puts [c] in front of the first field. *)
Definition push (c : ascii) (fs : list str) : list str :=
  match fs with
  | [] => [[c]]
  | f :: fs' => (c :: f) :: fs'
  end.

(** The fields of a query: the text is cut at every separator that stands
    outside double quotes; [inq] tells whether the text starts inside quotes.
    The quote characters stay in the fields. *)
Fixpoint fields (sep : ascii -> bool) (inq : bool) (q : str) : list str :=
  match q with
  | [] => [[]]
  | c :: q' =>
      if is_quote c then push c (fields sep (negb inq) q')
      else if sep c && negb inq then [] :: fields sep inq q'
      else push c (fields sep inq q')
  end.

Definition unquote (f : str) : str := List.filter (fun c => negb (is_quote c)) f.

(** Split on the separators outside quotes, strip the quotes, and keep the
    fields that are not empty. *)
Definition tokens_of (sep : ascii -> bool) (q : str) : list str :=
  List.filter truthy (map unquote (fields sep false q)).

(** The separator the source tests for. *)
Definition is_blank (c : ascii) : bool := chr_eqb c " ".

(** [glue cur fs] continues the token [cur] with the first field. *)
Definition glue (cur : str) (fs : list str) : list str :=
  match fs with
  | [] => [cur]
  | f :: fs' => (cur ++ f) :: fs'
  end.

(** *** Containment in the tag string *)

(** [needle] occurs in [hay], ASCII letters compared without regard to case. *)
Definition contains_ci (needle hay : str) : Prop :=
  exists pre mid post, hay = pre ++ mid ++ post /\ lower mid = lower needle.

(** The same, as a test. *)
Fixpoint prefix_ci (needle hay : str) : bool :=
  match needle, hay with
  | [], _ => true
  | x :: needle', y :: hay' => chr_eqb (lower_chr x) (lower_chr y) && prefix_ci needle' hay'
  | _ :: _, [] => false
  end.

Fixpoint infix_ci (needle hay : str) : bool :=
  prefix_ci needle hay ||
  match hay with
  | [] => false
  | _ :: hay' => infix_ci needle hay'
  end.

(** A text without the two characters [LIKE] reads as wildcards. *)
Definition plain (s : str) : Prop :=
  Forall (fun c => chr_eqb c "%" = false /\ chr_eqb c "_" = false) s.

(** One of the letters before the [b] of [kb], [mb] and [gb]. *)
Definition unit_letter (x : ascii) : Prop := x = "k" \/ x = "m" \/ x = "g".

(** The tag string of a row contains [needle]. *)
Definition tagged (needle : str) (r : row) : bool :=
  match tag_string r with
  | Some t => infix_ci needle t
  | None => false
  end.

(** The same build with another OR-group. *)
Definition set_or (b : build) (o : list str) : build :=
  {| sql := sql b; params := params b; or_tags := o |}.

(** A token of the OR-group. *)
Definition is_or_term (term : str) : bool := startswith (py "~") term.

(** The condition the OR-group stands for: the tag string matches
    [LIKE '%tag%'] for one tag of the group at least. *)
Definition or_match (tags : list str) (r : row) : bool :=
  match tag_string r with
  | Some t => existsb (fun tag => like (percent tag) t) tags
  | None => false
  end.

(** *** The store *)

(** Some row holds the hash [h]. *)
Definition holds_hash (d : db) (h : str) : Prop :=
  exists r, In r (posts d) /\ md5 r = Some h.

(** The record cannot be inserted: it has no [id], or it has a hash that
    some row holds. *)
Definition rejected (d : db) (data : post_data) : Prop :=
  j_id data = None \/ exists h, j_md5 data = Some h /\ holds_hash d h.

(** The database with one more row, made from [data]. *)
Definition appended (d : db) (pid : Z) (data : post_data) : db :=
  {| posts := posts d ++ [new_row (next_id d) pid data];
     next_id := next_id d + 1;
     processed_files := processed_files d;
     commits := commits d |}.

(** No two rows hold the same non-empty hash. *)
Definition unique_hashes (d : db) : Prop :=
  forall h i j ri rj, h <> [] ->
    posts d !! i = Some ri -> posts d !! j = Some rj ->
    md5 ri = Some h -> md5 rj = Some h -> i = j.

(** The same tables, whatever the number of commits. *)
Definition same_tables (d d' : db) : Prop :=
  posts d = posts d' /\ next_id d = next_id d' /\
  processed_files d = processed_files d'.

(** [d'] comes from [d] by appending rows, and keeps its hashes unique if
    [d] has them unique. *)
Definition grows (d d' : db) : Prop :=
  (unique_hashes d -> unique_hashes d') /\ exists new, posts d' = posts d ++ new.

(** The record has a hash that is not empty and that some row holds. *)
Definition duplicate (d : db) (data : post_data) : Prop :=
  exists h, j_md5 data = Some h /\ h <> [] /\ holds_hash d h.

(** A record of the data model that can be stored: it has an [id], its hash
    is absent or not empty, and its integers fit in 64 signed bits. *)
Definition regular (data : post_data) : Prop :=
  j_id data <> None /\ j_md5 data <> Some [] /\ bindable data = true.

(** [insert_post] on every record of a batch in turn, counting the [True]s
    from [n] on; an exception ends it. *)
Fixpoint insert_each (batch : list json) (n : Z) (d : db) : result Z * db :=
  match batch with
  | [] => (Ok n, d)
  | data :: batch' =>
      match insert_post d data with
      | (Ok ok, d') => insert_each batch' (if ok then n + 1 else n) d'
      | (Raise e, d') => (Raise e, d')
      end
  end.

(** *** Sample data *)

(** A decoded record with the given [id], [md5], [tag_string] and
    [file_size], and no other key. *)
Definition sample_post (pid : option Z) (hash tag : option str) (size : option Z)
  : post_data :=
  {| j_id := pid; j_md5 := hash; j_url := None; j_file_url := None;
     j_tags := None; j_tag_string := tag; j_rating := None; j_file_ext := None;
     j_source := None; j_created_at := None; j_score := None;
     j_fav_count := None; j_image_width := None; j_image_height := None;
     j_file_size := size; j_description := None; j_regular_summary := None;
     j_individual_parts := None; j_midjourney_style_summary := None;
     j_deviantart_commission_request := None; j_brief_summary := None |}.

(** The store after one [insert_batch] of the given records into a new
    database. *)
Definition store_of (l : list post_data) : db :=
  snd (insert_batch empty_db (map JObject l)).

(** Two posts with the [id]s 1 and 2, without hash and tags. *)
Definition two_posts : db :=
  store_of [sample_post (Some 1) None None None; sample_post (Some 2) None None None].

(** *** Sample runs *)

(** A decoder for the samples, in the place of [json.loads]: a line that
    reads as the integer [n] stands for the object with the [id] [n] and the
    line as its [md5]; any other line is malformed. *)
Definition line_loads (line : str) : option json :=
  (fun n => JObject (sample_post (Some n) (Some line) None None)) <$> py_int line.

(** One file of three lines, sent in two chunks.  With [cancel = Some 2] the
    other thread cancels while the first chunk is processed: the flag is
    clear at the top of the file loop and at the first chunk, and set at the
    second chunk. *)
Definition one_file (cancel : option nat) : world :=
  {| listing := Some [py "a.jsonl"];
     remote := fun _ =>
       Stream {| chunks := [py "1" ++ [newline] ++ py "2" ++ [newline];
                            py "3" ++ [newline]];
                 broken := false |};
     cancel_after := cancel |}.

(** Two files: the request for [a.jsonl] fails, [b.jsonl] has one line. *)
Definition failing_then_good : world :=
  {| listing := Some [py "b.jsonl"; py "a.jsonl"; py "readme.md"];
     remote := fun f =>
       if bool_decide (f = py "a.jsonl") then FetchError
       else Stream {| chunks := [py "1" ++ [newline]]; broken := false |};
     cancel_after := None |}.

(** One file whose stream breaks after its first chunk. *)
Definition broken_file : world :=
  {| listing := Some [py "a.jsonl"];
     remote := fun _ =>
       Stream {| chunks := [py "1" ++ [newline] ++ py "2"]; broken := true |};
     cancel_after := None |}.

End Notions.
Import Notions.

(** ** The list and detail panels ([class JsonViewerApp]), without the widgets *)

Module Viewer.

(** [s.split(sep)] for a one-character separator: the pieces between the
    separators, one more than there are separators. *)
Fixpoint split_chr (sep : ascii) (s : str) : list str :=
  match s with
  | [] => [[]]
  | c :: s' =>
      if chr_eqb c sep then [] :: split_chr sep s'
      else match split_chr sep s' with
           | [] => [[c]]
           | piece :: pieces => (c :: piece) :: pieces
           end
  end.

(** [sep.join(pieces)] *)
Fixpoint join_chr (sep : ascii) (pieces : list str) : str :=
  match pieces with
  | [] => []
  | [piece] => piece
  | piece :: pieces' => piece ++ sep :: join_chr sep pieces'
  end.

Definition len (s : str) : Z := Z.of_nat (length s).

(** The body of [for word in words] of [wrap_text]; the state is [lines] and
    [current_line]. *)
Definition wrap_word (width : Z) (st : list str * str) (word : str) : list str * str :=
  let '(lines, current_line) := st in
  if Z.leb (len current_line + len word + 1) width then
    (lines, current_line ++ (if truthy current_line then [" "] else []) ++ word)
  else
    (if truthy current_line then lines ++ [current_line] else lines, word).

(** The body of [for paragraph in text.split('\n')]. *)
Definition wrap_paragraph (width : Z) (lines : list str) (paragraph : str) : list str :=
  if Z.leb (len paragraph) width then lines ++ [paragraph]
  else
    let '(lines, current_line) :=
      fold_left (wrap_word width) (split_chr " " paragraph) (lines, []) in
    if truthy current_line then lines ++ [current_line] else lines.

(** The list [lines] of [wrap_text] when the loop is over. *)
Definition wrap_lines (text : str) (width : Z) : list str :=
  fold_left (wrap_paragraph width) (split_chr newline text) [].

(** [wrap_text(text, width)]; [text] is [None] for a NULL column. *)
Definition wrap_text (text : option str) (width : Z) : str :=
  match text with
  | Some t => if truthy t then join_chr newline (wrap_lines t width) else []
  | None => []
  end.

(** The default of [width]. *)
Definition default_width : Z := 80.

Definition display_limit : nat := 2000.

(** What [load_list] leaves behind: [post_cache], the number of selectables
    it has added, whether it has added the ["... (search to filter)"] line,
    and the two numbers of the header ["Posts: N shown / T total"]. *)
Record list_view := {
  post_cache : list (Z * Z);
  selectable_items : nat;
  more_line : bool;
  shown : nat;
  total : Z
}.

(** [load_list(query)]; an exception of [search_posts] leaves it. *)
Definition load_list (d : db) (query : option str) : result list_view :=
  match search_posts d query default_limit with
  | Ok rows =>
      let post_cache := map (fun r => (fst (fst r), snd (fst r))) rows in
      Ok {| post_cache := post_cache;
            selectable_items := length (take display_limit post_cache);
            more_line := (display_limit <? length post_cache)%nat;
            shown := length post_cache;
            total := get_total_count d |}
  | Raise e => Raise e
  end.

(** [refresh_list]; [search_input] is the text of the search box. *)
Definition refresh_list (d : db) (search_input : str) : result list_view :=
  if truthy search_input then load_list d (Some search_input) else load_list d None.

(** The post [on_select_item] hands to [show_details] for the list item
    [idx], if any; an exception is caught and printed. *)
Definition on_select_item (d : db) (v : list_view) (idx : nat) : option row :=
  match post_cache v !! idx with
  | Some (db_id, _) =>
      match get_post_by_id d db_id with
      | Ok post => post
      | Raise _ => None
      end
  | None => None
  end.

(** The text of the tags tab in [show_details]. *)
Definition formatted_tags (post : row) : str :=
  let tags :=
    match or_else (tag_string post) (tags post) with
    | Some t => t
    | None => []
    end in
  if truthy tags then replace_chr " " newline tags else py "(No tags)".

End Viewer.
Import Viewer.

(** ** More notions the properties are stated with *)

Module MoreNotions.

(** The text of a comparison operator in a query; equality has none. *)
Definition op_text (o : cmp_op) : str :=
  match o with
  | op_eq => []
  | op_ge => py ">="
  | op_le => py "<="
  | op_gt => py ">"
  | op_lt => py "<"
  end.

(** What a comparison asks of the column value [x]. *)
Definition satisfies (o : cmp_op) (x n : Z) : Prop :=
  match o with
  | op_eq => x = n
  | op_ge => n <= x
  | op_le => x <= n
  | op_gt => n < x
  | op_lt => x < n
  end.

(** The characters of a decimal number. *)
Definition digits_of (d : Decimal.uint) : str :=
  list_ascii_of_string (NilEmpty.string_of_uint d).

(** A character of an operator or of an integer. *)
Definition num_chr (c : ascii) : bool :=
  is_digit c || chr_eqb c "-" || chr_eqb c ">" || chr_eqb c "<" || chr_eqb c "=".

(** What [_parse_filesize] returns for the operator [o] and the size [n]. *)
Definition resolved (o : cmp_op) (n : Z) : num_value :=
  match o with
  | op_eq => VInt n
  | _ => VStr (op_text o ++ str_of_int n)
  end.

(** The rows a search returns for the bound conditions [bs]. *)
Definition rows_where (d : db) (bs : list bound) (limit : Z) : list (Z * Z * option str) :=
  map selected (limit_rows limit (order_by_post_id_desc
                  (filter (fun r => where_ bs r) (posts d)))).

(** The keys of the numeric conditions, with their columns. *)
Definition numeric_keys : list (string * column) :=
  [("score", col_score); ("favcount", col_fav_count); ("fav_count", col_fav_count);
   ("favorites", col_fav_count); ("width", col_image_width);
   ("height", col_image_height); ("id", col_post_id)]%string.

Definition filesize_keys : list string := ["filesize"; "file_size"; "size"]%string.

Definition type_keys : list string := ["type"; "filetype"; "file_type"]%string.

(** The keys [search_posts] gives a meaning to, and the two it gives one to
    after a [-]. *)
Definition known_keys : list string :=
  ["rating"; "score"; "favcount"; "fav_count"; "favorites"; "type"; "filetype";
   "file_type"; "width"; "height"; "filesize"; "file_size"; "size"; "id"]%string.

Definition negatable_keys : list string := ["rating"; "type"]%string.

(** The sign of a term. *)
Definition sign (neg : bool) : str := if neg then py "-" else [].

(** A character neither the compiler nor [LIKE] gives a meaning to: no
    blank, quote, colon or star, and none of the wildcards of [LIKE]. *)
Definition ordinary (c : ascii) : bool :=
  negb (chr_eqb c " ") && negb (chr_eqb c dquote) && negb (chr_eqb c ":")
  && negb (chr_eqb c "*") && negb (chr_eqb c "%") && negb (chr_eqb c "_").

(** A character of a tag: no blank, quote, colon or star. *)
Definition tag_chr (c : ascii) : bool :=
  negb (chr_eqb c " ") && negb (chr_eqb c dquote) && negb (chr_eqb c ":")
  && negb (chr_eqb c "*").

(** A word the compiler reads as a tag: not empty, made of such characters,
    no leading [~] or [-]. *)
Definition tag_word (w : str) : Prop :=
  w <> [] /\ Forall (fun c => tag_chr c = true) w /\
  startswith (py "~") w = false /\ startswith (py "-") w = false.

(** A word the tokenizer leaves whole: not empty, no blank, no quote. *)
Definition bare_word (w : str) : Prop :=
  w <> [] /\ Forall (fun c => is_quote c = false /\ is_blank c = false) w.

(** [" ".join(words)] *)
Definition join_blank (words : list str) : str := join_chr " " words.

(** A tag, or a tag to exclude: the term of the query, the condition the
    term compiles to, and the test the condition makes on a row. *)
Definition tag_term (t : bool * str) : str :=
  let '(neg, w) := t in sign neg ++ w.

Definition tag_bound (t : bool * str) : bound :=
  let '(neg, w) := t in if neg then BTagNotLike (percent w) else BTagLike (percent w).

Definition tag_test (r : row) (t : bool * str) : bool :=
  let '(neg, w) := t in
  match tag_string r with
  | Some s => xorb neg (like (percent w) s)
  | None => false
  end.

(** The row identifiers are 1, 2, 3, ... in the order of insertion, and the
    counter is one ahead. *)
Definition dense_ids (d : db) : Prop :=
  next_id d = Z.of_nat (length (posts d)) + 1 /\
  forall i r, posts d !! i = Some r -> row_id r = Z.of_nat i + 1.

(** The records a text decodes to: one for every line, the last one with or
    without its newline, that is not blank and that [json_loads] accepts. *)
Definition decode_line (json_loads : str -> option json) (line : str)
  : list json :=
  if truthy (strip line) then
    match json_loads line with Some data => [data] | None => [] end
  else [].

Definition records_of (json_loads : str -> option json) (text : str)
  : list json :=
  concat (map (decode_line json_loads) (split_chr newline text)).

(** The order of [sorted]. *)
Definition str_le (a b : str) : Prop := Is_true (str_leb a b).

(** The count and the database a stream would have after the flush of the
    records it holds back in [batch], or the exception of that flush. *)
Definition pending (st : stream_state) : result Z * db :=
  insert_loop (batch st) (posts_added st) (s_db st).

(** The same count, or the same exception, and the same tables. *)
Definition eqv (x y : result Z * db) : Prop :=
  fst x = fst y /\ same_tables (snd x) (snd y).

(** The loop of [insert_batch] taken up again with more records, where it
    has not raised. *)
Definition resume (l : list json) (x : result Z * db) : result Z * db :=
  match x with
  | (Ok n, d) => insert_loop l n d
  | (Raise e, d) => (Raise e, d)
  end.

(** A stream that goes on has the count and the tables of [x] once its
    batch is flushed; a stream that an exception has ended has the tables
    of [x], which raises. *)
Definition tracks (f : flow) (x : result Z * db) : Prop :=
  match f with
  | Go st => eqv (pending st) x
  | Halt st => (exists e, fst x = Raise e) /\ same_tables (s_db st) (snd x)
  end.

(** The files a run may process: the first [file_limit] names, if there is a
    limit, of the sorted [.jsonl] names of the listing. *)
Definition candidates (w : world) (ds : downloader) : list str :=
  let files := fst (get_jsonl_files w ds) in
  match file_limit ds with
  | Some (S n) => take (S n) files
  | _ => files
  end.

(** What a flush adds to the counter of a stream: the number [insert_batch]
    returns, nothing when it raises. *)
Definition added_by (o : result Z) : Z :=
  match o with
  | Ok n => n
  | Raise _ => 0
  end.

(** A decoded line the store can take: an object whose integers fit in 64
    signed bits. *)
Definition storable (data : json) : Prop :=
  exists x, data = JObject x /\ bindable x = true.

(** One file of two lines; the [id] of the second does not fit in 64 signed
    bits. *)
Definition overflowing_file : world :=
  {| listing := Some [py "a.jsonl"];
     remote := fun _ =>
       Stream {| chunks := [py "1" ++ [newline] ++ py "9223372036854775808" ++ [newline]];
                 broken := false |};
     cancel_after := None |}.

(** A decoder for the samples that knows [null]: the line [null] is the JSON
    value of that name, and any other line is read as [line_loads] reads it. *)
Definition null_loads (line : str) : option json :=
  if str_eqb line (py "null") then Some JOther else line_loads line.

(** One file of three lines, the second of which is [null]. *)
Definition null_file : world :=
  {| listing := Some [py "a.jsonl"];
     remote := fun _ =>
       Stream {| chunks := [py "1" ++ [newline] ++ py "null" ++ [newline]
                            ++ py "2" ++ [newline]];
                 broken := false |};
     cancel_after := None |}.

(** The counter of a stream with its database, and that of a run. *)
Definition counted (st : stream_state) : Z * db := (posts_added st, s_db st).

Definition tallied (ds : downloader) : Z * db := (total_posts_added ds, db_ ds).

(** The loop over the chunks only polls the flag, as far as the downloader
    is concerned. *)
Definition polled (ds ds' : downloader) : Prop :=
  db_ ds' = db_ ds /\ file_limit ds' = file_limit ds /\ (polls ds <= polls ds')%nat /\
  total_files ds' = total_files ds /\ processed_files_ ds' = processed_files_ ds /\
  total_posts_added ds' = total_posts_added ds /\
  is_downloading ds' = is_downloading ds /\ log ds' = log ds.

(** A character that neither separates words nor lines. *)
Definition inked (c : ascii) : bool := negb (chr_eqb c " ") && negb (chr_eqb c newline).

(** The characters of a text that are neither blank nor newline. *)
Definition ink (s : str) : str := List.filter inked s.

(** A line that fits the width, or that is one word. *)
Definition fits (width : Z) (line : str) : Prop :=
  len line <= width \/ contains_chr " " line = false.

End MoreNotions.
Import MoreNotions.

(** ** Properties *)

Section TokenizerFacts.

Lemma chr_eqb_eq (a b : ascii) : chr_eqb a b = true <-> a = b.
Proof. apply Ascii.eqb_eq. Qed.

Lemma chr_eqb_neq (a b : ascii) : chr_eqb a b = false <-> a <> b.
Proof. apply Ascii.eqb_neq. Qed.

Lemma truthy_true (s : str) : truthy s = true <-> s <> [].
Proof. destruct s; simpl; split; congruence. Qed.

Lemma fields_nonempty sep inq q : fields sep inq q <> [].
Proof.
  revert inq. induction q as [|c q IH]; intros inq; simpl; [congruence|].
  destruct (is_quote c).
  - specialize (IH (negb inq)). destruct (fields sep (negb inq) q); simpl; congruence.
  - destruct (sep c && negb inq); [congruence|].
    specialize (IH inq). destruct (fields sep inq q); simpl; congruence.
Qed.

Lemma scan_fields q st :
  scan_finish (scan q st) =
  terms st ++ List.filter truthy
                (glue (current_term st) (map unquote (fields is_blank (in_quotes st) q))).
Proof.
  revert st. induction q as [|c q IH]; intros [ts cur inq]; simpl.
  - unfold scan_finish; simpl. rewrite app_nil_r.
    destruct cur; simpl; [by rewrite app_nil_r|done].
  - unfold scan in IH. rewrite IH. unfold scan_char; simpl.
    change (is_blank c) with (chr_eqb c " ").
    change (is_quote c) with (chr_eqb c dquote).
    destruct (chr_eqb c dquote) eqn:Hq; simpl.
    + pose proof (fields_nonempty is_blank (negb inq) q) as Hne.
      destruct (fields is_blank (negb inq) q) as [|f fs]; [congruence|]. simpl.
      change (is_quote c) with (chr_eqb c dquote). by rewrite Hq.
    + pose proof (fields_nonempty is_blank inq q) as Hne.
      destruct (chr_eqb c " " && negb inq) eqn:Hs; simpl.
      * destruct cur as [|x cur]; simpl;
          destruct (fields is_blank inq q) as [|f fs]; try congruence; simpl; [done|].
        rewrite app_nil_r. by rewrite <- app_assoc.
      * destruct (fields is_blank inq q) as [|f fs]; try congruence; simpl.
        change (is_quote c) with (chr_eqb c dquote). rewrite Hq. simpl.
        by rewrite <- app_assoc.
Qed.

Lemma parse_tokens_of q : _parse_search_query q = tokens_of is_blank q.
Proof.
  unfold _parse_search_query, tokens_of. rewrite scan_fields. simpl.
  pose proof (fields_nonempty is_blank false q) as Hne.
  destruct (fields is_blank false q); [congruence|done].
Qed.

Lemma scan_char_plain st c :
  is_quote c = false -> is_blank c && negb (in_quotes st) = false ->
  scan_char st c = {| terms := terms st; current_term := current_term st ++ [c];
                      in_quotes := in_quotes st |}.
Proof.
  unfold scan_char, is_quote, is_blank. by intros -> ->.
Qed.

(** Inside quotes the scan only appends. *)
Lemma scan_quoted r st :
  in_quotes st = true -> Forall (fun c => is_quote c = false) r ->
  scan r st = {| terms := terms st; current_term := current_term st ++ r; in_quotes := true |}.
Proof.
  revert st. induction r as [|c r IH]; intros [ts cur inq] Hin Hr; simpl in *; subst.
  - by rewrite app_nil_r.
  - inversion Hr as [|? ? Hc Hr']; subst. unfold scan in IH.
    rewrite scan_char_plain; simpl; [|done|by rewrite andb_false_r].
    rewrite IH; simpl; [|done|done].
    by rewrite <- app_assoc.
Qed.

Lemma scan_app p r st : scan (p ++ r) st = scan r (scan p st).
Proof. apply fold_left_app. Qed.

(** Outside quotes a run without quotes and blanks only appends, too. *)
Lemma scan_word r st :
  Forall (fun c => is_quote c = false /\ is_blank c = false) r ->
  scan r st = {| terms := terms st; current_term := current_term st ++ r;
                 in_quotes := in_quotes st |}.
Proof.
  revert st. induction r as [|c r IH]; intros [ts cur inq] Hr; simpl in *.
  - by rewrite app_nil_r.
  - inversion Hr as [|? ? [Hc Hb] Hr']; subst. unfold scan in IH.
    rewrite scan_char_plain; simpl; [|done|by rewrite Hb].
    rewrite IH; simpl; [|done].
    by rewrite <- app_assoc.
Qed.

Lemma scan_in_quotes q st :
  in_quotes (scan q st) = xorb (in_quotes st) (Nat.odd (length (List.filter is_quote q))).
Proof.
  revert st. induction q as [|c q IH]; intros st; simpl.
  - by rewrite xorb_false_r.
  - unfold scan in IH. rewrite IH. unfold scan_char.
    change (chr_eqb c dquote) with (is_quote c).
    destruct (is_quote c) eqn:Hq; simpl.
    + rewrite Nat.odd_succ, <- Nat.negb_odd. by destruct (in_quotes st), (Nat.odd _).
    + destruct (chr_eqb c " " && negb (in_quotes st)); [|done].
      by destruct (truthy (current_term st)).
Qed.

Lemma unquote_no_quote f : ~ In dquote (unquote f).
Proof.
  unfold unquote. rewrite filter_In. intros [_ H]. by vm_compute in H.
Qed.

Lemma push_Forall (P : str -> Prop) c fs :
  (forall f, P f -> P (c :: f)) -> P [c] -> Forall P fs -> Forall P (push c fs).
Proof.
  intros Hc H1 HF. destruct HF; simpl; constructor; auto.
Qed.

Lemma fields_no_sep sep q :
  ~ In dquote q ->
  Forall (fun f => Forall (fun c => sep c = false) f) (fields sep false q).
Proof.
  induction q as [|c q IH]; intros Hq; simpl.
  - repeat constructor.
  - destruct (is_quote c) eqn:Hc.
    + exfalso. apply Hq. left. symmetry. by apply chr_eqb_eq.
    + assert (Hq' : ~ In dquote q) by (intros ?; apply Hq; by right).
      specialize (IH Hq'). rewrite andb_true_r.
      destruct (sep c) eqn:Hs.
      * constructor; [constructor|done].
      * apply push_Forall; [ | |done].
        -- intros f Hf. by constructor.
        -- by repeat constructor.
Qed.

Lemma unquote_id body : ~ In dquote body -> Forall (fun c => is_quote c = false) body.
Proof.
  intros H. apply Forall_forall. intros c Hc.
  destruct (is_quote c) eqn:E; [|done].
  exfalso. apply H. apply chr_eqb_eq in E. subst. by apply list_elem_of_In.
Qed.

End TokenizerFacts.

(** C7 (as amended): the tokens are the fields of the query between the
    blanks (the space character) that stand outside double quotes, with the
    quote characters stripped and empty fields dropped; the quoting state
    after a prefix is the parity of its quote characters.  No token is empty
    or holds a quote, a query without quotes gives tokens without blanks, a
    quoted text is one token with its blanks, and the quoted input
    [fox wolf] between two quotes gives the single token [fox wolf]. *)
Theorem parse_search_query_tokens :
  (forall q, _parse_search_query q = tokens_of is_blank q) /\
  (forall q, in_quotes (scan q scan_start) = Nat.odd (length (List.filter is_quote q))) /\
  (forall q t, In t (_parse_search_query q) -> t <> [] /\ ~ In dquote t) /\
  (forall q t, ~ In dquote q -> In t (_parse_search_query q) -> ~ In " " t) /\
  (forall body, ~ In dquote body -> body <> [] ->
     _parse_search_query (dquote :: body ++ [dquote]) = [body]) /\
  _parse_search_query ([dquote] ++ py "fox wolf" ++ [dquote]) = [py "fox wolf"].
Proof.
  split; [exact parse_tokens_of|].
  split; [intros q; by rewrite scan_in_quotes|].
  split.
  { intros q t. rewrite parse_tokens_of. unfold tokens_of.
    rewrite filter_In, in_map_iff. intros [(f & <- & _) Ht]. split.
    - by apply truthy_true.
    - apply unquote_no_quote. }
  split.
  { intros q t Hq. rewrite parse_tokens_of. unfold tokens_of.
    rewrite filter_In, in_map_iff. intros [(f & <- & Hf) _] Hin.
    pose proof (fields_no_sep is_blank q Hq) as HF.
    rewrite Forall_forall in HF. apply list_elem_of_In in Hf.
    specialize (HF f Hf). rewrite Forall_forall in HF.
    unfold unquote in Hin. apply filter_In in Hin as [Hin _].
    apply list_elem_of_In in Hin. specialize (HF _ Hin). by vm_compute in HF. }
  split; [|by vm_compute].
  intros body Hb Hne. unfold _parse_search_query.
  change (dquote :: body ++ [dquote]) with ([dquote] ++ body ++ [dquote]).
  rewrite !scan_app. simpl.
  rewrite scan_quoted; simpl; [|done|by apply unquote_id].
  unfold scan_finish, scan_char; simpl.
  by destruct body.
Qed.

(** A witness of C7: the query [a], blank, quote, [b c], quote, and the
    quoted text [b c] alone. *)
Lemma parse_search_query_tokens_witness :
  (In (py "b c") (_parse_search_query (py "a " ++ [dquote] ++ py "b c" ++ [dquote])) /\
   (py "b c" <> [] /\ ~ In dquote (py "b c"))) /\
  _parse_search_query (dquote :: py "b c" ++ [dquote]) = [py "b c"].
Proof.
  assert (H : In (py "b c")
                (_parse_search_query (py "a " ++ [dquote] ++ py "b c" ++ [dquote])))
    by (vm_compute; tauto).
  split; [split; [exact H|]|].
  - exact (proj1 (proj2 (proj2 parse_search_query_tokens)) _ _ H).
  - apply (proj1 (proj2 (proj2 (proj2 (proj2 parse_search_query_tokens))))).
    + vm_compute. intuition discriminate.
    + discriminate.
Defined.

(** C7, as the specification words it, fails: a tab is whitespace, yet it
    does not separate tokens. *)
Lemma parse_search_query_tab_counterexample :
  let q := py "fox" ++ ["009"] ++ py "wolf" in
  is_space "009" = true /\ ~ In dquote q /\
  _parse_search_query q = [q] /\
  tokens_of is_space q = [py "fox"; py "wolf"].
Proof.
  simpl. split; [done|]. split; [|split; by vm_compute].
  vm_compute. intros H. repeat (destruct H as [H|H]; [discriminate H|]). done.
Qed.



Section LikeFacts.

Lemma like_percent_nil pat : like ("%" :: pat) [] = like pat [].
Proof. simpl. by rewrite orb_false_r. Qed.

Lemma like_percent_cons pat c s :
  like ("%" :: pat) (c :: s) = like pat (c :: s) || like ("%" :: pat) s.
Proof. reflexivity. Qed.

Lemma like_percent pat s :
  like ("%" :: pat) s = true <-> exists pre post, s = pre ++ post /\ like pat post = true.
Proof.
  induction s as [|c s IH].
  - rewrite like_percent_nil. split.
    + intros H. by exists [], [].
    + intros (pre & post & E & H). symmetry in E.
      apply app_eq_nil in E as [-> ->]. done.
  - rewrite like_percent_cons, orb_true_iff, IH. split.
    + intros [H|(pre & post & -> & H)].
      * by exists [], (c :: s).
      * by exists (c :: pre), post.
    + intros (pre & post & E & H). destruct pre as [|x pre]; simpl in E.
      * left. by subst.
      * right. inversion E; subst. by exists pre, post.
Qed.

Lemma like_percent_only s : like ["%"] s = true.
Proof.
  apply like_percent. exists s, []. by rewrite app_nil_r.
Qed.

Lemma like_plain_cons x pat s :
  chr_eqb x "%" = false -> chr_eqb x "_" = false ->
  like (x :: pat) s =
  match s with
  | [] => false
  | c :: s' => chr_eqb (lower_chr x) (lower_chr c) && like pat s'
  end.
Proof. intros H1 H2. simpl. rewrite H1, H2. by destruct s. Qed.

Lemma like_plain needle rest s :
  plain needle ->
  like (needle ++ rest) s = true <->
  exists mid post, s = mid ++ post /\ lower mid = lower needle /\ like rest post = true.
Proof.
  intros Hp. revert s. induction Hp as [|x needle [H1 H2] Hp IH]; intros s.
  - simpl. split.
    + intros H. by exists [], s.
    + intros (mid & post & -> & E & H). by destruct mid.
  - change ((x :: needle) ++ rest) with (x :: needle ++ rest).
    rewrite like_plain_cons by done. destruct s as [|c s].
    + split; [done|]. intros (mid & post & E & El & _).
      destruct mid; [done|]. done.
    + rewrite andb_true_iff, chr_eqb_eq, IH. split.
      * intros (Hc & mid & post & -> & El & H).
        exists (c :: mid), post. simpl. by rewrite El, Hc.
      * intros (mid & post & E & El & H). destruct mid as [|y mid]; [done|].
        simpl in E, El. inversion E; subst. inversion El.
        split; [done|]. by exists mid, post.
Qed.

(** For a text without wildcard characters, [tag_string LIKE '%text%'] is
    containment up to the case of ASCII letters. *)
Lemma like_contains needle t :
  plain needle -> like (percent needle) t = true <-> contains_ci needle t.
Proof.
  intros Hp. unfold percent, contains_ci.
  change (py "%" ++ needle ++ py "%") with ("%" :: needle ++ ["%"]).
  rewrite like_percent. split.
  - intros (pre & post & -> & H). apply like_plain in H as (mid & post' & -> & E & _); [|done].
    by exists pre, mid, post'.
  - intros (pre & mid & post & -> & E). exists pre, (mid ++ post). split; [done|].
    apply like_plain; [done|]. exists mid, post. split; [done|]. split; [done|].
    apply like_percent_only.
Qed.

Lemma prefix_ci_spec needle hay :
  prefix_ci needle hay = true <->
  exists mid post, hay = mid ++ post /\ lower mid = lower needle.
Proof.
  revert hay. induction needle as [|x needle IH]; intros hay; simpl.
  - split; [by exists [], hay|done].
  - destruct hay as [|y hay].
    + split; [done|]. by intros ([|??] & post & E & El).
    + rewrite andb_true_iff, chr_eqb_eq, IH. split.
      * intros (Hc & mid & post & -> & El). exists (y :: mid), post. simpl.
        by rewrite El, Hc.
      * intros ([|z mid] & post & E & El); [done|]. simpl in E, El.
        inversion E; subst. inversion El. split; [done|]. by exists mid, post.
Qed.

Lemma infix_ci_spec needle hay : infix_ci needle hay = true <-> contains_ci needle hay.
Proof.
  unfold contains_ci. induction hay as [|y hay IH]; simpl.
  - rewrite orb_false_r, prefix_ci_spec. split.
    + intros (mid & post & E & El). by exists [], mid, post.
    + intros (pre & mid & post & E & El). symmetry in E.
      apply app_eq_nil in E as [-> E]. by exists mid, post.
  - rewrite orb_true_iff, prefix_ci_spec, IH. split.
    + intros [(mid & post & E & El)|(pre & mid & post & E & El)].
      * by exists [], mid, post.
      * exists (y :: pre), mid, post. by rewrite E.
    + intros ([|z pre] & mid & post & E & El).
      * left. by exists mid, post.
      * right. simpl in E. inversion E; subst. by exists pre, mid, post.
Qed.

Lemma like_infix needle t : plain needle -> like (percent needle) t = infix_ci needle t.
Proof.
  intros Hp. apply eq_true_iff_eq. by rewrite like_contains, infix_ci_spec.
Qed.

End LikeFacts.

Section BindFacts.

Lemma texts_all ps l : texts ps = Some l -> ps = map PText l.
Proof.
  revert l. induction ps as [|[s|n] ps IH]; intros l; simpl; [by intros [= <-]| |done].
  destruct (texts ps) as [l'|]; simpl; [|done]. intros [= <-]. simpl.
  by rewrite (IH l').
Qed.

Lemma texts_map l : texts (map PText l) = Some l.
Proof. induction l as [|s l IH]; simpl; [done|]. by rewrite IH. Qed.

(** Binding a clause takes a prefix of the parameters and never looks at
    the rest. *)
Lemma bind_clause_split c ps b rest :
  bind_clause c ps = Some (b, rest) ->
  exists used, ps = used ++ rest /\ length used = placeholders c /\
    forall rest', bind_clause c (used ++ rest') = Some (b, rest').
Proof.
  destruct c; simpl;
    try (destruct ps as [|[s|z] ps]; intros [= <- <-]; by exists [PText s]);
    try (destruct ps as [|[s|z] ps]; intros [= <- <-]; by exists [PInt z]).
  destruct (n <=? length ps)%nat eqn:Hn; [|done].
  apply Nat.leb_le in Hn.
  destruct (texts (take n ps)) as [l|] eqn:Ht; simpl; [|done].
  intros [= <- <-]. exists (take n ps). split; [by rewrite take_drop|].
  split; [rewrite length_take; lia|].
  intros rest'.
  assert (Hl : length (take n ps) = n) by (rewrite length_take; lia).
  assert (Hle : (n <=? length (take n ps ++ rest'))%nat = true).
  { apply Nat.leb_le. rewrite length_app. lia. }
  rewrite Hle. rewrite take_app_length' by done. rewrite Ht. simpl.
  by rewrite drop_app_length' by done.
Qed.

Lemma bind_all_split sql ps bs rest :
  bind_all sql ps = Some (bs, rest) ->
  exists used, ps = used ++ rest /\
    forall rest', bind_all sql (used ++ rest') = Some (bs, rest').
Proof.
  revert ps bs. induction sql as [|c sql IH]; intros ps bs; simpl.
  - intros [= <- <-]. by exists [].
  - destruct (bind_clause c ps) as [[b ps']|] eqn:Hc; simpl; [|done].
    destruct (bind_all sql ps') as [[bs' rest0]|] eqn:Ha; simpl; [|done].
    intros [= <- <-].
    apply bind_clause_split in Hc as (u1 & -> & _ & Hu1).
    apply IH in Ha as (u2 & -> & Hu2).
    exists (u1 ++ u2). split; [by rewrite app_assoc|].
    intros rest'. rewrite <- app_assoc, Hu1. simpl. by rewrite Hu2.
Qed.

Lemma bind_all_app s1 s2 p1 p2 bs1 :
  bind_all s1 p1 = Some (bs1, []) ->
  bind_all (s1 ++ s2) (p1 ++ p2) =
  (fun '(bs2, rest) => (bs1 ++ bs2, rest)) <$> bind_all s2 p2.
Proof.
  revert p1 bs1. induction s1 as [|c s1 IH]; intros p1 bs1; simpl.
  - intros [= <- ->]. simpl. destruct (bind_all s2 p2) as [[??]|]; done.
  - destruct (bind_clause c p1) as [[b ps']|] eqn:Hc; simpl; [|done].
    destruct (bind_all s1 ps') as [[bs' rest0]|] eqn:Ha; simpl; [|done].
    intros [= <- E]. subst rest0.
    apply bind_clause_split in Hc as (u1 & -> & _ & Hu1).
    rewrite <- app_assoc, Hu1. simpl. rewrite (IH _ _ Ha).
    destruct (bind_all s2 p2) as [[??]|]; done.
Qed.

(** The statement and the parameters before [LIMIT ?] do not depend on the
    limit. *)
Lemma compile_limit q limit s p' :
  compile q limit = Ok (s, p') ->
  exists p, p' = p ++ [PInt limit] /\ forall l, compile q l = Ok (s, p ++ [PInt l]).
Proof.
  unfold compile. destruct q as [q|].
  - destruct (truthy q).
    + destruct (search_terms build_start (_parse_search_query q)) as [b|e]; [|done].
      destruct (handle_or_tags b) as [s0 p0]. intros [= <- <-]. by exists p0.
    + intros [= <- <-]. by exists [].
  - intros [= <- <-]. by exists [].
Qed.

(** What a search that returns has computed: the rows that satisfy the bound
    conditions, in descending order of [post_id], cut at the limit; the
    conditions are the same for every limit, their integers fit, and so
    does the limit. *)
Lemma search_posts_ok d q limit rows :
  search_posts d q limit = Ok rows ->
  exists s p bs,
    (forall l, compile q l = Ok (s, p ++ [PInt l])) /\
    bind_all s p = Some (bs, []) /\
    forallb bound_int64 bs = true /\ int64 limit = true /\
    forall l, search_posts d q l =
      if int64 l then
        Ok (map selected (limit_rows l
              (order_by_post_id_desc (filter (fun r => where_ bs r) (posts d)))))
      else Raise OverflowError.
Proof.
  unfold search_posts. destruct (compile q limit) as [[s p']|e] eqn:Hc; [|done].
  apply compile_limit in Hc as (p & -> & Hc). unfold execute_select.
  destruct (bind_all s (p ++ [PInt limit])) as [[bs rest]|] eqn:Hb; [|done].
  destruct rest as [|[t|l0] [|??]]; try done.
  destruct (forallb bound_int64 bs) eqn:Hf; [|done].
  destruct (int64 l0) eqn:Hl; [|done]. intros _.
  apply bind_all_split in Hb as (used & E & Hu).
  apply app_inj_tail in E as [-> [= <-]].
  exists s, used, bs. split; [done|]. split.
  - specialize (Hu []). by rewrite app_nil_r in Hu.
  - split; [done|]. split; [done|]. intros l. by rewrite Hc, Hu, Hf.
Qed.

End BindFacts.

Section SearchFacts.

#[local] Instance post_id_desc_trans : Transitive post_id_desc.
Proof. unfold post_id_desc. intros a b c. lia. Qed.

#[local] Instance post_id_desc_total : Total post_id_desc.
Proof. unfold post_id_desc. intros a b. lia. Qed.

Lemma order_by_sorted rows : StronglySorted post_id_desc (order_by_post_id_desc rows).
Proof. apply StronglySorted_merge_sort; apply _. Qed.

Lemma order_by_In rows r : In r (order_by_post_id_desc rows) <-> In r rows.
Proof.
  rewrite <- !list_elem_of_In. unfold order_by_post_id_desc.
  by rewrite merge_sort_Permutation.
Qed.

Lemma limit_rows_sorted limit rows :
  StronglySorted post_id_desc rows -> StronglySorted post_id_desc (limit_rows limit rows).
Proof.
  unfold limit_rows. destruct (Z.ltb limit 0); [done|]. intros H.
  rewrite <- (take_drop (Z.to_nat limit) rows) in H.
  by apply StronglySorted_app_1_l in H.
Qed.

Lemma limit_rows_In limit rows r : In r (limit_rows limit rows) -> In r rows.
Proof.
  unfold limit_rows. destruct (Z.ltb limit 0); [done|]. intros H.
  rewrite <- (take_drop (Z.to_nat limit) rows). apply in_or_app. by left.
Qed.

End SearchFacts.

(** C9 (as amended): the default limit is 50000; the absent and the empty
    query never raise for a limit of 64 signed bits, and raise
    [OverflowError] for any other; and whenever a search returns, its rows
    are in descending order of [post_id], every row is the triple
    (identifier, [post_id], tag string) of a stored post, and the rows are
    the matching rows: the stored rows on which the conditions the query
    compiles to hold, each once, all of them when the limit is negative and
    the first [limit] of them in that order when it is not. *)
Theorem search_posts_order_and_limit :
  default_limit = 50000 /\
  (forall d limit,
     if int64 limit then exists rows, search_posts d None limit = Ok rows
     else search_posts d None limit = Raise OverflowError) /\
  (forall d limit,
     if int64 limit then exists rows, search_posts d (Some []) limit = Ok rows
     else search_posts d (Some []) limit = Raise OverflowError) /\
  (forall d q limit rows, search_posts d q limit = Ok rows ->
     StronglySorted (fun a b => snd (fst b) <= snd (fst a)) rows /\
     (forall x, In x rows ->
        exists r, In r (posts d) /\ x = (row_id r, post_id r, tag_string r)) /\
     exists s p bs full,
       (forall l, compile q l = Ok (s, p ++ [PInt l])) /\
       bind_all s p = Some (bs, []) /\
       Permutation full (map selected (filter (fun r => where_ bs r) (posts d))) /\
       StronglySorted (fun a b => snd (fst b) <= snd (fst a)) full /\
       search_posts d q (-1) = Ok full /\
       (0 <= limit ->
          rows = take (Z.to_nat limit) full /\ Z.of_nat (length rows) <= limit) /\
       (limit < 0 -> rows = full)).
Proof.
  split; [done|].
  split; [intros d limit; unfold search_posts, compile, execute_select; simpl;
          destruct (int64 limit); [by eexists|done]|].
  split; [intros d limit; unfold search_posts, compile, execute_select; simpl;
          destruct (int64 limit); [by eexists|done]|].
  intros d q limit rows H.
  destruct (search_posts_ok _ _ _ _ H) as (s & p & bs & Hc & Hb & _ & Hl & Hall).
  rewrite Hall, Hl in H. injection H as <-.
  set (M := order_by_post_id_desc (filter (fun r => where_ bs r) (posts d))).
  assert (HS : forall l, StronglySorted (fun a b => snd (fst b) <= snd (fst a))
                           (map selected (limit_rows l M))).
  { intros l. change (map selected (limit_rows l M)) with (selected <$> limit_rows l M).
    apply (StronglySorted_fmap selected post_id_desc); [done|].
    apply limit_rows_sorted, order_by_sorted. }
  split; [apply HS|]. split.
  - intros x Hx. apply in_map_iff in Hx as (r & <- & Hr). exists r. split; [|done].
    apply limit_rows_In in Hr. unfold M in Hr. apply (proj1 (order_by_In _ _)) in Hr.
    apply list_elem_of_In, list_elem_of_filter in Hr as [_ Hr].
    by apply list_elem_of_In.
  - exists s, p, bs, (map selected M). split; [done|]. split; [done|]. split.
    { apply Permutation_map. unfold M, order_by_post_id_desc.
      apply merge_sort_Permutation. }
    split; [exact (HS (-1))|]. split; [by rewrite Hall|]. unfold limit_rows. split.
    + intros Hle. destruct (Z.ltb_spec limit 0) as [?|_]; [lia|].
      rewrite firstn_map. split; [done|].
      rewrite length_map, length_take. lia.
    + intros Hlt. by destruct (Z.ltb_spec limit 0) as [_|?]; [|lia].
Qed.

(** A witness of C9: the two posts, most recent first, and the first of
    them at the limit 1. *)
Lemma search_posts_order_and_limit_witness :
  search_posts two_posts None default_limit = Ok [(2, 2, None); (1, 1, None)] /\
  search_posts two_posts None 1 = Ok [(2, 2, None)] /\
  StronglySorted (fun a b => snd (fst b) <= snd (fst a)) [(2, 2, None : option str)] /\
  [(2, 2, None : option str)] = take (Z.to_nat 1) [(2, 2, None); (1, 1, None)].
Proof.
  assert (H : search_posts two_posts None 1 = Ok [(2, 2, None)]) by by vm_compute.
  destruct (proj2 (proj2 (proj2 search_posts_order_and_limit)) _ _ _ _ H)
    as (Hs & _ & _).
  split; [by vm_compute|]. split; [exact H|]. split; [exact Hs|done].
Defined.

(** C9, as the specification words it, fails for a negative limit: SQLite
    reads [LIMIT -1] as no limit, so both rows come back.  It fails, too, for
    a limit that cannot be bound, and for the queries of C2: the search then
    returns nothing at all. *)
Lemma search_posts_negative_limit_counterexample :
  (exists rows, search_posts two_posts None (-1) = Ok rows /\
     length rows = 2%nat /\ ~ (Z.of_nat (length rows) <= -1)) /\
  search_posts two_posts None (2 ^ 63) = Raise OverflowError /\
  search_posts two_posts (Some (py "score:>>5")) default_limit = Raise ValueError.
Proof.
  split; [|split; by vm_compute]. eexists. split; [by vm_compute|].
  split; [done|]. simpl. lia.
Qed.

Section NumericFacts.

Lemma add_numeric_prefixed s p col rest :
  py_int rest = None ->
  _add_numeric_condition s p col (VStr (py ">=" ++ rest)) = Raise ValueError /\
  _add_numeric_condition s p col (VStr (py "<=" ++ rest)) = Raise ValueError /\
  (startswith (py "=") rest = false ->
   _add_numeric_condition s p col (VStr (py ">" ++ rest)) = Raise ValueError /\
   _add_numeric_condition s p col (VStr (py "<" ++ rest)) = Raise ValueError).
Proof.
  intros H. unfold _add_numeric_condition, append_int.
  split; [|split; [|intros Hr; split]].
  - replace (startswith (py ">=") (py ">=" ++ rest)) with true by reflexivity.
    replace (slice_from 2 (py ">=" ++ rest)) with rest by reflexivity.
    by rewrite H.
  - replace (startswith (py ">=") (py "<=" ++ rest)) with false by reflexivity.
    replace (startswith (py "<=") (py "<=" ++ rest)) with true by reflexivity.
    replace (slice_from 2 (py "<=" ++ rest)) with rest by reflexivity.
    by rewrite H.
  - replace (startswith (py ">=") (py ">" ++ rest))
      with (startswith (py "=") rest) by reflexivity.
    rewrite Hr.
    replace (startswith (py "<=") (py ">" ++ rest)) with false by reflexivity.
    replace (startswith (py ">") (py ">" ++ rest)) with true by reflexivity.
    replace (slice_from 1 (py ">" ++ rest)) with rest by reflexivity.
    by rewrite H.
  - replace (startswith (py ">=") (py "<" ++ rest)) with false by reflexivity.
    replace (startswith (py "<=") (py "<" ++ rest))
      with (startswith (py "=") rest) by reflexivity.
    rewrite Hr.
    replace (startswith (py ">") (py "<" ++ rest)) with false by reflexivity.
    replace (startswith (py "<") (py "<" ++ rest)) with true by reflexivity.
    replace (slice_from 1 (py "<" ++ rest)) with rest by reflexivity.
    by rewrite H.
Qed.

Lemma add_numeric_bare s p col value :
  startswith (py ">") value = false -> startswith (py "<") value = false ->
  py_int value = None ->
  _add_numeric_condition s p col (VStr value) = Ok (s ++ [NumCmp col op_eq], p).
Proof.
  intros Hg Hl H. unfold _add_numeric_condition.
  assert (Hge : startswith (py ">=") value = false).
  { destruct value as [|c v]; [done|].
    change (startswith (py ">") (c :: v)) with (chr_eqb ">" c && true) in Hg.
    change (startswith (py ">=") (c :: v)) with (chr_eqb ">" c && startswith (py "=") v).
    rewrite andb_true_r in Hg. by rewrite Hg. }
  assert (Hle : startswith (py "<=") value = false).
  { destruct value as [|c v]; [done|].
    change (startswith (py "<") (c :: v)) with (chr_eqb "<" c && true) in Hl.
    change (startswith (py "<=") (c :: v)) with (chr_eqb "<" c && startswith (py "=") v).
    rewrite andb_true_r in Hl. by rewrite Hl. }
  by rewrite Hge, Hle, Hg, Hl, H.
Qed.

End NumericFacts.

(** C2 (what the code does): a numeric value that does not parse is not
    dropped.  With an operator prefix the [ValueError] of [int] leaves
    [_add_numeric_condition]; without one the clause is added with no
    parameter for its placeholder.  So the search for [score:>>5] raises
    [ValueError] and the search for [score:abc] raises
    [sqlite3.ProgrammingError]. *)
Theorem malformed_numeric_raises :
  (forall s p col rest, py_int rest = None ->
     _add_numeric_condition s p col (VStr (py ">=" ++ rest)) = Raise ValueError /\
     _add_numeric_condition s p col (VStr (py "<=" ++ rest)) = Raise ValueError /\
     (startswith (py "=") rest = false ->
      _add_numeric_condition s p col (VStr (py ">" ++ rest)) = Raise ValueError /\
      _add_numeric_condition s p col (VStr (py "<" ++ rest)) = Raise ValueError)) /\
  (forall s p col value,
     startswith (py ">") value = false -> startswith (py "<") value = false ->
     py_int value = None ->
     _add_numeric_condition s p col (VStr value) = Ok (s ++ [NumCmp col op_eq], p)) /\
  (forall d limit, search_posts d (Some (py "score:>>5")) limit = Raise ValueError) /\
  (forall d limit, search_posts d (Some (py "score:abc")) limit = Raise ProgrammingError).
Proof.
  split; [exact add_numeric_prefixed|]. split; [exact add_numeric_bare|].
  split; intros d limit; reflexivity.
Qed.

(** A witness of C2: the value [>>5] of the query [score:>>5]. *)
Lemma malformed_numeric_raises_witness :
  _add_numeric_condition [] [] col_score (VStr (py ">" ++ py ">5")) = Raise ValueError /\
  _add_numeric_condition [] [] col_score (VStr (py "abc")) = Ok ([NumCmp col_score op_eq], []).
Proof.
  split.
  - exact (proj1 (proj2 (proj2 (proj1 malformed_numeric_raises [] [] col_score (py ">5")
             eq_refl)) eq_refl)).
  - exact (proj1 (proj2 malformed_numeric_raises) [] [] col_score (py "abc")
             eq_refl eq_refl eq_refl).
Defined.

Section SuffixFacts.

Lemma digits_acc_letter x seen acc t :
  unit_letter x -> digits_acc seen acc (t ++ [x]) = None.
Proof.
  intros Hx. revert seen acc. induction t as [|c t IH]; intros seen acc; simpl.
  - by destruct Hx as [-> | [-> | ->]].
  - destruct (is_digit c); [apply IH|].
    destruct (chr_eqb c "_" && seen); [apply IH|done].
Qed.

Lemma c_lstrip_letter x t : unit_letter x -> exists u, c_lstrip (t ++ [x]) = u ++ [x].
Proof.
  intros Hx. induction t as [|c t IH]; simpl.
  - exists []. by destruct Hx as [-> | [-> | ->]].
  - destruct (is_c_space c); [done|]. by exists (c :: t).
Qed.

Lemma c_strip_letter x t : unit_letter x -> exists u, c_strip (t ++ [x]) = u ++ [x].
Proof.
  intros Hx. unfold c_strip. destruct (c_lstrip_letter x t Hx) as (u & ->).
  rewrite rev_app_distr. simpl.
  assert (Hs : is_c_space x = false) by by destruct Hx as [-> | [-> | ->]].
  rewrite Hs. exists u. simpl. by rewrite rev_involutive.
Qed.

Lemma split_once_letter x t :
  unit_letter x -> contains_chr "." (t ++ [x]) = true ->
  exists ip fp, split_once "." (t ++ [x]) = (ip, fp ++ [x]).
Proof.
  intros Hx. induction t as [|c t IH].
  - by destruct Hx as [-> | [-> | ->]].
  - change ((c :: t) ++ [x]) with (c :: t ++ [x]).
    cbn [contains_chr existsb split_once].
    destruct (chr_eqb c ".") eqn:Ec.
    + intros _. by exists [], t.
    + assert (E : chr_eqb "." c = false).
      { apply chr_eqb_neq. apply chr_eqb_neq in Ec. congruence. }
      rewrite E. cbn [orb]. intros H. destruct (IH H) as (ip & fp & ->).
      by exists (c :: ip), fp.
Qed.

Lemma mantissa_letter x t : unit_letter x -> mantissa (t ++ [x]) = None.
Proof.
  intros Hx. unfold mantissa.
  destruct (contains_chr "." (t ++ [x])) eqn:Hc.
  - destruct (split_once_letter x t Hx Hc) as (ip & fp & ->).
    assert (Hf : frac_digits (fp ++ [x]) = None).
    { unfold frac_digits. rewrite digits_acc_letter by done. by destruct fp. }
    rewrite Hf. destruct ip as [|a ip].
    + by destruct (fp ++ [x]).
    + by destruct (digits_acc false 0 (a :: ip)).
  - rewrite digits_acc_letter by done. by destruct t.
Qed.

Lemma signed_digits_letter x t :
  unit_letter x -> signed (digits_acc false 0) (t ++ [x]) = None.
Proof.
  intros Hx. unfold signed. destruct t as [|c t]; simpl.
  - destruct Hx as [-> | [-> | ->]]; by vm_compute.
  - assert (H := digits_acc_letter x false 0 t Hx).
    assert (H' := digits_acc_letter x false 0 (c :: t) Hx). simpl in H'.
    destruct c as [[] [] [] [] [] [] [] []]; try exact H'; by rewrite H.
Qed.

Lemma split_exp_letter x t :
  unit_letter x ->
  (exists a, split_exp (t ++ [x]) = (a ++ [x], None)) \/
  (exists a b, split_exp (t ++ [x]) = (a, Some (b ++ [x]))).
Proof.
  intros Hx. induction t as [|c t IH]; simpl.
  - left. exists []. by destruct Hx as [-> | [-> | ->]].
  - destruct (chr_eqb c "e" || chr_eqb c "E").
    + right. by exists [], t.
    + destruct IH as [(a & ->)|(a & b & ->)].
      * left. by exists (c :: a).
      * right. by exists (c :: a), b.
Qed.

Lemma str_eqb_true a b : str_eqb a b = true -> a = b.
Proof.
  revert b. induction a as [|x a IH]; intros [|y b]; simpl; try done.
  intros H. apply andb_true_iff in H as [H1 H2].
  apply chr_eqb_eq in H1 as ->. by rewrite (IH _ H2).
Qed.

Lemma lower_letter x t : unit_letter x -> lower (t ++ [x]) = lower t ++ [x].
Proof.
  intros Hx. unfold lower. rewrite map_app.
  by destruct Hx as [-> | [-> | ->]].
Qed.

Lemma not_a_name x t (name : str) y n :
  unit_letter x -> name = n ++ [y] -> x <> y -> str_eqb (lower (t ++ [x])) name = false.
Proof.
  intros Hx -> Hy. destruct (str_eqb _ _) eqn:E; [|done].
  apply str_eqb_true in E. rewrite lower_letter in E by done.
  apply app_inj_tail in E as [_ ?]. done.
Qed.

Lemma unsigned_float_letter x t : unit_letter x -> unsigned_float (t ++ [x]) = None.
Proof.
  intros Hx. unfold unsigned_float.
  rewrite (not_a_name x t (py "inf") "f" (py "in") Hx eq_refl)
    by by destruct Hx as [-> | [-> | ->]].
  rewrite (not_a_name x t (py "infinity") "y" (py "infinit") Hx eq_refl)
    by by destruct Hx as [-> | [-> | ->]].
  rewrite (not_a_name x t (py "nan") "n" (py "na") Hx eq_refl)
    by by destruct Hx as [-> | [-> | ->]].
  cbn [orb].
  destruct (split_exp_letter x t Hx) as [(a & ->)|(a & b & ->)].
  - by rewrite mantissa_letter.
  - destruct (mantissa a) as [[n k]|]; [|done]. simpl.
    by rewrite signed_digits_letter.
Qed.

(** [float] never reads a text that ends in one of the letters. *)
Lemma py_float_letter x t : unit_letter x -> py_float (t ++ [x]) = None.
Proof.
  intros Hx. unfold py_float.
  destruct (c_strip_letter x t Hx) as (u & ->).
  destruct u as [|c u]; simpl.
  - destruct Hx as [-> | [-> | ->]]; by vm_compute.
  - assert (H := unsigned_float_letter x u Hx).
    assert (H' := unsigned_float_letter x (c :: u) Hx). simpl in H'.
    destruct c as [[] [] [] [] [] [] [] []]; try exact H'; by rewrite H.
Qed.

Lemma py_int_float_times_letter x mult t :
  unit_letter x -> py_int_float_times (t ++ [x]) mult = Ok None.
Proof. intros Hx. unfold py_int_float_times. by rewrite py_float_letter. Qed.

Lemma startswith_snoc p t x :
  startswith p (t ++ [x]) = true -> ~ In x p ->
  exists u, t = p ++ u.
Proof.
  revert t. induction p as [|c p IH]; intros t; simpl.
  - intros _ _. by exists t.
  - destruct t as [|d t]; simpl.
    + destruct (chr_eqb c x) eqn:E; [|done]. apply chr_eqb_eq in E. intros _ H.
      exfalso. apply H. by left.
    + destruct (chr_eqb c d) eqn:E; [|done]. apply chr_eqb_eq in E as ->.
      simpl. intros H Hn. destruct (IH t H) as (u & ->); [tauto|]. by exists u.
Qed.

(** No value that ends in [kb], [mb] or [gb] is resolved. *)
Lemma parse_with_unit_letter x t :
  unit_letter x -> parse_with multipliers (t ++ [x; "b"]) = Ok None.
Proof.
  intros Hx. unfold multipliers. cbn [parse_with].
  assert (He : endswith (py "b") (t ++ [x; "b"]) = true).
  { unfold endswith. by rewrite rev_app_distr. }
  rewrite He. unfold parse_suffixed.
  assert (Hn : slice_to_minus (length (py "b")) (t ++ [x; "b"]) = t ++ [x]).
  { unfold slice_to_minus. rewrite length_app. simpl.
    replace (length t + 2 - 1)%nat with (length (t ++ [x])) by (rewrite length_app; simpl; lia).
    change (t ++ [x; "b"]) with (t ++ [x] ++ ["b"]). rewrite app_assoc.
    by rewrite take_app_length. }
  rewrite Hn.
  assert (Hop : forall p, ~ In x p -> startswith p (t ++ [x]) = true ->
            py_int_float_times (slice_from (length p) (t ++ [x])) 1 = Ok None).
  { intros p Hp Hs. destruct (startswith_snoc p t x Hs Hp) as (u & ->).
    unfold slice_from. rewrite <- app_assoc, drop_app_length.
    by apply py_int_float_times_letter. }
  assert (Hx1 : forall p, In p [py ">="; py "<="; py ">"; py "<"] -> ~ In x p).
  { intros p Hp Hin. destruct Hx as [-> | [-> | ->]];
      repeat (destruct Hp as [<-|Hp]; [by vm_compute in Hin; intuition discriminate|]);
      done. }
  destruct (startswith (py ">=") (t ++ [x])) eqn:E1.
  { assert (H := Hop (py ">=") (Hx1 (py ">=") ltac:(simpl; tauto)) E1).
    change (length (py ">=")) with 2%nat in H. by rewrite H. }
  destruct (startswith (py "<=") (t ++ [x])) eqn:E2.
  { assert (H := Hop (py "<=") (Hx1 (py "<=") ltac:(simpl; tauto)) E2).
    change (length (py "<=")) with 2%nat in H. by rewrite H. }
  destruct (startswith (py ">") (t ++ [x])) eqn:E3.
  { assert (H := Hop (py ">") (Hx1 (py ">") ltac:(simpl; tauto)) E3).
    change (length (py ">")) with 1%nat in H. by rewrite H. }
  destruct (startswith (py "<") (t ++ [x])) eqn:E4.
  { assert (H := Hop (py "<") (Hx1 (py "<") ltac:(simpl; tauto)) E4).
    change (length (py "<")) with 1%nat in H. by rewrite H. }
  by rewrite py_int_float_times_letter.
Qed.

Lemma parse_filesize_unit_letter value t x :
  unit_letter x -> strip (lower value) = t ++ [x; "b"] ->
  _parse_filesize value = Ok None.
Proof.
  intros Hx E. unfold _parse_filesize. rewrite E. by apply parse_with_unit_letter.
Qed.

Lemma search_term_filesize b value :
  search_term b (py "filesize:" ++ value) =
  match _parse_filesize value with
  | Ok (Some size_bytes) => add_numeric b col_file_size size_bytes
  | Ok None => Ok b
  | Raise e => Raise e
  end.
Proof. reflexivity. Qed.

End SuffixFacts.

(** C3 (what the code does): the suffix [b] is tried first and every value
    that ends in [kb], [mb] or [gb] ends in [b], so the number handed to
    [float] keeps the letter: no such value is ever resolved, and its token
    adds no condition.  The search for [filesize:>1mb] is the search with no
    query, and it returns a post of 1048576 bytes; the same size written in
    bytes is resolved, and excludes that post. *)
Theorem filesize_suffix_shadowed :
  map fst multipliers = [py "b"; py "kb"; py "mb"; py "gb"] /\
  (forall value t x, unit_letter x -> strip (lower value) = t ++ [x; "b"] ->
     _parse_filesize value = Ok None /\
     forall b, search_term b (py "filesize:" ++ value) = Ok b) /\
  _parse_filesize (py ">1mb") = Ok None /\
  _parse_filesize (py "500kb") = Ok None /\
  _parse_filesize (py "2gb") = Ok None /\
  _parse_filesize (py ">1048576b") = Ok (Some (VStr (py ">1048576"))) /\
  (forall d limit,
     search_posts d (Some (py "filesize:>1mb")) limit = search_posts d None limit) /\
  search_posts
    (store_of [sample_post (Some 1) None None (Some 1048577);
               sample_post (Some 2) None None (Some 1048576)])
    (Some (py "filesize:>1mb")) default_limit
  = Ok [(2, 2, None); (1, 1, None)] /\
  search_posts
    (store_of [sample_post (Some 1) None None (Some 1048577);
               sample_post (Some 2) None None (Some 1048576)])
    (Some (py "filesize:>1048576b")) default_limit
  = Ok [(1, 1, None)].
Proof.
  split; [done|]. split.
  { intros value t x Hx E.
    pose proof (parse_filesize_unit_letter value t x Hx E) as H.
    split; [done|]. intros b. by rewrite search_term_filesize, H. }
  repeat split; by vm_compute.
Qed.

(** A witness of C3: the value [2GB]. *)
Lemma filesize_suffix_shadowed_witness :
  _parse_filesize (py "2GB") = Ok None /\
  forall b, search_term b (py "filesize:" ++ py "2GB") = Ok b.
Proof.
  apply (proj1 (proj2 filesize_suffix_shadowed) (py "2GB") (py "2") "g").
  - right. by right.
  - reflexivity.
Defined.

Section OrGroupFacts.

Lemma add_numeric_set_or b o col v :
  add_numeric (set_or b o) col v =
  match add_numeric b col v with
  | Ok b1 => Ok (set_or b1 o)
  | Raise e => Raise e
  end.
Proof.
  unfold add_numeric. simpl.
  by destruct (_add_numeric_condition (sql b) (params b) col v) as [[s p]|e].
Qed.

Lemma add_numeric_or_tags b col v b1 :
  add_numeric b col v = Ok b1 -> or_tags b1 = or_tags b.
Proof.
  unfold add_numeric.
  destruct (_add_numeric_condition (sql b) (params b) col v) as [[s p]|e]; [|done].
  by intros [= <-].
Qed.

(** A term outside the OR-group neither reads nor changes the group. *)
Lemma search_term_set_or b o term :
  is_or_term term = false ->
  search_term (set_or b o) term =
  match search_term b term with
  | Ok b1 => Ok (set_or b1 o)
  | Raise e => Raise e
  end /\
  forall b1, search_term b term = Ok b1 -> or_tags b1 = or_tags b.
Proof.
  unfold is_or_term. intros H. unfold search_term. rewrite H.
  repeat case_match; simplify_eq; rewrite ?add_numeric_set_or;
    repeat match goal with
           | Hn : add_numeric _ _ _ = _ |- _ =>
               rewrite ?Hn; try apply add_numeric_or_tags in Hn
           end;
    (split; [done|]); by intros b1 [= <-].
Qed.

Lemma search_term_or b term :
  is_or_term term = true ->
  search_term b term = Ok (set_or b (or_tags b ++ [slice_from 1 term])).
Proof. unfold is_or_term, search_term. by intros ->. Qed.

Lemma set_or_set_or b o o' : set_or (set_or b o) o' = set_or b o'.
Proof. done. Qed.

Lemma search_terms_or ts b b' :
  search_terms b ts = Ok b' ->
  or_tags b' = or_tags b ++ map (slice_from 1) (List.filter is_or_term ts) /\
  forall o, search_terms (set_or b o) (List.filter (fun t => negb (is_or_term t)) ts)
            = Ok (set_or b' o).
Proof.
  revert b. induction ts as [|t ts IH]; intros b; simpl.
  - intros [= <-]. by rewrite app_nil_r.
  - destruct (is_or_term t) eqn:Ht; simpl.
    + rewrite search_term_or by done. intros H. apply IH in H as [H1 H2].
      simpl in H1. rewrite <- app_assoc in H1. split; [done|].
      intros o. specialize (H2 o). by rewrite set_or_set_or in H2.
    + destruct (search_term_set_or b (or_tags b) t Ht) as [_ Hor].
      destruct (search_term b t) as [b1|e] eqn:Hb; [|done].
      intros H. apply IH in H as [H1 H2]. rewrite (Hor b1 eq_refl) in H1.
      split; [done|]. intros o.
      destruct (search_term_set_or b o t Ht) as [-> _]. rewrite Hb. apply H2.
Qed.

Lemma where_app bs1 bs2 r : where_ (bs1 ++ bs2) r = where_ bs1 r && where_ bs2 r.
Proof. apply forallb_app. Qed.

Lemma existsb_map {A B} (f : A -> B) (g : B -> bool) l :
  existsb g (map f l) = existsb (fun x => g (f x)) l.
Proof. induction l as [|x l IH]; simpl; [done|]. by rewrite IH. Qed.

(** The statement a query with an OR-group compiles to, and its rows. *)
Lemma search_posts_or_group d q limit b bs :
  truthy q = true ->
  search_terms build_start (_parse_search_query q) = Ok b ->
  or_tags b <> [] ->
  bind_all (sql b) (params b) = Some (bs, []) ->
  compile (Some q) limit =
    Ok (sql b ++ [OrLikes (length (or_tags b))],
        (params b ++ map (fun tag => PText (percent tag)) (or_tags b)) ++ [PInt limit]) /\
  search_posts d (Some q) limit =
    if forallb bound_int64 bs && int64 limit then
      Ok (map selected (limit_rows limit (order_by_post_id_desc
            (filter (fun r => where_ bs r && or_match (or_tags b) r) (posts d)))))
    else Raise OverflowError.
Proof.
  intros Hq Hb Hor Hbind.
  assert (Hc : compile (Some q) limit =
    Ok (sql b ++ [OrLikes (length (or_tags b))],
        (params b ++ map (fun tag => PText (percent tag)) (or_tags b)) ++ [PInt limit])).
  { unfold compile. rewrite Hq, Hb. unfold handle_or_tags.
    by destruct (or_tags b). }
  split; [done|]. unfold search_posts. rewrite Hc. unfold execute_select.
  rewrite <- app_assoc. rewrite (bind_all_app _ _ _ _ _ Hbind). simpl.
  set (n := length (or_tags b)).
  set (ps := map (fun tag => PText (percent tag)) (or_tags b)).
  assert (Hn : length ps = n) by (unfold ps; by rewrite length_map).
  assert (Hle : (n <=? length (ps ++ [PInt limit]))%nat = true).
  { apply Nat.leb_le. rewrite length_app. lia. }
  rewrite Hle, take_app_length', drop_app_length' by done.
  assert (Ht : texts ps = Some (map percent (or_tags b))).
  { unfold ps. rewrite <- texts_map. f_equal. by rewrite map_map. }
  rewrite Ht. cbn [fmap option_fmap option_map mbind option_bind].
  rewrite forallb_app. cbn [forallb bound_int64]. rewrite andb_true_r.
  destruct (forallb bound_int64 bs && int64 limit); [|done]. do 4 f_equal.
  apply list_filter_iff. intros r. rewrite where_app. simpl.
  unfold or_match. rewrite andb_true_r.
  destruct (tag_string r); [|done]. by rewrite existsb_map.
Qed.

Lemma tagged_spec needle r :
  tagged needle r = true <-> exists t, tag_string r = Some t /\ contains_ci needle t.
Proof.
  unfold tagged. destruct (tag_string r) as [t|].
  - rewrite infix_ci_spec. split; [by exists t|]. by intros (? & [= <-] & ?).
  - split; [done|]. by intros (? & ? & _).
Qed.

End OrGroupFacts.

(** C8 (as amended): every token that starts with [~] loses the prefix and
    joins the one OR-group of the query, and the other tokens compile as if
    the [~] tokens were not there.  A query with a non-empty group compiles
    to the other conditions followed by one parenthesised disjunction, and
    it returns the rows that satisfy every other condition and whose tag
    string matches [LIKE '%tag%'] for one tag of the group at least, or
    raises [OverflowError] when the limit or the integer of a condition
    does not fit in 64 signed bits.  For a
    tag without the characters [%] and [_] that match is containment up to
    the case of ASCII letters, so the query [~fox ~wolf] returns exactly the
    rows whose tag string contains [fox] or contains [wolf]. *)
Theorem or_group :
  (forall ts b b', search_terms b ts = Ok b' ->
     or_tags b' = or_tags b ++ map (slice_from 1) (List.filter is_or_term ts) /\
     forall o, search_terms (set_or b o) (List.filter (fun t => negb (is_or_term t)) ts)
               = Ok (set_or b' o)) /\
  (forall d q limit b bs,
     truthy q = true ->
     search_terms build_start (_parse_search_query q) = Ok b ->
     or_tags b <> [] ->
     bind_all (sql b) (params b) = Some (bs, []) ->
     compile (Some q) limit =
       Ok (sql b ++ [OrLikes (length (or_tags b))],
           (params b ++ map (fun tag => PText (percent tag)) (or_tags b)) ++ [PInt limit]) /\
     search_posts d (Some q) limit =
       if forallb bound_int64 bs && int64 limit then
         Ok (map selected (limit_rows limit (order_by_post_id_desc
               (filter (fun r => where_ bs r && or_match (or_tags b) r) (posts d)))))
       else Raise OverflowError) /\
  (forall tag t, plain tag -> like (percent tag) t = true <-> contains_ci tag t) /\
  (forall d limit,
     search_posts d (Some (py "~fox ~wolf")) limit =
       if int64 limit then
         Ok (map selected (limit_rows limit (order_by_post_id_desc
               (filter (fun r => tagged (py "fox") r || tagged (py "wolf") r) (posts d)))))
       else Raise OverflowError) /\
  (forall needle r,
     tagged needle r = true <-> exists t, tag_string r = Some t /\ contains_ci needle t).
Proof.
  split; [exact search_terms_or|]. split; [exact search_posts_or_group|].
  split; [exact like_contains|]. split; [|exact tagged_spec].
  intros d limit.
  destruct (search_posts_or_group d (py "~fox ~wolf") limit
              {| sql := []; params := []; or_tags := [py "fox"; py "wolf"] |} [])
    as [_ ->]; try done.
  cbn [forallb andb]. destruct (int64 limit); [|done]. do 4 f_equal. apply list_filter_iff. intros r. unfold or_match, tagged, where_.
  cbn [or_tags existsb forallb]. destruct (tag_string r) as [t|]; [|done].
  rewrite !like_infix, orb_false_r; [done| |]; unfold plain; by repeat constructor.
Qed.

(** A witness of C8: the query [~fox cat ~wolf]. *)
Lemma or_group_witness :
  (or_tags {| sql := [TagLike]; params := [PText (py "%cat%")];
              or_tags := [py "fox"; py "wolf"] |}
   = or_tags build_start
     ++ map (slice_from 1) (List.filter is_or_term [py "~fox"; py "cat"; py "~wolf"]) /\
   forall o, search_terms (set_or build_start o)
               (List.filter (fun t => negb (is_or_term t)) [py "~fox"; py "cat"; py "~wolf"])
             = Ok (set_or {| sql := [TagLike]; params := [PText (py "%cat%")];
                             or_tags := [py "fox"; py "wolf"] |} o)) /\
  search_posts two_posts (Some (py "~fox cat ~wolf")) default_limit =
    Ok (map selected (limit_rows default_limit (order_by_post_id_desc
          (filter (fun r => where_ [BTagLike (py "%cat%")] r
                            && or_match [py "fox"; py "wolf"] r) (posts two_posts))))) /\
  search_posts two_posts (Some (py "~fox cat ~wolf")) (2 ^ 63) = Raise OverflowError.
Proof.
  split.
  - exact (proj1 or_group [py "~fox"; py "cat"; py "~wolf"] build_start _ eq_refl).
  - split.
    + refine (proj2 (proj1 (proj2 or_group) two_posts (py "~fox cat ~wolf") default_limit
                {| sql := [TagLike]; params := [PText (py "%cat%")];
                   or_tags := [py "fox"; py "wolf"] |} [BTagLike (py "%cat%")]
                eq_refl eq_refl _ eq_refl)).
      discriminate.
    + refine (proj2 (proj1 (proj2 or_group) two_posts (py "~fox cat ~wolf") (2 ^ 63)
                {| sql := [TagLike]; params := [PText (py "%cat%")];
                   or_tags := [py "fox"; py "wolf"] |} [BTagLike (py "%cat%")]
                eq_refl eq_refl _ eq_refl)).
      discriminate.
Defined.

(** C8, as the specification words it, fails: [_] in a tag is a wildcard of
    [LIKE], so the query [~a_b] returns a post whose tag string [acb] does
    not contain [a_b]. *)
Lemma or_group_wildcard_counterexample :
  search_posts (store_of [sample_post (Some 7) None (Some (py "acb")) None])
    (Some (py "~a_b")) default_limit
  = Ok [(1, 7, Some (py "acb"))] /\
  ~ contains_ci (py "a_b") (py "acb").
Proof.
  split; [by vm_compute|]. rewrite <- infix_ci_spec. by vm_compute.
Qed.

Section StoreFacts.

Lemma select_md5_spec d h : select_md5 d h = true <-> holds_hash d h.
Proof.
  unfold select_md5, holds_hash. rewrite existsb_exists.
  split; intros (r & Hr & H); exists r; split; try done.
  - by apply bool_decide_eq_true in H.
  - by apply bool_decide_eq_true.
Qed.

Lemma insert_row_overflow d data :
  bindable data = false -> insert_row d data = Raise OverflowError.
Proof. unfold insert_row. by intros ->. Qed.

Lemma insert_row_None d data :
  bindable data = true -> insert_row d data = Ok None <-> rejected d data.
Proof.
  unfold insert_row, rejected. intros ->.
  destruct (j_id data) as [pid|]; [|by split; [left|]].
  destruct (j_md5 data) as [h|].
  - destruct (select_md5 d h) eqn:Hs.
    + split; [|done]. intros _. right. exists h. split; [done|].
      by apply select_md5_spec.
    + split; [done|]. intros [?|(h' & [= <-] & Hh)]; [done|].
      apply select_md5_spec in Hh. congruence.
  - split; [done|]. by intros [?|(h' & ? & _)].
Qed.

Lemma insert_row_Some d data :
  bindable data = true -> ~ rejected d data ->
  exists pid, j_id data = Some pid /\ insert_row d data = Ok (Some (appended d pid data)).
Proof.
  intros Hb Hn. destruct (insert_row d data) as [[d'|]|e] eqn:Hi.
  - unfold insert_row in *. rewrite Hb in Hi. destruct (j_id data) as [pid|]; [|done].
    exists pid. split; [done|].
    destruct (match j_md5 data with Some h => select_md5 d h | None => false end);
      [done|]. by injection Hi as <-.
  - by apply insert_row_None in Hi.
  - unfold insert_row in Hi. by rewrite Hb in Hi.
Qed.

(** What an accepted record tells. *)
Lemma insert_row_inv d data d' :
  insert_row d data = Ok (Some d') ->
  bindable data = true /\ ~ rejected d data /\
  exists pid, j_id data = Some pid /\ d' = appended d pid data.
Proof.
  intros Hi. destruct (bindable data) eqn:Hb;
    [|by rewrite insert_row_overflow in Hi].
  split; [done|].
  assert (Hn : ~ rejected d data).
  { intros Hr. apply insert_row_None in Hr; [|done]. congruence. }
  split; [done|]. destruct (insert_row_Some d data Hb Hn) as (pid & Hp & Hi').
  exists pid. split; [done|]. congruence.
Qed.

Lemma post_exists_holds d h : post_exists d (Some h) = true -> holds_hash d h.
Proof.
  unfold post_exists. destruct (truthy h); [|done]. apply select_md5_spec.
Qed.

Lemma holds_post_exists d (h : str) :
  h <> [] -> holds_hash d h -> post_exists d (Some h) = true.
Proof.
  intros Hh H. unfold post_exists. destruct h; [done|]. by apply select_md5_spec.
Qed.

Lemma insert_post_duplicate d data :
  duplicate d data -> insert_post d (JObject data) = (Ok false, d).
Proof.
  intros (h & Hm & Hh & H). unfold insert_post. cbn zeta. rewrite Hm.
  rewrite (holds_post_exists d h Hh H). by destruct h.
Qed.

Lemma insert_post_rejected d data :
  bindable data = true -> rejected d data -> insert_post d (JObject data) = (Ok false, d).
Proof.
  intros Hb Hr. unfold insert_post.
  destruct (_ && _); [done|]. apply insert_row_None in Hr; [|done]. by rewrite Hr.
Qed.

Lemma insert_post_accepted d data :
  bindable data = true -> ~ rejected d data ->
  exists pid, j_id data = Some pid /\
    insert_post d (JObject data) = (Ok true, commit (appended d pid data)).
Proof.
  intros Hb Hn. destruct (insert_row_Some d data Hb Hn) as (pid & Hp & Hi).
  exists pid. split; [done|]. unfold insert_post. rewrite Hi.
  destruct (j_md5 data) as [h|] eqn:Hh; [|done].
  destruct (truthy h); [|done]. cbn [andb].
  destruct (post_exists d (Some h)) eqn:He; [|done].
  exfalso. apply Hn. right. exists h. split; [done|]. by apply post_exists_holds.
Qed.

(** A regular record is refused only as a duplicate. *)
Lemma regular_rejected d data : regular data -> rejected d data -> duplicate d data.
Proof.
  intros (Hi & Hm & _) [?|(h & Hh & H)]; [done|].
  exists h. split; [done|]. split; [|done]. intros ->. done.
Qed.

Lemma duplicate_rejected d data : duplicate d data -> rejected d data.
Proof. intros (h & Hm & _ & H). right. by exists h. Qed.

Lemma same_tables_refl d : same_tables d d.
Proof. done. Qed.

Lemma same_tables_commit d d' : same_tables d d' -> same_tables d (commit d').
Proof. done. Qed.

Lemma same_tables_rejected d d' data :
  same_tables d d' -> rejected d data -> rejected d' data.
Proof.
  intros (Hp & _) [?|(h & Hh & r & Hr & Hm)]; [by left|].
  right. exists h. split; [done|]. unfold holds_hash. rewrite <- Hp. by exists r.
Qed.

Lemma same_tables_sym d d' : same_tables d d' -> same_tables d' d.
Proof. unfold same_tables. by intros (-> & -> & ->). Qed.

Lemma same_tables_trans d1 d2 d3 :
  same_tables d1 d2 -> same_tables d2 d3 -> same_tables d1 d3.
Proof. unfold same_tables. by intros (-> & -> & ->) (-> & -> & ->). Qed.

Lemma same_tables_appended d d' pid data :
  same_tables d d' -> same_tables (appended d pid data) (appended d' pid data).
Proof. intros (H1 & H2 & H3). unfold same_tables. simpl. by rewrite H1, H2, H3. Qed.

(** The loop of [insert_batch] against [insert_post] on each record, for
    records whose integers fit. *)
Lemma insert_loop_each batch n d d0 :
  Forall (fun data => bindable data = true) batch ->
  same_tables d d0 ->
  exists m d1 d2,
    insert_loop (map JObject batch) n d = (Ok m, d1) /\
    insert_each (map JObject batch) n d0 = (Ok m, d2) /\
    same_tables d1 d2 /\ commits d1 = commits d.
Proof.
  intros HF. revert n d d0.
  induction HF as [|data batch Hb HF IH]; intros n d d0 Hs.
  - by exists n, d, d0.
  - cbn [map insert_loop insert_each].
    destruct (insert_row d data) as [[d'|]|e] eqn:Hi.
    + apply insert_row_inv in Hi as (_ & Hn & pid & Hp & ->).
      assert (Hn0 : ~ rejected d0 data).
      { intros H. apply Hn. apply (same_tables_rejected d0 d); [|done].
        by apply same_tables_sym. }
      destruct (insert_post_accepted _ _ Hb Hn0) as (pid0 & Hp0 & ->).
      simplify_eq.
      destruct (IH (n + 1) (appended d pid data) (commit (appended d0 pid data)))
        as (m & d1 & d2 & H1 & H2 & H3 & H4).
      { by apply same_tables_commit, same_tables_appended. }
      by exists m, d1, d2.
    + apply insert_row_None in Hi; [|done].
      rewrite (insert_post_rejected d0 data Hb) by by apply (same_tables_rejected d).
      by apply IH.
    + unfold insert_row in Hi. by rewrite Hb in Hi.
Qed.

(** The loop only appends rows, one for each record it counts; it leaves
    the ledger and the number of commits as they are. *)
Lemma insert_loop_grows batch n d :
  exists new,
    posts (snd (insert_loop batch n d)) = posts d ++ new /\
    next_id (snd (insert_loop batch n d)) = next_id d + Z.of_nat (length new) /\
    processed_files (snd (insert_loop batch n d)) = processed_files d /\
    commits (snd (insert_loop batch n d)) = commits d /\
    forall m, fst (insert_loop batch n d) = Ok m -> m = n + Z.of_nat (length new).
Proof.
  revert n d. induction batch as [|data batch IH]; intros n d; cbn [insert_loop].
  - exists []. rewrite app_nil_r. simpl. repeat split; try lia. intros m [= <-]. lia.
  - destruct data as [data|];
      [|exists []; rewrite app_nil_r; simpl; repeat split; try lia; done].
    destruct (insert_row d data) as [[d'|]|e] eqn:Hi.
    + apply insert_row_inv in Hi as (_ & _ & pid & _ & ->).
      destruct (IH (n + 1) (appended d pid data)) as (new & -> & -> & -> & -> & Hc).
      exists (new_row (next_id d) pid data :: new). simpl.
      rewrite <- app_assoc. repeat split; try lia.
      intros m Hm. specialize (Hc m Hm). lia.
    + apply IH.
    + exists []. rewrite app_nil_r. simpl. repeat split; try lia. done.
Qed.

Lemma insert_batch_fst d batch : fst (insert_batch d batch) = fst (insert_loop batch 0 d).
Proof. unfold insert_batch. by destruct (insert_loop batch 0 d) as [[m|e] d']. Qed.

Lemma insert_batch_tables d batch :
  same_tables (snd (insert_batch d batch)) (snd (insert_loop batch 0 d)).
Proof. unfold insert_batch. by destruct (insert_loop batch 0 d) as [[m|e] d']. Qed.

Lemma insert_batch_posts d batch :
  posts (snd (insert_batch d batch)) = posts (snd (insert_loop batch 0 d)).
Proof. apply insert_batch_tables. Qed.

Lemma insert_batch_Ok d batch m d' :
  insert_loop batch 0 d = (Ok m, d') -> insert_batch d batch = (Ok m, commit d').
Proof. unfold insert_batch. by intros ->. Qed.

Lemma insert_batch_Raise d batch e d' :
  insert_loop batch 0 d = (Raise e, d') -> insert_batch d batch = (Raise e, d').
Proof. unfold insert_batch. by intros ->. Qed.

End StoreFacts.

Section InvariantFacts.

Lemma unique_hashes_posts d d' : posts d = posts d' -> unique_hashes d -> unique_hashes d'.
Proof. unfold unique_hashes. by intros <-. Qed.

Lemma lookup_holds d i r h : posts d !! i = Some r -> md5 r = Some h -> holds_hash d h.
Proof.
  intros Hi Hm. exists r. split; [|done].
  apply list_elem_of_In, list_elem_of_lookup. by exists i.
Qed.

Lemma unique_appended d pid data :
  unique_hashes d -> ~ rejected d data -> unique_hashes (appended d pid data).
Proof.
  intros Hu Hn h i j ri rj Hh. unfold appended; simpl.
  rewrite !lookup_app_Some. intros [Hi|[Hi Hi']] [Hj|[Hj Hj']] Hmi Hmj.
  - by apply (Hu h i j ri rj).
  - exfalso. apply Hn. right. exists h. split; [|by apply (lookup_holds d i ri)].
    apply list_lookup_singleton_Some in Hj' as [_ <-]. done.
  - exfalso. apply Hn. right. exists h. split; [|by apply (lookup_holds d j rj)].
    apply list_lookup_singleton_Some in Hi' as [_ <-]. done.
  - apply list_lookup_singleton_Some in Hi' as [Hi' _].
    apply list_lookup_singleton_Some in Hj' as [Hj' _]. lia.
Qed.

Lemma unique_insert_row d data d' :
  unique_hashes d -> insert_row d data = Ok (Some d') -> unique_hashes d'.
Proof.
  intros Hu Hi. apply insert_row_inv in Hi as (_ & Hn & pid & _ & ->).
  by apply unique_appended.
Qed.

Lemma unique_loop batch n d :
  unique_hashes d -> unique_hashes (snd (insert_loop batch n d)).
Proof.
  revert n d. induction batch as [|data batch IH]; intros n d Hu; cbn [insert_loop];
    [done|].
  destruct data as [data|]; [|done].
  destruct (insert_row d data) as [[d'|]|e] eqn:Hi; [| |done].
  - apply IH. by eapply unique_insert_row.
  - by apply IH.
Qed.

Lemma unique_insert_post d data :
  unique_hashes d -> unique_hashes (snd (insert_post d data)).
Proof.
  intros Hu. unfold insert_post. destruct data as [data|]; [|done].
  destruct (_ && _); [done|].
  destruct (insert_row d data) as [[d'|]|e] eqn:Hi; [|done|done]. simpl.
  apply (unique_hashes_posts d'); [done|]. by eapply unique_insert_row.
Qed.

Lemma unique_insert_batch d batch :
  unique_hashes d -> unique_hashes (snd (insert_batch d batch)).
Proof.
  intros Hu. eapply unique_hashes_posts; [|by apply (unique_loop batch 0 d)].
  by rewrite insert_batch_posts.
Qed.

(** Records without a hash, with an [id] and with integers that fit are all
    inserted. *)
Lemma hashless_loop batch n d :
  Forall (fun data => j_md5 data = None /\ j_id data <> None /\ bindable data = true)
         batch ->
  fst (insert_loop (map JObject batch) n d) = Ok (n + Z.of_nat (length batch)) /\
  length (posts (snd (insert_loop (map JObject batch) n d))) =
    (length (posts d) + length batch)%nat /\
  forall r, In r (posts (snd (insert_loop (map JObject batch) n d))) ->
    In r (posts d) \/ md5 r = None.
Proof.
  intros HF. revert n d. induction HF as [|data batch (Hm & Hi & Hb) HF IH]; intros n d;
    cbn [map insert_loop].
  - simpl. split; [f_equal; lia|]. split; [lia|]. by left.
  - assert (Hn : ~ rejected d data).
    { intros [?|(h & ? & _)]; congruence. }
    destruct (insert_row_Some _ _ Hb Hn) as (pid & _ & ->).
    destruct (IH (n + 1) (appended d pid data)) as (-> & -> & Hin).
    simpl. rewrite length_app. simpl. split; [f_equal; lia|]. split; [lia|].
    intros r Hr'. destruct (Hin r Hr') as [H|H]; [|by right].
    simpl in H. apply in_app_or in H as [H|[<-|[]]]; [by left|]. by right.
Qed.

Lemma insert_post_grows d data :
  exists new, posts (snd (insert_post d data)) = posts d ++ new.
Proof.
  unfold insert_post. destruct data as [data|]; [|exists []; by rewrite app_nil_r].
  destruct (_ && _); [exists []; by rewrite app_nil_r|].
  destruct (insert_row d data) as [[d'|]|e] eqn:Hi;
    [|exists []; by rewrite app_nil_r|exists []; by rewrite app_nil_r].
  apply insert_row_inv in Hi as (_ & _ & pid & _ & ->). by eexists.
Qed.

Lemma insert_batch_grows d batch :
  exists new, posts (snd (insert_batch d batch)) = posts d ++ new.
Proof.
  rewrite insert_batch_posts.
  destruct (insert_loop_grows batch 0 d) as (new & Hp & _). by exists new.
Qed.

End InvariantFacts.

Section RunFacts.

Variable json_loads : str -> option json.

Lemma grows_refl d : grows d d.
Proof. split; [done|]. exists []. by rewrite app_nil_r. Qed.

Lemma grows_trans d1 d2 d3 : grows d1 d2 -> grows d2 d3 -> grows d1 d3.
Proof.
  intros [H1 (n1 & E1)] [H2 (n2 & E2)]. split; [auto|].
  exists (n1 ++ n2). by rewrite E2, E1, app_assoc.
Qed.

Lemma grows_insert_batch d batch : grows d (snd (insert_batch d batch)).
Proof. split; [apply unique_insert_batch|apply insert_batch_grows]. Qed.

Lemma grows_mark d f h : grows d (mark_file_processed d f h).
Proof.
  split; [by apply unique_hashes_posts|]. exists []. by rewrite app_nil_r.
Qed.

Lemma grows_append_data st data :
  grows (s_db st) (s_db (state_of (append_data st data))).
Proof.
  unfold append_data. destruct (_ <=? _)%nat; [|apply grows_refl].
  pose proof (grows_insert_batch (s_db st) (batch st ++ [data])) as H.
  by destruct (insert_batch (s_db st) (batch st ++ [data])) as [[m|e] d].
Qed.

Lemma buffer_append_data st data :
  buffer (state_of (append_data st data)) = buffer st.
Proof.
  unfold append_data. destruct (_ <=? _)%nat; [|done].
  by destruct (insert_batch (s_db st) (batch st ++ [data])) as [[m|e] d].
Qed.

Lemma grows_process_line st line :
  grows (s_db st) (s_db (state_of (process_line json_loads st line))).
Proof.
  unfold process_line. destruct (truthy (strip line)); [|apply grows_refl].
  destruct (json_loads line); [apply grows_append_data|apply grows_refl].
Qed.

Lemma buffer_process_line st line :
  buffer (state_of (process_line json_loads st line)) = buffer st.
Proof.
  unfold process_line. destruct (truthy (strip line)); [|done].
  destruct (json_loads line); [apply buffer_append_data|done].
Qed.

Lemma split_once_shorter sep s :
  contains_chr sep s = true -> (length (snd (split_once sep s)) < length s)%nat.
Proof.
  induction s as [|c s IH]; simpl; [done|].
  destruct (chr_eqb c sep) eqn:E; simpl; [lia|].
  assert (E' : chr_eqb sep c = false).
  { apply chr_eqb_neq. apply chr_eqb_neq in E. congruence. }
  rewrite E'. simpl. intros H. specialize (IH H).
  destruct (split_once sep s). simpl in *. lia.
Qed.

(** The rounds given to the [while] loop are enough: when the loop is not
    left by an exception, it stops because no newline is left in the
    buffer. *)
Lemma complete_lines_enough rounds st st' :
  (length (buffer st) <= rounds)%nat ->
  complete_lines json_loads rounds st = Go st' ->
  contains_chr newline (buffer st') = false.
Proof.
  revert st. induction rounds as [|rounds IH]; intros st Hl; simpl.
  - intros [= <-]. destruct (buffer st); [done|simpl in Hl; lia].
  - destruct (contains_chr newline (buffer st)) eqn:Hc; [|by intros [= <-]].
    pose proof (split_once_shorter _ _ Hc) as Hs.
    destruct (split_once newline (buffer st)) as [line rest] eqn:Hsp. simpl in Hs.
    pose proof (buffer_process_line (set_buffer st rest) line) as Hb.
    destruct (process_line json_loads (set_buffer st rest) line) as [st1|st1];
      [|done].
    apply IH. simpl in Hb. rewrite Hb. lia.
Qed.

Lemma grows_complete_lines rounds st :
  grows (s_db st) (s_db (state_of (complete_lines json_loads rounds st))).
Proof.
  revert st. induction rounds as [|rounds IH]; intros st; simpl; [apply grows_refl|].
  destruct (contains_chr newline (buffer st)); [|apply grows_refl].
  destruct (split_once newline (buffer st)) as [line rest].
  pose proof (grows_process_line (set_buffer st rest) line) as H.
  destruct (process_line json_loads (set_buffer st rest) line) as [st1|st1];
    [|exact H].
  eapply grows_trans; [exact H|apply IH].
Qed.

Lemma grows_process_chunk st chunk :
  grows (s_db st) (s_db (state_of (process_chunk json_loads st chunk))).
Proof.
  unfold process_chunk. destruct (truthy chunk); [|apply grows_refl].
  apply (grows_complete_lines _ (set_buffer st (buffer st ++ chunk))).
Qed.

Lemma grows_chunk_loop w cs broken ds st :
  grows (s_db st) (s_db (snd (chunk_loop json_loads w cs broken ds st))) /\
  db_ (snd (fst (chunk_loop json_loads w cs broken ds st))) = db_ ds /\
  log (snd (fst (chunk_loop json_loads w cs broken ds st))) = log ds.
Proof.
  revert ds st. induction cs as [|chunk cs IH]; intros ds st; simpl.
  - split; [apply grows_refl|done].
  - destruct (match cancel_after w with Some k => (k <=? polls ds)%nat | None => false end).
    + simpl. split; [apply grows_refl|done].
    + pose proof (grows_process_chunk st chunk) as H.
      destruct (process_chunk json_loads st chunk) as [st1|st1]; [|done].
      edestruct IH as (H1 & H2 & H3). split; [|split; [exact H2|exact H3]].
      eapply grows_trans; [exact H|exact H1].
Qed.

Lemma grows_finish_stream st :
  grows (s_db st) (s_db (state_of (finish_stream json_loads st))).
Proof.
  unfold finish_stream.
  set (st' := if truthy (strip (buffer st)) then _ else _).
  assert (E : s_db st' = s_db st).
  { unfold st'. destruct (truthy _); [|done]. by destruct (json_loads _). }
  rewrite <- E.
  pose proof (grows_insert_batch (s_db st') (batch st')) as H.
  destruct (batch st') as [|data batch']; [apply grows_refl|].
  by destruct (insert_batch (s_db st') (data :: batch')) as [[m|e] d].
Qed.

Lemma grows_stream_process_file w ds filename file :
  grows (db_ ds) (db_ (snd (_stream_process_file json_loads w ds filename file))).
Proof.
  unfold _stream_process_file. destruct file as [r|]; [|apply grows_refl].
  pose proof (grows_chunk_loop w (chunks r) (broken r) ds
    {| s_db := db_ ds; buffer := []; batch := []; posts_added := 0 |}) as (H1 & _).
  destruct (chunk_loop _ _ _ _ _ _) as [[normal ds'] st]. simpl in H1.
  destruct normal; simpl; [|done].
  pose proof (grows_finish_stream st) as H2.
  destruct (finish_stream json_loads st) as [st1|st1]; simpl in *;
    by eapply grows_trans.
Qed.

Lemma grows_process_file w ds filename file :
  grows (db_ ds) (db_ (process_file json_loads w ds filename file)).
Proof.
  unfold process_file.
  destruct file as [| |r]; [apply grows_refl| |];
    match goal with
    | |- context [_stream_process_file ?j ?w ?ds ?f ?x] =>
        pose proof (grows_stream_process_file w ds f x) as H;
        destruct (_stream_process_file j w ds f x) as [n ds']
    end; simpl in *; (eapply grows_trans; [exact H|apply grows_mark]).
Qed.

Lemma grows_files_loop w files ds :
  grows (db_ ds) (db_ (files_loop json_loads w files ds)).
Proof.
  revert ds. induction files as [|f files IH]; intros ds; simpl; [apply grows_refl|].
  destruct (match cancel_after w with Some k => (k <=? polls ds)%nat | None => false end);
    [apply grows_refl|].
  eapply grows_trans; [|apply IH].
  match goal with
  | |- grows _ (db_ (process_file _ _ ?d _ _)) => apply (grows_process_file w d)
  end.
Qed.

Lemma grows_download_and_process w ds :
  grows (db_ ds) (db_ (download_and_process json_loads w ds)).
Proof.
  unfold download_and_process, get_jsonl_files.
  destruct (listing w) as [all_files|]; simpl;
    match goal with |- context [filter ?P ?l] => destruct (filter P l) eqn:E end;
    try apply grows_refl; unfold set_downloading; cbn [db_];
    match goal with
    | |- grows _ (db_ (files_loop _ _ _ ?d)) => apply (grows_files_loop w _ d)
    end.
Qed.

End RunFacts.

(** C5 (as amended): [insert_post] returns [False] and leaves the store as it
    is when a stored row holds the record's non-empty hash; for a record
    with an [id], with integers of 64 signed bits and with no hash or a
    non-empty one, it returns [True] otherwise, having appended the record's
    row and committed.  On records whose integers fit, [insert_batch] does
    not raise, inserts the same records as [insert_post] applied to each in
    turn, returns the number of rows it added, and commits once; a duplicate
    and a novel record give 1 and add the novel record's row, and a record
    with a hash given twice in one batch is inserted once. *)
Theorem insert_semantics :
  (forall d data, duplicate d data -> insert_post d (JObject data) = (Ok false, d)) /\
  (forall d data, regular data -> ~ duplicate d data ->
     exists pid, j_id data = Some pid /\
       insert_post d (JObject data) = (Ok true, commit (appended d pid data))) /\
  (forall d batch, Forall (fun data => bindable data = true) batch ->
     exists n,
       fst (insert_batch d (map JObject batch)) = Ok n /\
       fst (insert_each (map JObject batch) 0 d) = Ok n /\
       same_tables (snd (insert_batch d (map JObject batch)))
                   (snd (insert_each (map JObject batch) 0 d)) /\
       commits (snd (insert_batch d (map JObject batch))) = S (commits d) /\
       Z.of_nat (length (posts (snd (insert_batch d (map JObject batch))))) =
         Z.of_nat (length (posts d)) + n) /\
  (forall d dup novel,
     duplicate d dup -> bindable dup = true -> regular novel -> ~ duplicate d novel ->
     exists pid, j_id novel = Some pid /\
       insert_batch d [JObject dup; JObject novel]
       = (Ok 1, commit (appended d pid novel))) /\
  (forall d data h, regular data -> ~ duplicate d data -> j_md5 data = Some h ->
     exists pid, j_id data = Some pid /\
       insert_batch d [JObject data; JObject data]
       = (Ok 1, commit (appended d pid data))).
Proof.
  split; [exact insert_post_duplicate|]. split; [|split; [|split]].
  - intros d data Hr Hn. apply insert_post_accepted; [apply Hr|].
    intros H. by apply Hn, regular_rejected.
  - intros d batch HF.
    destruct (insert_loop_each batch 0 d d HF (same_tables_refl d))
      as (m & d1 & d2 & H1 & H2 & H3 & H4).
    destruct (insert_loop_grows (map JObject batch) 0 d) as (new & Hp & _ & _ & _ & Hc).
    rewrite H1 in Hp, Hc. simpl in Hp. specialize (Hc m eq_refl).
    exists m. rewrite (insert_batch_Ok _ _ _ _ H1), H2. simpl.
    split; [done|]. split; [done|]. split; [done|]. split; [by rewrite H4|].
    rewrite Hp, length_app. lia.
  - intros d dup novel Hd Hb Hr Hn.
    assert (Hn' : ~ rejected d novel) by (intros H; by apply Hn, regular_rejected).
    destruct (insert_row_Some _ _ (proj2 (proj2 Hr)) Hn') as (pid & Hp & Hi).
    exists pid. split; [done|]. apply duplicate_rejected, insert_row_None in Hd; [|done].
    unfold insert_batch. cbn [insert_loop]. by rewrite Hd, Hi.
  - intros d data h Hr Hn Hh.
    assert (Hn' : ~ rejected d data) by (intros H; by apply Hn, regular_rejected).
    destruct (insert_row_Some _ _ (proj2 (proj2 Hr)) Hn') as (pid & Hp & Hi).
    exists pid. split; [done|].
    assert (Hr' : rejected (appended d pid data) data).
    { right. exists h. split; [done|]. exists (new_row (next_id d) pid data).
      split; [|done]. simpl. apply in_or_app. right. by left. }
    apply insert_row_None in Hr'; [|apply Hr].
    unfold insert_batch. cbn [insert_loop]. by rewrite Hi, Hr'.
Qed.

(** A witness of C5: the store that holds the hash [abc] refuses a second
    record with it and accepts the record with the hash [def]; the two in
    one batch give 1. *)
Lemma insert_semantics_witness :
  insert_post (store_of [sample_post (Some 1) (Some (py "abc")) None None])
    (JObject (sample_post (Some 2) (Some (py "abc")) None None))
  = (Ok false, store_of [sample_post (Some 1) (Some (py "abc")) None None]) /\
  (exists pid, j_id (sample_post (Some 3) (Some (py "def")) None None) = Some pid /\
     insert_post (store_of [sample_post (Some 1) (Some (py "abc")) None None])
       (JObject (sample_post (Some 3) (Some (py "def")) None None))
     = (Ok true,
        commit (appended (store_of [sample_post (Some 1) (Some (py "abc")) None None]) pid
                  (sample_post (Some 3) (Some (py "def")) None None)))) /\
  (exists pid, j_id (sample_post (Some 3) (Some (py "def")) None None) = Some pid /\
     insert_batch (store_of [sample_post (Some 1) (Some (py "abc")) None None])
       [JObject (sample_post (Some 2) (Some (py "abc")) None None);
        JObject (sample_post (Some 3) (Some (py "def")) None None)]
     = (Ok 1,
        commit (appended (store_of [sample_post (Some 1) (Some (py "abc")) None None]) pid
                  (sample_post (Some 3) (Some (py "def")) None None)))).
Proof.
  set (d := store_of [sample_post (Some 1) (Some (py "abc")) None None]).
  assert (Hd : duplicate d (sample_post (Some 2) (Some (py "abc")) None None)).
  { exists (py "abc"). split; [done|]. split; [done|].
    exists (new_row 1 1 (sample_post (Some 1) (Some (py "abc")) None None)).
    split; [by left|done]. }
  assert (Hr : regular (sample_post (Some 3) (Some (py "def")) None None)) by done.
  assert (Hn : ~ duplicate d (sample_post (Some 3) (Some (py "def")) None None)).
  { intros (h & [= <-] & _ & r & [<-|[]] & Hm). discriminate Hm. }
  split; [|split].
  - exact (proj1 insert_semantics _ _ Hd).
  - exact (proj1 (proj2 insert_semantics) _ _ Hr Hn).
  - exact (proj1 (proj2 (proj2 (proj2 insert_semantics))) _ _ _ Hd eq_refl Hr Hn).
Defined.

(** C5, as the specification words it, fails: no stored row holds the hash
    [abc], yet [insert_post] does not return [True] for the record with the
    [id] [2^63]: the integer cannot be bound, [OverflowError] leaves the
    function and nothing is stored.  In a batch such a record ends the loop:
    the novel record after it is not inserted and nothing is committed. *)
Lemma insert_post_overflow_counterexample :
  posts empty_db = [] /\
  insert_post empty_db (JObject (sample_post (Some (2 ^ 63)) (Some (py "abc")) None None))
  = (Raise OverflowError, empty_db) /\
  insert_batch (store_of [sample_post (Some 1) (Some (py "abc")) None None])
    [JObject (sample_post (Some (2 ^ 63)) (Some (py "abc")) None None);
     JObject (sample_post (Some 3) (Some (py "def")) None None)]
  = (Raise OverflowError, store_of [sample_post (Some 1) (Some (py "abc")) None None]).
Proof. by vm_compute. Qed.

(** C6 (as amended): no two rows hold the same non-empty hash, in the new
    database and after every operation that writes, whether it returns or
    raises, a whole ingestion run included; a record without a hash is
    accepted when it has an [id] and its integers fit in 64 signed bits, and
    any number of such records are all inserted; and the operations only
    append rows, they never change or remove one. *)
Theorem store_invariant :
  unique_hashes empty_db /\
  (forall d data, unique_hashes d -> unique_hashes (snd (insert_post d data))) /\
  (forall d batch, unique_hashes d -> unique_hashes (snd (insert_batch d batch))) /\
  (forall d f h, unique_hashes d -> unique_hashes (mark_file_processed d f h)) /\
  (forall d data,
     j_md5 data = None -> j_id data <> None -> bindable data = true ->
     exists pid, j_id data = Some pid /\
       insert_post d (JObject data) = (Ok true, commit (appended d pid data))) /\
  (forall d batch,
     Forall (fun data => j_md5 data = None /\ j_id data <> None /\ bindable data = true)
            batch ->
     fst (insert_batch d (map JObject batch)) = Ok (Z.of_nat (length batch)) /\
     length (posts (snd (insert_batch d (map JObject batch)))) =
       (length (posts d) + length batch)%nat /\
     forall r, In r (posts (snd (insert_batch d (map JObject batch)))) ->
       In r (posts d) \/ md5 r = None) /\
  (forall d data, exists new, posts (snd (insert_post d data)) = posts d ++ new) /\
  (forall d batch, exists new, posts (snd (insert_batch d batch)) = posts d ++ new) /\
  (forall d f h, posts (mark_file_processed d f h) = posts d) /\
  (forall json_loads w ds,
     (unique_hashes (db_ ds) ->
      unique_hashes (db_ (download_and_process json_loads w ds))) /\
     exists new, posts (db_ (download_and_process json_loads w ds)) = posts (db_ ds) ++ new).
Proof.
  split; [by intros h [|?] [|?] ? ?|].
  split; [exact unique_insert_post|]. split; [exact unique_insert_batch|].
  split; [intros d f h; by apply unique_hashes_posts|].
  split; [|split; [|split; [exact insert_post_grows|
    split; [exact insert_batch_grows|split; [done|exact grows_download_and_process]]]]].
  - intros d data Hm Hi Hb. apply insert_post_accepted; [done|].
    intros [?|(h & ? & _)]; congruence.
  - intros d batch HF. rewrite insert_batch_fst, insert_batch_posts.
    destruct (hashless_loop batch 0 d HF) as (H1 & H2 & H3). by rewrite H1.
Qed.

(** A witness of C6: three records without a hash, all with the [id] 5, go
    into the store of the two sample posts. *)
Lemma store_invariant_witness :
  fst (insert_batch two_posts
         (map JObject (replicate 3 (sample_post (Some 5) None None None)))) = Ok 3 /\
  length (posts (snd (insert_batch two_posts
                        (map JObject (replicate 3 (sample_post (Some 5) None None None))))))
  = 5%nat.
Proof.
  destruct (proj1 (proj2 (proj2 (proj2 (proj2 (proj2 store_invariant))))) two_posts
              (replicate 3 (sample_post (Some 5) None None None))) as (H1 & H2 & _).
  - repeat constructor; discriminate.
  - split; [exact H1|exact H2].
Defined.

(** C6, as the specification words it, fails: the record with the [id]
    [2^63] and no hash is not accepted, alone or in a batch: the integer
    cannot be bound and [OverflowError] leaves the function. *)
Lemma hashless_overflow_counterexample :
  j_md5 (sample_post (Some (2 ^ 63)) None None None) = None /\
  insert_post empty_db (JObject (sample_post (Some (2 ^ 63)) None None None))
  = (Raise OverflowError, empty_db) /\
  insert_batch empty_db [JObject (sample_post (Some (2 ^ 63)) None None None)]
  = (Raise OverflowError, empty_db).
Proof. by vm_compute. Qed.

Section IngestFacts.

Lemma is_file_processed_mark d filename h :
  is_file_processed (mark_file_processed d filename h) filename = true.
Proof.
  unfold is_file_processed, mark_file_processed. simpl.
  by rewrite lookup_insert_eq.
Qed.

(** Once the URL is built, the file is marked whatever the request and the
    stream do. *)
Lemma process_file_marks json_loads w ds filename file :
  file <> UrlError ->
  is_file_processed (db_ (process_file json_loads w ds filename file)) filename = true.
Proof.
  intros Hf. unfold process_file.
  destruct file as [| |r]; [done| |];
    destruct (_stream_process_file _ _ _ _ _) as [n ds']; simpl;
    apply is_file_processed_mark.
Qed.

End IngestFacts.

(** C1 (what the code does): [_stream_process_file] returns after the
    [break] as it does at the end of the stream, and [download_and_process]
    marks the file; the rows stored before stay.  In the sample run the flag
    is seen set at the second chunk, the third time it is looked at: the two
    records of the first chunk are stored, the file is in the ledger, and
    the next run, which nobody cancels, has nothing to process, so the third
    record is never stored; the run that is not cancelled stores all
    three. *)
Theorem cancelled_file_is_marked :
  (forall json_loads w ds filename r,
     is_file_processed
       (db_ (process_file json_loads w ds filename (Stream r))) filename = true /\
     exists new,
       posts (db_ (process_file json_loads w ds filename (Stream r)))
       = posts (db_ ds) ++ new) /\
  (let run := download_and_process line_loads (one_file (Some 2%nat))
                (new_downloader empty_db None) in
   polls run = 3%nat /\
   total_posts_added run = 2 /\
   map post_id (posts (db_ run)) = [1; 2] /\
   is_file_processed (db_ run) (py "a.jsonl") = true /\
   let again := download_and_process line_loads (one_file None)
                  (new_downloader (db_ run) None) in
   polls again = 0%nat /\ map post_id (posts (db_ again)) = [1; 2]) /\
  (let run := download_and_process line_loads (one_file None)
                (new_downloader empty_db None) in
   map post_id (posts (db_ run)) = [1; 2; 3]).
Proof.
  split; [|by vm_compute]. intros json_loads w ds filename r.
  split; [by apply process_file_marks|].
  apply (grows_process_file json_loads w ds filename (Stream r)).
Qed.

(** C4 (what the code does): a failed request is caught and printed inside
    [_stream_process_file], which returns 0, so [download_and_process] marks
    the file as it marks a file it has read; only an exception that reaches
    its own handler, as from [hf_hub_url], leaves the file unmarked.  In the
    sample run the request for [a.jsonl] fails: the run goes on to
    [b.jsonl], both files are in the ledger, and the next run has nothing to
    process.  A stream that breaks after its first chunk is marked too, and
    the records read so far are not stored. *)
Theorem failed_fetch_is_marked :
  (forall json_loads w ds filename,
     let after := process_file json_loads w ds filename FetchError in
     is_file_processed (db_ after) filename = true /\
     posts (db_ after) = posts (db_ ds) /\
     processed_files_ after = S (processed_files_ ds) /\
     log after = log ds ++ [StreamError filename]) /\
  (forall json_loads w ds filename,
     let after := process_file json_loads w ds filename UrlError in
     db_ after = db_ ds /\
     processed_files_ after = processed_files_ ds /\
     log after = log ds ++ [ErrorProcessing filename]) /\
  (let run := download_and_process line_loads failing_then_good
                (new_downloader empty_db (Some 3%nat)) in
   log run = [StreamError (py "a.jsonl")] /\
   is_file_processed (db_ run) (py "a.jsonl") = true /\
   is_file_processed (db_ run) (py "b.jsonl") = true /\
   map post_id (posts (db_ run)) = [1] /\
   let again := download_and_process line_loads failing_then_good
                  (new_downloader (db_ run) (Some 3%nat)) in
   polls again = 0%nat /\ db_ again = db_ run) /\
  (let run := download_and_process line_loads broken_file
                (new_downloader empty_db (Some 3%nat)) in
   log run = [StreamError (py "a.jsonl")] /\
   is_file_processed (db_ run) (py "a.jsonl") = true /\
   posts (db_ run) = []).
Proof.
  split; [|split; [done|]].
  - intros json_loads w ds filename. simpl. split; [|done].
    apply is_file_processed_mark.
  - by vm_compute.
Qed.

Section DecimalFacts.

Lemma digits_acc_pos d p :
  digits_acc true (Z.pos p) (digits_of d) = Some (Z.pos (Pos.of_uint_acc d p)).
Proof.
  revert p. induction d; intros p; unfold digits_of in *; simpl; try done;
    match goal with
    | |- digits_acc true ?k _ = Some (Z.pos (Pos.of_uint_acc _ ?q)) =>
        replace k with (Z.pos q) by (unfold digit_val; simpl; lia); apply IHd
    end.
Qed.

Lemma digits_acc_zero d :
  digits_acc true 0 (digits_of d) = Some (Z.of_N (Pos.of_uint d)).
Proof.
  induction d; unfold digits_of in *; simpl; try done;
    match goal with
    | |- digits_acc true ?k _ = Some (Z.pos (Pos.of_uint_acc _ ?p)) =>
        change k with (Z.pos p); apply digits_acc_pos
    end.
Qed.

Lemma digits_acc_uint d :
  d <> Decimal.Nil -> digits_acc false 0 (digits_of d) = Some (Z.of_uint d).
Proof.
  intros Hd. unfold Z.of_uint. destruct d; [done|..]; unfold digits_of; simpl;
    first [apply digits_acc_zero
          | match goal with
            | |- digits_acc true ?k _ = Some (Z.pos (Pos.of_uint_acc _ ?p)) =>
                change k with (Z.pos p); apply digits_acc_pos
            end].
Qed.

Lemma digits_of_digit d : Forall (fun c => is_digit c = true) (digits_of d).
Proof. induction d; unfold digits_of in *; simpl; by constructor. Qed.

Lemma str_of_int_cases n :
  exists d, d <> Decimal.Nil /\ Z.of_uint d = Z.abs n /\
    str_of_int n = (if Z.ltb n 0 then ["-"] else []) ++ digits_of d.
Proof.
  unfold str_of_int, py. destruct n as [|p|p]; simpl.
  - exists (Decimal.D0 Decimal.Nil). by repeat split.
  - exists (Pos.to_uint p). split; [apply Unsigned.to_uint_nonnil|]. split.
    + pose proof (DecimalZ.of_to (Z.pos p)) as H. by simpl in H.
    + unfold NilZero.string_of_uint, digits_of.
      pose proof (Unsigned.to_uint_nonnil p). by destruct (Pos.to_uint p).
  - exists (Pos.to_uint p). split; [apply Unsigned.to_uint_nonnil|]. split.
    + pose proof (DecimalZ.of_to (Z.neg p)) as H. simpl in H. lia.
    + unfold NilZero.string_of_uint, digits_of.
      pose proof (Unsigned.to_uint_nonnil p). by destruct (Pos.to_uint p).
Qed.

Lemma lstrip_id s : Forall (fun c => is_space c = false) s -> lstrip s = s.
Proof. intros H. destruct H as [|c s Hc _]; simpl; [done|]. by rewrite Hc. Qed.

Lemma strip_id s : Forall (fun c => is_space c = false) s -> strip s = s.
Proof.
  intros H. unfold strip. rewrite (lstrip_id s H).
  rewrite lstrip_id; [apply rev_involutive|]. by apply Forall_rev.
Qed.

Lemma not_space_not_c_space c : is_space c = false -> is_c_space c = false.
Proof.
  unfold is_space, is_c_space. intros H. apply orb_false_iff in H as [H1 H2].
  rewrite H1. cbn [orb]. apply andb_false_iff in H2. apply N.eqb_neq. intros E.
  rewrite E in H2. by destruct H2.
Qed.

Lemma c_lstrip_id s : Forall (fun c => is_space c = false) s -> c_lstrip s = s.
Proof.
  intros H. destruct H as [|c s Hc _]; simpl; [done|].
  by rewrite (not_space_not_c_space c Hc).
Qed.

Lemma c_strip_id s : Forall (fun c => is_space c = false) s -> c_strip s = s.
Proof.
  intros H. unfold c_strip. rewrite (c_lstrip_id s H).
  rewrite c_lstrip_id; [apply rev_involutive|]. by apply Forall_rev.
Qed.

Lemma digit_not_space c : is_digit c = true -> is_space c = false.
Proof.
  unfold is_digit, is_space. intros H.
  apply andb_true_iff in H as [H1 H2]. apply N.leb_le in H1, H2.
  apply orb_false_iff. split; apply andb_false_iff.
  - right. apply N.leb_gt. lia.
  - right. apply N.leb_gt. lia.
Qed.

Lemma str_of_int_no_space n : Forall (fun c => is_space c = false) (str_of_int n).
Proof.
  destruct (str_of_int_cases n) as (d & _ & _ & ->).
  apply Forall_app. split.
  - destruct (Z.ltb n 0); by repeat constructor.
  - eapply Forall_impl; [apply digits_of_digit|]. apply digit_not_space.
Qed.

(** The head of a decimal number is a digit. *)
Lemma digits_of_head d :
  d <> Decimal.Nil -> exists c s, digits_of d = c :: s /\ is_digit c = true.
Proof.
  intros Hd. pose proof (digits_of_digit d) as H.
  destruct d; [done|..]; unfold digits_of in *; simpl in *;
    inversion H; subst; eauto.
Qed.

Lemma signed_digits body d :
  d <> Decimal.Nil -> signed body (digits_of d) = body (digits_of d).
Proof.
  intros Hd. destruct d; [done|..]; reflexivity.
Qed.

(** [int] reads back what the format of an integer writes. *)
Lemma py_int_str_of_int n : py_int (str_of_int n) = Some n.
Proof.
  unfold py_int. rewrite c_strip_id by apply str_of_int_no_space.
  destruct (str_of_int_cases n) as (d & Hd & Hv & ->).
  destruct (Z.ltb_spec n 0) as [Hn|Hn]; simpl.
  - rewrite digits_acc_uint by done. simpl. f_equal. lia.
  - rewrite signed_digits, digits_acc_uint by done. f_equal. lia.
Qed.

(** An integer starts with a digit or the sign, so with no operator. *)
Lemma str_of_int_head n :
  exists c s, str_of_int n = c :: s /\ (is_digit c = true \/ c = "-").
Proof.
  destruct (str_of_int_cases n) as (d & Hd & _ & ->).
  destruct (Z.ltb n 0); simpl.
  - exists "-", (digits_of d). by split; [|right].
  - destruct (digits_of_head d Hd) as (c & s & -> & Hc). exists c, s. by split; [|left].
Qed.

Lemma str_of_int_last n :
  exists s c, str_of_int n = s ++ [c] /\ is_digit c = true.
Proof.
  destruct (str_of_int_cases n) as (d & Hd & _ & ->).
  pose proof (digits_of_digit d) as HF.
  destruct (digits_of_head d Hd) as (c0 & s0 & E & _).
  destruct (exists_last (l := digits_of d)) as (s & c & E'); [by rewrite E|].
  rewrite E' in *. exists ((if Z.ltb n 0 then ["-"] else []) ++ s), c.
  split; [by rewrite app_assoc|].
  apply Forall_app in HF as [_ HF]. by inversion HF.
Qed.

End DecimalFacts.

Section TermFacts.

(** A text without quotes and blanks is its own single token. *)
Lemma parse_word w :
  w <> [] -> Forall (fun c => is_quote c = false /\ is_blank c = false) w ->
  _parse_search_query w = [w].
Proof.
  intros Hw HF. unfold _parse_search_query. rewrite scan_word by done.
  unfold scan_finish. simpl. by destruct w.
Qed.

(** A query without OR-group whose conditions bind returns the rows that
    satisfy them. *)
Lemma search_posts_bound d q limit b bs :
  truthy q = true ->
  search_terms build_start (_parse_search_query q) = Ok b ->
  or_tags b = [] ->
  bind_all (sql b) (params b) = Some (bs, []) ->
  search_posts d (Some q) limit =
    if forallb bound_int64 bs && int64 limit then Ok (rows_where d bs limit)
    else Raise OverflowError.
Proof.
  intros Hq Hb Hor Hbind. unfold search_posts, compile. rewrite Hq, Hb.
  unfold handle_or_tags. rewrite Hor. unfold execute_select.
  pose proof (bind_all_app (sql b) [] (params b) [PInt limit] bs Hbind) as H.
  rewrite app_nil_r in H. rewrite H. simpl. by rewrite app_nil_r.
Qed.

Lemma rows_where_In d bs x :
  In x (rows_where d bs (-1)) <->
  exists r, In r (posts d) /\ where_ bs r = true /\ x = selected r.
Proof.
  unfold rows_where, limit_rows. simpl. rewrite in_map_iff. split.
  - intros (r & <- & Hr). exists r. apply (proj1 (order_by_In _ _)) in Hr.
    apply list_elem_of_In, list_elem_of_filter in Hr as [Hw Hr].
    split; [by apply list_elem_of_In|]. split; [by apply Is_true_true|done].
  - intros (r & Hr & Hw & ->). exists r. split; [done|].
    apply (proj2 (order_by_In _ _)).
    apply list_elem_of_In, list_elem_of_filter. split; [by apply Is_true_true|].
    by apply list_elem_of_In.
Qed.

Lemma compare_satisfies o x n : compare o x n = true <-> satisfies o x n.
Proof.
  destruct o; simpl; [apply Z.eqb_eq|apply Z.leb_le|apply Z.leb_le|
                      apply Z.ltb_lt|apply Z.ltb_lt].
Qed.

Lemma head_not_operator c :
  is_digit c = true \/ c = "-" ->
  chr_eqb ">" c = false /\ chr_eqb "<" c = false /\ chr_eqb "=" c = false.
Proof.
  intros H. repeat split; apply chr_eqb_neq; intros <-;
    destruct H as [H|H]; by vm_compute in H.
Qed.

(** An integer after an operator is read back by [_add_numeric_condition]. *)
Lemma add_numeric_op b col o n :
  add_numeric b col (VStr (op_text o ++ str_of_int n)) =
  Ok {| sql := sql b ++ [NumCmp col o]; params := params b ++ [PInt n];
        or_tags := or_tags b |}.
Proof.
  unfold add_numeric, _add_numeric_condition, append_int.
  destruct (str_of_int_head n) as (c & s & E & Hc).
  destruct (head_not_operator c Hc) as (Hg & Hl & He).
  pose proof (py_int_str_of_int n) as Hi.
  destruct o; cbn [op_text].
  - rewrite app_nil_l, E.
    replace (startswith (py ">=") (c :: s)) with false
      by (change (false = chr_eqb ">" c && startswith (py "=") s); by rewrite Hg).
    replace (startswith (py "<=") (c :: s)) with false
      by (change (false = chr_eqb "<" c && startswith (py "=") s); by rewrite Hl).
    replace (startswith (py ">") (c :: s)) with false
      by (change (false = chr_eqb ">" c && true); by rewrite Hg).
    replace (startswith (py "<") (c :: s)) with false
      by (change (false = chr_eqb "<" c && true); by rewrite Hl).
    rewrite <- E. by rewrite Hi.
  - replace (startswith (py ">=") (py ">=" ++ str_of_int n)) with true by reflexivity.
    replace (slice_from 2 (py ">=" ++ str_of_int n)) with (str_of_int n) by reflexivity.
    by rewrite Hi.
  - replace (startswith (py ">=") (py "<=" ++ str_of_int n)) with false by reflexivity.
    replace (startswith (py "<=") (py "<=" ++ str_of_int n)) with true by reflexivity.
    replace (slice_from 2 (py "<=" ++ str_of_int n)) with (str_of_int n) by reflexivity.
    by rewrite Hi.
  - replace (startswith (py ">=") (py ">" ++ str_of_int n)) with false
      by (rewrite E; change (false = true && (chr_eqb "=" c && true)); by rewrite He).
    replace (startswith (py "<=") (py ">" ++ str_of_int n)) with false by reflexivity.
    replace (startswith (py ">") (py ">" ++ str_of_int n)) with true by reflexivity.
    replace (slice_from 1 (py ">" ++ str_of_int n)) with (str_of_int n) by reflexivity.
    by rewrite Hi.
  - replace (startswith (py ">=") (py "<" ++ str_of_int n)) with false by reflexivity.
    replace (startswith (py "<=") (py "<" ++ str_of_int n)) with false
      by (rewrite E; change (false = true && (chr_eqb "=" c && true)); by rewrite He).
    replace (startswith (py ">") (py "<" ++ str_of_int n)) with false by reflexivity.
    replace (startswith (py "<") (py "<" ++ str_of_int n)) with true by reflexivity.
    replace (slice_from 1 (py "<" ++ str_of_int n)) with (str_of_int n) by reflexivity.
    by rewrite Hi.
Qed.

Lemma search_term_numeric b key col value :
  In (key, col) numeric_keys ->
  search_term b (py key ++ ":" :: value) = add_numeric b col (VStr value).
Proof.
  intros H. repeat (destruct H as [[= <- <-]|H]; [reflexivity|]). done.
Qed.

(** The characters of an operator and of an integer are plain text to the
    tokenizer. *)
Lemma op_int_no_quote_blank o n :
  Forall (fun c => is_quote c = false /\ is_blank c = false) (op_text o ++ str_of_int n).
Proof.
  apply Forall_app. split; [destruct o; by repeat constructor|].
  destruct (str_of_int_cases n) as (d & _ & _ & ->). apply Forall_app. split.
  - destruct (Z.ltb n 0); by repeat constructor.
  - eapply Forall_impl; [apply digits_of_digit|]. intros c Hc.
    split; apply chr_eqb_neq; intros ->; by vm_compute in Hc.
Qed.

End TermFacts.

(** X1: for every numeric key, comparison operator and integer [n], the
    term [key:<op><n>] adds the condition "column <op> n": when [n] and the
    limit fit in 64 signed bits the search returns, in its order and up to
    its limit, the rows whose column is not NULL and stands in that relation
    to [n]; when one of them does not fit, it raises [OverflowError]. *)
Theorem numeric_term_search d key col o n limit :
  In (key, col) numeric_keys ->
  search_posts d (Some (py key ++ ":" :: op_text o ++ str_of_int n)) limit
  = (if int64 n && int64 limit then Ok (rows_where d [BNumCmp col o n] limit)
     else Raise OverflowError) /\
  forall r, where_ [BNumCmp col o n] r = true <->
            exists x, column_value col r = Some x /\ satisfies o x n.
Proof.
  intros Hk. split.
  - rewrite (search_posts_bound _ _ _
               {| sql := [NumCmp col o]; params := [PInt n]; or_tags := [] |}
               [BNumCmp col o n]);
      [by cbn [forallb bound_int64]; rewrite andb_true_r|by destruct (py key)| |done|done].
    rewrite parse_word; [| by destruct (py key) |].
    + simpl. rewrite (search_term_numeric _ _ col) by done.
      by rewrite add_numeric_op.
    + change (py key ++ ":" :: op_text o ++ str_of_int n)
        with (py key ++ [":"] ++ (op_text o ++ str_of_int n)).
      apply Forall_app. split; [|apply Forall_app; split;
        [by repeat constructor|apply op_int_no_quote_blank]].
      repeat (destruct Hk as [[= <- <-]|Hk]; [by repeat constructor|]). done.
  - intros r. unfold where_. simpl. rewrite andb_true_r.
    destruct (column_value col r) as [x|].
    + rewrite compare_satisfies. split; [by exists x|]. by intros (? & [= <-] & ?).
    + split; [done|]. by intros (? & ? & _).
Qed.

(** A witness of X1: [score:>=10], and [score:>=2^63]. *)
Lemma numeric_term_search_witness :
  search_posts two_posts (Some (py "score" ++ ":" :: op_text op_ge ++ str_of_int 10))
    default_limit
  = Ok (rows_where two_posts [BNumCmp col_score op_ge 10] default_limit) /\
  search_posts two_posts (Some (py "score" ++ ":" :: op_text op_ge ++ str_of_int (2 ^ 63)))
    default_limit
  = Raise OverflowError.
Proof.
  split.
  - apply (numeric_term_search two_posts "score"%string col_score op_ge 10 default_limit).
    by left.
  - apply (numeric_term_search two_posts "score"%string col_score op_ge (2 ^ 63)
             default_limit).
    by left.
Defined.

Section FilesizeFacts.

Lemma num_chr_facts c :
  num_chr c = true ->
  is_space c = false /\ lower_chr c = c /\ is_quote c = false /\ is_blank c = false.
Proof.
  destruct c as [[] [] [] [] [] [] [] []]; vm_compute; intros H; try done.
Qed.

Lemma digit_num_chr c : is_digit c = true -> num_chr c = true.
Proof. unfold num_chr. by intros ->. Qed.

Lemma op_int_num_chr o n : Forall (fun c => num_chr c = true) (op_text o ++ str_of_int n).
Proof.
  apply Forall_app. split; [destruct o; by repeat constructor|].
  destruct (str_of_int_cases n) as (d & _ & _ & ->). apply Forall_app. split.
  - destruct (Z.ltb n 0); by repeat constructor.
  - eapply Forall_impl; [apply digits_of_digit|]. apply digit_num_chr.
Qed.

Lemma lower_id s : Forall (fun c => lower_chr c = c) s -> lower s = s.
Proof.
  induction 1 as [|c s Hc _ IH]; [done|]. unfold lower in *.
  cbn [map]. by rewrite Hc, IH.
Qed.


Lemma log2_bounds v : 0 < v < 2 ^ 53 -> 0 <= Z.log2 v <= 52 /\ 2 ^ Z.log2 v <= v.
Proof.
  intros [H1 H2]. pose proof (Z.log2_spec v H1) as [H3 H4].
  pose proof (Z.log2_nonneg v). split; [|done].
  split; [done|]. apply Z.log2_lt_pow2 in H2; lia.
Qed.

(** A positive integer below [2^53], given as a fraction over a power of
    two, is a double: nothing is rounded away. *)
Lemma round_exact v k :
  0 < v < 2 ^ 53 -> 0 <= k ->
  round_binary64 (v * 2 ^ k) (2 ^ k) = Some (v * 2 ^ (52 - Z.log2 v), Z.log2 v - 52).
Proof.
  intros Hv Hk. destruct (log2_bounds v Hv) as [HL Hp].
  assert (Hpk : 0 < 2 ^ k) by (apply Z.pow_pos_nonneg; lia).
  unfold round_binary64.
  destruct (Z.eqb_spec (v * 2 ^ k) 0) as [E|_]; [nia|].
  rewrite Z.log2_mul_pow2, Z.log2_pow2 by lia.
  replace (k + Z.log2 v - k) with (Z.log2 v) by lia.
  cbv zeta.
  destruct (Z.leb_spec 0 (Z.log2 v)) as [_|?]; [|lia].
  destruct (Z.ltb_spec (v * 2 ^ k) (2 ^ k * 2 ^ Z.log2 v)) as [?|_]; [nia|].
  rewrite Z.max_l by lia.
  set (q := Z.log2 v - 52).
  assert (Hq : 0 < 2 ^ (- q)) by (apply Z.pow_pos_nonneg; lia).
  replace (52 - Z.log2 v) with (- q) by lia.
  destruct (Z.ltb_spec q 0) as [Hq0|Hq0].
  - replace (v * 2 ^ k * 2 ^ (- q)) with (v * 2 ^ (- q) * 2 ^ k) by lia.
    rewrite Z.div_mul, Z.mod_mul by lia. change (2 * 0) with 0.
    destruct (Z.ltb_spec 0 (2 ^ k)) as [_|?]; [|lia].
    destruct (Z.leb_spec 0 q) as [?|_]; [lia|]. done.
  - assert (q = 0) as -> by lia. cbn [Z.opp]. rewrite ?Z.pow_0_r, ?Z.mul_1_r.
    rewrite Z.div_mul, Z.mod_mul by lia. change (2 * 0) with 0.
    destruct (Z.ltb_spec 0 (2 ^ k)) as [_|?]; [|lia].
    destruct (Z.leb_spec (2 ^ 1024) v) as [H|_]; [|done].
    exfalso. assert (2 ^ 53 < 2 ^ 1024) by (apply Z.pow_lt_mono_r; lia). lia.
Qed.

Lemma round_zero den : round_binary64 0 den = Some (0, 0).
Proof. done. Qed.

Lemma digit_not_letter c x :
  is_digit c = true -> is_digit x = false -> chr_eqb c x = false.
Proof. intros Hc Hx. apply chr_eqb_neq. intros ->. congruence. Qed.

Lemma split_exp_digits s :
  Forall (fun c => is_digit c = true) s -> split_exp s = (s, None).
Proof.
  induction 1 as [|c s Hc _ IH]; [done|]. cbn [split_exp].
  rewrite (digit_not_letter c "e"), (digit_not_letter c "E") by done.
  cbn [orb]. by rewrite IH.
Qed.

Lemma contains_chr_digits x s :
  is_digit x = false -> Forall (fun c => is_digit c = true) s -> contains_chr x s = false.
Proof.
  intros Hx. induction 1 as [|c s Hc _ IH]; [done|]. unfold contains_chr in *.
  cbn [existsb]. rewrite IH, orb_false_r. apply chr_eqb_neq. intros ->. congruence.
Qed.

Lemma digit_lower c : is_digit c = true -> lower_chr c = c.
Proof. intros Hc. by destruct (num_chr_facts c (digit_num_chr c Hc)) as (_ & ? & _). Qed.

(** [float] reads a decimal number without point and exponent as the double
    nearest to it. *)
Lemma unsigned_float_digits d :
  d <> Decimal.Nil ->
  unsigned_float (digits_of d) = Some (finite false (round_binary64 (Z.of_uint d) 1)).
Proof.
  intros Hd. pose proof (digits_of_digit d) as HF.
  destruct (digits_of_head d Hd) as (c & s & E & Hc).
  unfold unsigned_float.
  assert (Hl : lower (digits_of d) = digits_of d).
  { apply lower_id. eapply Forall_impl; [exact HF|]. apply digit_lower. }
  rewrite Hl.
  assert (Hn : forall x t, is_digit x = false -> str_eqb (digits_of d) (x :: t) = false).
  { intros x t Hx. rewrite E. cbn [str_eqb]. by rewrite (digit_not_letter c x). }
  rewrite (Hn "i" (py "nf") eq_refl : str_eqb (digits_of d) (py "inf") = false).
  rewrite (Hn "i" (py "nfinity") eq_refl : str_eqb (digits_of d) (py "infinity") = false).
  rewrite (Hn "n" (py "an") eq_refl : str_eqb (digits_of d) (py "nan") = false).
  cbn [orb]. rewrite split_exp_digits by done. unfold mantissa.
  rewrite (contains_chr_digits ".") by done.
  rewrite E at 1. rewrite digits_acc_uint by done.
  cbn [frac_digits]. rewrite E. cbn [mbind option_bind Z.of_nat].
  change (0 - 0)%Z with 0%Z. change (0 <=? 0)%Z with true. cbn iota.
  by rewrite Z.pow_0_r, !Z.mul_1_r, Z.add_0_r.
Qed.

Lemma sign_free c s :
  c <> "+" -> c <> "-" ->
  match c :: s with
  | "+" :: s' => unsigned_float s'
  | "-" :: s' => fneg <$> unsigned_float s'
  | s' => unsigned_float s'
  end = unsigned_float (c :: s).
Proof. intros Hp Hm. by destruct c as [[] [] [] [] [] [] [] []]. Qed.

Lemma py_float_str_of_int n :
  py_float (str_of_int n) =
  Some (match n with
        | Z0 => FFin false 0 0
        | _ => finite (Z.ltb n 0) (round_binary64 (Z.abs n) 1)
        end).
Proof.
  unfold py_float. rewrite c_strip_id by apply str_of_int_no_space.
  destruct (str_of_int_cases n) as (d & Hd & Hv & ->).
  destruct (Z.ltb_spec n 0) as [Hn|Hn]; cbn [app].
  - rewrite unsigned_float_digits, Hv by done. destruct n; try lia.
    cbn [fmap option_fmap option_map]. f_equal.
    by destruct (round_binary64 (Z.abs (Z.neg p)) 1) as [[m e]|].
  - destruct (digits_of_head d Hd) as (c & s & E & Hc).
    assert (Hp : chr_eqb c "+" = false) by by apply digit_not_letter.
    assert (Hm : chr_eqb c "-" = false) by by apply digit_not_letter.
    apply chr_eqb_neq in Hp, Hm.
    rewrite E, (sign_free c s Hp Hm), <- E, unsigned_float_digits, Hv by done.
    destruct n; [done| |lia]. done.
Qed.

(** The product of such a number with one is the number. *)
Lemma py_float_times_one n :
  Z.abs n < 2 ^ 53 -> py_int_float_times (str_of_int n) 1 = Ok (Some n).
Proof.
  intros Hn. unfold py_int_float_times. rewrite py_float_str_of_int.
  change (float_of_int 1) with (Some (FFin false (2 ^ 52) (-52))).
  destruct (Z.eq_dec n 0) as [->|Hz]; [done|].
  assert (Hv : 0 < Z.abs n < 2 ^ 53) by lia.
  destruct (log2_bounds _ Hv) as [HL Hp].
  pose proof (round_exact (Z.abs n) 0 Hv (Z.le_refl 0)) as H0.
  rewrite Z.pow_0_r, Z.mul_1_r in H0.
  replace (match n with
           | Z0 => FFin false 0 0
           | _ => finite (Z.ltb n 0) (round_binary64 (Z.abs n) 1)
           end) with (finite (Z.ltb n 0) (round_binary64 (Z.abs n) 1)) by by destruct n.
  rewrite H0. cbn [finite fmul].
  set (L := Z.log2 (Z.abs n)) in *.
  destruct (Z.leb_spec 0 (L - 52 + -52)) as [?|_]; [lia|].
  replace (Z.abs n * 2 ^ (52 - L) * 2 ^ 52) with (Z.abs n * 2 ^ (104 - L))
    by (rewrite <- Z.mul_assoc, <- Z.pow_add_r by lia; do 2 f_equal; lia).
  replace (- (L - 52 + -52)) with (104 - L) by lia.
  rewrite round_exact by lia. fold L. cbn [finite int_of_float].
  assert (Hq : 0 < 2 ^ (52 - L)) by (apply Z.pow_pos_nonneg; lia).
  rewrite xorb_false_r. do 2 f_equal.
  assert (Ha : (if Z.leb 0 (L - 52) then Z.abs n * 2 ^ (52 - L) * 2 ^ (L - 52)
                else Z.abs n * 2 ^ (52 - L) / 2 ^ (- (L - 52))) = Z.abs n).
  { destruct (Z.leb_spec 0 (L - 52)) as [H|H].
    - replace (52 - L) with 0 by lia. replace (L - 52) with 0 by lia.
      rewrite Z.pow_0_r. lia.
    - replace (- (L - 52)) with (52 - L) by lia. apply Z.div_mul. lia. }
  rewrite Ha. destruct (Z.ltb_spec n 0); lia.
Qed.

(** The tests on the head of the value select the operator and leave the
    number. *)
Lemma op_dispatch {A} o n (f : cmp_op -> str -> A) :
  (if startswith (py ">=") (op_text o ++ str_of_int n)
   then f op_ge (slice_from 2 (op_text o ++ str_of_int n))
   else if startswith (py "<=") (op_text o ++ str_of_int n)
   then f op_le (slice_from 2 (op_text o ++ str_of_int n))
   else if startswith (py ">") (op_text o ++ str_of_int n)
   then f op_gt (slice_from 1 (op_text o ++ str_of_int n))
   else if startswith (py "<") (op_text o ++ str_of_int n)
   then f op_lt (slice_from 1 (op_text o ++ str_of_int n))
   else f op_eq (op_text o ++ str_of_int n)) = f o (str_of_int n).
Proof.
  destruct (str_of_int_head n) as (c & s & E & Hc).
  destruct (head_not_operator c Hc) as (Hg & Hl & He).
  destruct o; cbn [op_text].
  - rewrite app_nil_l, E.
    replace (startswith (py ">=") (c :: s)) with false
      by (change (false = chr_eqb ">" c && startswith (py "=") s); by rewrite Hg).
    replace (startswith (py "<=") (c :: s)) with false
      by (change (false = chr_eqb "<" c && startswith (py "=") s); by rewrite Hl).
    replace (startswith (py ">") (c :: s)) with false
      by (change (false = chr_eqb ">" c && true); by rewrite Hg).
    replace (startswith (py "<") (c :: s)) with false
      by (change (false = chr_eqb "<" c && true); by rewrite Hl).
    done.
  - by replace (startswith (py ">=") (py ">=" ++ str_of_int n)) with true by reflexivity.
  - replace (startswith (py ">=") (py "<=" ++ str_of_int n)) with false by reflexivity.
    by replace (startswith (py "<=") (py "<=" ++ str_of_int n)) with true by reflexivity.
  - replace (startswith (py ">=") (py ">" ++ str_of_int n)) with false
      by (rewrite E; change (false = true && (chr_eqb "=" c && true)); by rewrite He).
    replace (startswith (py "<=") (py ">" ++ str_of_int n)) with false by reflexivity.
    by replace (startswith (py ">") (py ">" ++ str_of_int n)) with true by reflexivity.
  - replace (startswith (py ">=") (py "<" ++ str_of_int n)) with false by reflexivity.
    replace (startswith (py "<=") (py "<" ++ str_of_int n)) with false
      by (rewrite E; change (false = true && (chr_eqb "=" c && true)); by rewrite He).
    replace (startswith (py ">") (py "<" ++ str_of_int n)) with false by reflexivity.
    by replace (startswith (py "<") (py "<" ++ str_of_int n)) with true by reflexivity.
Qed.

Lemma endswith_snoc suffix s c :
  endswith suffix (s ++ [c]) =
  match rev suffix with
  | [] => true
  | x :: p => chr_eqb x c && startswith p (rev s)
  end.
Proof. unfold endswith. rewrite rev_app_distr. simpl. by destruct (rev suffix). Qed.

(** A size without a unit is read by [int]. *)
Lemma parse_with_no_unit o n :
  parse_with multipliers (op_text o ++ str_of_int n) = Ok (Some (resolved o n)).
Proof.
  destruct (str_of_int_last n) as (s & c & E & Hc).
  assert (Hb : chr_eqb "b" c = false).
  { apply chr_eqb_neq. intros <-. by vm_compute in Hc. }
  unfold multipliers. cbn [parse_with].
  assert (He : forall suffix, In suffix [py "b"; py "kb"; py "mb"; py "gb"] ->
            endswith suffix (op_text o ++ str_of_int n) = false).
  { intros suffix H. rewrite E, app_assoc, endswith_snoc.
    repeat (destruct H as [<-|H];
            [simpl rev; cbn [startswith]; by rewrite Hb|]). done. }
  rewrite !He by (simpl; tauto). unfold parse_unsuffixed. f_equal.
  etransitivity;
    [apply (op_dispatch o n (fun o' t => (fun m => resolved o' m) <$> py_int t))|].
  by rewrite py_int_str_of_int.
Qed.

(** A size in bytes is read by [float] and multiplied by one. *)
Lemma parse_with_bytes o n :
  Z.abs n < 2 ^ 53 ->
  parse_with multipliers (op_text o ++ str_of_int n ++ py "b") = Ok (Some (resolved o n)).
Proof.
  intros Hn53. unfold multipliers. cbn [parse_with].
  assert (He : endswith (py "b") (op_text o ++ str_of_int n ++ py "b") = true).
  { change (py "b") with ["b"] at 2. by rewrite app_assoc, endswith_snoc. }
  rewrite He. unfold parse_suffixed.
  assert (Hn : slice_to_minus (length (py "b")) (op_text o ++ str_of_int n ++ py "b")
               = op_text o ++ str_of_int n).
  { unfold slice_to_minus. rewrite app_assoc, length_app. simpl.
    replace (length (op_text o ++ str_of_int n) + 1 - 1)%nat
      with (length (op_text o ++ str_of_int n)) by lia.
    by rewrite take_app_length. }
  rewrite Hn.
  etransitivity;
    [apply (op_dispatch o n
              (fun o' t => returned (fun m => resolved o' m) (py_int_float_times t 1)))|].
  by rewrite py_float_times_one.
Qed.

Lemma parse_filesize_bytes o n suffix :
  In suffix [[]; py "b"; py "B"] -> (suffix <> [] -> Z.abs n < 2 ^ 53) ->
  _parse_filesize (op_text o ++ str_of_int n ++ suffix) = Ok (Some (resolved o n)).
Proof.
  intros Hs Hn53. unfold _parse_filesize.
  assert (Hv : Forall (fun c => num_chr c = true) (op_text o ++ str_of_int n))
    by apply op_int_num_chr.
  assert (Hl : lower (op_text o ++ str_of_int n) = op_text o ++ str_of_int n).
  { apply lower_id. eapply Forall_impl; [exact Hv|]. intros c Hc.
    by destruct (num_chr_facts c Hc) as (_ & ? & _). }
  assert (Hsp : Forall (fun c => is_space c = false) (op_text o ++ str_of_int n)).
  { eapply Forall_impl; [exact Hv|]. intros c Hc.
    by destruct (num_chr_facts c Hc) as (? & _). }
  rewrite app_assoc. unfold lower. rewrite map_app. fold (lower (op_text o ++ str_of_int n)).
  rewrite Hl. destruct Hs as [<-|[<-|[<-|[]]]]; simpl map.
  - rewrite app_nil_r, strip_id by done. apply parse_with_no_unit.
  - rewrite strip_id by (apply Forall_app; split; [done|by repeat constructor]).
    rewrite <- app_assoc. apply parse_with_bytes, Hn53. discriminate.
  - change [lower_chr "B"] with (py "b").
    rewrite strip_id by (apply Forall_app; split; [done|by repeat constructor]).
    rewrite <- app_assoc. apply parse_with_bytes, Hn53. discriminate.
Qed.

Lemma add_numeric_resolved b col o n :
  add_numeric b col (resolved o n) =
  Ok {| sql := sql b ++ [NumCmp col o]; params := params b ++ [PInt n];
        or_tags := or_tags b |}.
Proof.
  destruct o; try apply (add_numeric_op b col _ n). reflexivity.
Qed.

Lemma search_term_filesize_key b key value :
  In key filesize_keys ->
  search_term b (py key ++ ":" :: value) =
  match _parse_filesize value with
  | Ok (Some size_bytes) => add_numeric b col_file_size size_bytes
  | Ok None => Ok b
  | Raise e => Raise e
  end.
Proof.
  intros H. repeat (destruct H as [<-|H]; [reflexivity|]). done.
Qed.

End FilesizeFacts.

(** X2: a file size given in bytes adds the condition "file_size <op> n"
    for every operator and integer [n]: without a unit for every [n], with
    the unit [b] or [B] for [n] below [2^53] in absolute value, since the
    number then goes through a [float].  When [n] and the limit fit in 64
    signed bits the search returns the rows whose [file_size] stands in that
    relation to [n]; when one of them does not fit, it raises
    [OverflowError].  From [2^53] on the [float] rounds: [9007199254740993b]
    is read as 9007199254740992. *)
Theorem filesize_bytes_search d key o n suffix limit :
  In key filesize_keys -> In suffix [[]; py "b"; py "B"] ->
  (suffix <> [] -> Z.abs n < 2 ^ 53) ->
  search_posts d (Some (py key ++ ":" :: op_text o ++ str_of_int n ++ suffix)) limit
  = (if int64 n && int64 limit
     then Ok (rows_where d [BNumCmp col_file_size o n] limit)
     else Raise OverflowError) /\
  _parse_filesize (py "9007199254740993b") = Ok (Some (VInt 9007199254740992)).
Proof.
  intros Hk Hs Hn. split; [|by vm_compute].
  rewrite (search_posts_bound _ _ _
             {| sql := [NumCmp col_file_size o]; params := [PInt n]; or_tags := [] |}
             [BNumCmp col_file_size o n]);
    [by cbn [forallb bound_int64]; rewrite andb_true_r|by destruct (py key)| |done|done].
  rewrite parse_word; [| by destruct (py key) |].
  - simpl. rewrite search_term_filesize_key, parse_filesize_bytes by done.
    by rewrite add_numeric_resolved.
  - change (py key ++ ":" :: op_text o ++ str_of_int n ++ suffix)
      with (py key ++ [":"] ++ (op_text o ++ str_of_int n ++ suffix)).
    apply Forall_app. split;
      [repeat (destruct Hk as [<-|Hk]; [by repeat constructor|]); done|].
    apply Forall_app. split; [by repeat constructor|].
    rewrite app_assoc. apply Forall_app. split.
    + eapply Forall_impl; [apply op_int_num_chr|]. intros c Hc.
      by destruct (num_chr_facts c Hc) as (_ & _ & ? & ?).
    + destruct Hs as [<-|[<-|[<-|[]]]]; by repeat constructor.
Qed.

(** A witness of X2: [filesize:>1048576b]. *)
Lemma filesize_bytes_search_witness :
  search_posts two_posts
    (Some (py "filesize" ++ ":" :: op_text op_gt ++ str_of_int 1048576 ++ py "b"))
    default_limit
  = Ok (rows_where two_posts [BNumCmp col_file_size op_gt 1048576] default_limit).
Proof.
  apply (filesize_bytes_search two_posts "filesize"%string op_gt 1048576 (py "b")
           default_limit); [simpl; tauto|simpl; tauto|].
  intros _. by vm_compute.
Defined.

Section WordFacts.

(** A blank after a word ends the word. *)
Lemma scan_blank_after_word ts w rest :
  w <> [] ->
  scan (" " :: rest) {| terms := ts; current_term := w; in_quotes := false |}
  = scan rest {| terms := ts ++ [w]; current_term := []; in_quotes := false |}.
Proof.
  intros Hw. unfold scan. cbn [fold_left]. f_equal. unfold scan_char.
  cbn [in_quotes current_term terms negb].
  change (chr_eqb " " dquote) with false. change (chr_eqb " " " ") with true.
  cbn [andb]. by destruct w.
Qed.

(** The scan of words joined by single blanks emits the words. *)
Lemma scan_join_blank ws st :
  in_quotes st = false -> current_term st = [] -> Forall bare_word ws ->
  scan_finish (scan (join_blank ws) st) = terms st ++ ws.
Proof.
  intros Hq Hc HF. revert st Hq Hc.
  induction HF as [|w ws [Hw HF1] HF IH]; intros [ts cur inq] Hq Hc;
    simpl in Hq, Hc; subst.
  - unfold scan_finish. simpl. by rewrite app_nil_r.
  - destruct ws as [|w2 ws].
    + unfold join_blank. cbn [join_chr]. rewrite scan_word by done.
      unfold scan_finish. simpl. by destruct w.
    + change (join_blank (w :: w2 :: ws)) with (w ++ " " :: join_blank (w2 :: ws)).
      rewrite scan_app. rewrite (scan_word w) by done.
      cbn [terms current_term in_quotes app].
      rewrite scan_blank_after_word by done.
      etransitivity;
        [apply (IH {| terms := ts ++ [w]; current_term := []; in_quotes := false |});
         done|].
      simpl. by rewrite <- app_assoc.
Qed.

Lemma join_blank_truthy ws : ws <> [] -> Forall bare_word ws -> truthy (join_blank ws) = true.
Proof.
  intros Hne HF. destruct HF as [|w ws [Hw _] _]; [done|].
  unfold join_blank. destruct w; [done|]. by destruct ws.
Qed.

Lemma ordinary_facts c :
  ordinary c = true ->
  is_quote c = false /\ is_blank c = false /\ chr_eqb ":" c = false /\
  chr_eqb "*" c = false /\ chr_eqb c "%" = false /\ chr_eqb c "_" = false.
Proof.
  destruct c as [[] [] [] [] [] [] [] []]; vm_compute; intros H; try done.
Qed.

Lemma tag_chr_facts c :
  tag_chr c = true ->
  is_quote c = false /\ is_blank c = false /\ chr_eqb ":" c = false /\
  chr_eqb "*" c = false.
Proof.
  destruct c as [[] [] [] [] [] [] [] []]; vm_compute; intros H; try done.
Qed.

Lemma tag_word_bare w : tag_word w -> bare_word w.
Proof.
  intros (Hw & HF & _). split; [done|]. eapply Forall_impl; [exact HF|].
  intros c Hc. by destruct (tag_chr_facts c Hc) as (? & ? & _).
Qed.

Lemma tag_word_no_chr w x :
  (forall c, tag_chr c = true -> chr_eqb x c = false) ->
  tag_word w -> contains_chr x w = false.
Proof.
  intros Hx (_ & HF & _). unfold contains_chr.
  induction HF as [|c w Hc _ IH]; simpl; [done|]. by rewrite (Hx c Hc).
Qed.

Lemma tag_word_no_colon w : tag_word w -> contains_chr ":" w = false.
Proof.
  apply tag_word_no_chr. intros c Hc. by destruct (tag_chr_facts c Hc) as (_ & _ & ? & _).
Qed.

Lemma tag_word_no_star w : tag_word w -> contains_chr "*" w = false.
Proof.
  apply tag_word_no_chr. intros c Hc.
  by destruct (tag_chr_facts c Hc) as (_ & _ & _ & ?).
Qed.

Lemma tag_term_bare t : tag_word t.2 -> bare_word (tag_term t).
Proof.
  destruct t as [neg w]. intros Hw. destruct (tag_word_bare w Hw) as [Hne HF].
  destruct neg; simpl; [|done]. split; [done|]. constructor; [done|exact HF].
Qed.

(** A tag, and a tag to exclude, add one [LIKE] condition each. *)
Lemma search_term_tag b t :
  tag_word t.2 ->
  search_term b (tag_term t) =
  Ok {| sql := sql b ++ [if t.1 then TagNotLike else TagLike];
        params := params b ++ [PText (percent t.2)]; or_tags := or_tags b |}.
Proof.
  destruct t as [neg w]. intros Hw. simpl in Hw. simpl fst. simpl snd.
  pose proof (tag_word_no_colon w Hw) as Hc. pose proof (tag_word_no_star w Hw) as Hs.
  destruct Hw as (Hne & HF & Ht & Hm). unfold search_term. destruct neg; simpl tag_term.
  - change (startswith (py "~") ("-" :: w)) with false.
    change (startswith (py "-") ("-" :: w)) with true.
    change (slice_from 1 ("-" :: w)) with w. cbn iota. by rewrite Hc.
  - by rewrite Ht, Hm, Hc, Hs.
Qed.

Lemma search_terms_tags b ts :
  Forall (fun t => tag_word t.2) ts ->
  search_terms b (map tag_term ts) =
  Ok {| sql := sql b ++ map (fun t : bool * str => if t.1 then TagNotLike else TagLike) ts;
        params := params b ++ map (fun t => PText (percent t.2)) ts;
        or_tags := or_tags b |}.
Proof.
  intros HF. revert b. induction HF as [|t ts Ht _ IH]; intros b.
  - simpl. rewrite !app_nil_r. by destruct b.
  - cbn [map search_terms]. rewrite search_term_tag by done. rewrite IH. simpl.
    by rewrite <- !app_assoc.
Qed.

Lemma bind_all_tags (ts : list (bool * str)) :
  bind_all (map (fun t : bool * str => if t.1 then TagNotLike else TagLike) ts)
           (map (fun t => PText (percent t.2)) ts)
  = Some (map tag_bound ts, []).
Proof.
  induction ts as [|[[] w] ts IH]; [done|..]; cbn [map bind_all fst snd bind_clause];
    simpl; by rewrite IH.
Qed.

Lemma tag_bound_int64 (ts : list (bool * str)) :
  forallb bound_int64 (map tag_bound ts) = true.
Proof. induction ts as [|[[] w] ts IH]; [done|..]; cbn [map forallb]; by rewrite IH. Qed.

Lemma holds_tag_bound r t : holds (tag_bound t) r = tag_test r t.
Proof.
  destruct t as [neg w].
  by destruct neg; cbn [tag_bound tag_test holds]; destruct (tag_string r) as [s|].
Qed.

End WordFacts.

(** X3: words without blank and quote, joined by single blanks, are split
    into these words again. *)
Theorem parse_search_query_join ws :
  Forall bare_word ws -> _parse_search_query (join_blank ws) = ws.
Proof. intros H. unfold _parse_search_query. by rewrite scan_join_blank. Qed.

(** A witness of X3: [fox -wolf]. *)
Lemma parse_search_query_join_witness :
  _parse_search_query (join_blank [py "fox"; py "-wolf"]) = [py "fox"; py "-wolf"].
Proof.
  apply (parse_search_query_join [py "fox"; py "-wolf"]).
  repeat constructor; done.
Defined.

(** X4: a query of tags and of tags to exclude ([-tag]), each a word
    without blank, quote, colon and star that does not start with [~] or
    [-], returns the rows that have a tag string which matches
    [LIKE '%tag%'] for every tag and for none of the tags to exclude, or
    raises [OverflowError] when the limit does not fit in 64 signed bits; a
    row without tag string is never returned, not even for a query of
    exclusions only.  For a tag without [%] and [_] the match is
    containment up to the case of ASCII letters; [_] and [%] in a tag are
    wildcards, so the tag [long_hair] matches the tag string [longxhair]. *)
Theorem tag_search d ts limit :
  ts <> [] -> Forall (fun t => tag_word t.2) ts ->
  search_posts d (Some (join_blank (map tag_term ts))) limit
  = (if int64 limit then Ok (rows_where d (map tag_bound ts) limit)
     else Raise OverflowError) /\
  (forall r, where_ (map tag_bound ts) r = forallb (tag_test r) ts) /\
  (forall w s, plain w -> like (percent w) s = infix_ci w s) /\
  like (percent (py "long_hair")) (py "longxhair") = true /\
  infix_ci (py "long_hair") (py "longxhair") = false.
Proof.
  intros Hne HF.
  assert (HB : Forall bare_word (map tag_term ts)).
  { apply Forall_map. eapply Forall_impl; [exact HF|]. intros t. apply tag_term_bare. }
  split; [|split; [|split; [exact like_infix|by vm_compute]]].
  - rewrite (search_posts_bound _ _ _
               {| sql := map (fun t : bool * str => if t.1 then TagNotLike else TagLike) ts;
                  params := map (fun t => PText (percent t.2)) ts; or_tags := [] |}
               (map tag_bound ts));
      [by rewrite tag_bound_int64| |unfold _parse_search_query;
        rewrite scan_join_blank by done;
        change (terms scan_start) with (@nil str); rewrite app_nil_l;
        by rewrite search_terms_tags|done|apply bind_all_tags].
    apply join_blank_truthy; [by destruct ts|done].
  - intros r. unfold where_. clear. induction ts as [|t ts IH]; [done|].
    cbn [map forallb]. by rewrite holds_tag_bound, IH.
Qed.

(** A witness of X4: [fox -wolf]. *)
Lemma tag_search_witness :
  search_posts two_posts
    (Some (join_blank (map tag_term [(false, py "fox"); (true, py "wolf")]))) default_limit
  = Ok (rows_where two_posts (map tag_bound [(false, py "fox"); (true, py "wolf")])
          default_limit) /\
  forall r, where_ (map tag_bound [(false, py "fox"); (true, py "wolf")]) r
            = forallb (tag_test r) [(false, py "fox"); (true, py "wolf")].
Proof.
  destruct (tag_search two_posts [(false, py "fox"); (true, py "wolf")] default_limit)
    as (H1 & H2 & _).
  - done.
  - repeat constructor; done.
  - split; [exact H1|exact H2].
Defined.

Section MetaFacts.

(** A query of one word with one text condition. *)
Lemma search_single d term limit c v bd :
  bare_word term ->
  search_term build_start term = Ok (add_text build_start c v) ->
  bind_clause c [PText v] = Some (bd, []) ->
  search_posts d (Some term) limit =
    if int64 limit then Ok (rows_where d [bd] limit) else Raise OverflowError.
Proof.
  intros [Hne HF] Ht Hb.
  assert (Hi : bound_int64 bd = true).
  { destruct c as [| | | | | |col o|k]; cbn [bind_clause] in Hb;
      try (by injection Hb as <-); [done|].
    destruct (k <=? length [PText v])%nat; [|done].
    destruct (texts (take k [PText v])); [|done]. by injection Hb as <-. }
  rewrite (search_posts_bound _ _ _ (add_text build_start c v) [bd]);
    [by cbn [forallb]; rewrite Hi|by destruct term| |done|by simpl; rewrite Hb].
  rewrite parse_word by done. simpl. by rewrite Ht.
Qed.

Lemma sign_bare neg w :
  Forall (fun c => is_quote c = false /\ is_blank c = false) w ->
  Forall (fun c => is_quote c = false /\ is_blank c = false) (sign neg ++ w).
Proof. intros H. destruct neg; [by constructor|done]. Qed.

Lemma rating_holds x r :
  (holds (BRatingEq x) r = true <-> rating r = Some x) /\
  (holds (BRatingNullOrNe x) r = true <-> rating r <> Some x).
Proof.
  simpl. destruct (rating r) as [y|]; [|by split].
  split; [rewrite bool_decide_eq_true|rewrite negb_true_iff, bool_decide_eq_false];
    split; congruence.
Qed.

Lemma file_ext_holds x r :
  (holds (BFileExtEq x) r = true <-> file_ext r = Some x) /\
  (holds (BFileExtNullOrNe x) r = true <-> file_ext r <> Some x).
Proof.
  simpl. destruct (file_ext r) as [y|]; [|by split].
  split; [rewrite bool_decide_eq_true|rewrite negb_true_iff, bool_decide_eq_false];
    split; congruence.
Qed.

Lemma where_single bd r : where_ [bd] r = holds bd r.
Proof. unfold where_. simpl. apply andb_true_r. Qed.

(** *** The shape of a term [key:value] *)

Lemma split_once_key key value :
  contains_chr ":" key = false ->
  contains_chr ":" (key ++ ":" :: value) = true /\
  split_once ":" (key ++ ":" :: value) = (key, value).
Proof.
  unfold contains_chr. induction key as [|c key IH]; [done|].
  cbn [existsb app split_once]. intros H. apply orb_false_iff in H as [Hc H].
  destruct (IH H) as [IH1 IH2]. rewrite IH1, IH2, orb_true_r. split; [done|].
  assert (E : chr_eqb c ":" = false).
  { apply chr_eqb_neq. apply chr_eqb_neq in Hc. congruence. }
  by rewrite E.
Qed.

Lemma head_key x key rest :
  chr_eqb x ":" = false ->
  startswith [x] (key ++ ":" :: rest) = startswith [x] key.
Proof. intros Hx. destruct key; simpl; [by rewrite Hx|done]. Qed.

Lemma lower_chr_marks c :
  chr_eqb ":" (lower_chr c) = chr_eqb ":" c /\
  chr_eqb "~" (lower_chr c) = chr_eqb "~" c /\
  chr_eqb "-" (lower_chr c) = chr_eqb "-" c /\
  lower_chr (lower_chr c) = lower_chr c.
Proof. by destruct c as [[] [] [] [] [] [] [] []]. Qed.

Lemma lower_idem s : lower (lower s) = lower s.
Proof.
  unfold lower. rewrite map_map. apply map_ext. intros c.
  by destruct (lower_chr_marks c) as (_ & _ & _ & ?).
Qed.

Lemma contains_colon_lower s : contains_chr ":" (lower s) = contains_chr ":" s.
Proof.
  unfold contains_chr, lower. induction s as [|c s IH]; [done|]. cbn [map existsb].
  destruct (lower_chr_marks c) as (-> & _). by rewrite IH.
Qed.

Lemma head_lower s :
  startswith (py "~") (lower s) = startswith (py "~") s /\
  startswith (py "-") (lower s) = startswith (py "-") s.
Proof.
  destruct s as [|c s]; [done|]. unfold lower. cbn [map].
  destruct (lower_chr_marks c) as (_ & H1 & H2 & _).
  change (chr_eqb "~" (lower_chr c) && true = chr_eqb "~" c && true /\
          chr_eqb "-" (lower_chr c) && true = chr_eqb "-" c && true).
  by rewrite H1, H2.
Qed.

Lemma str_eqb_eq a b : str_eqb a b = true <-> a = b.
Proof.
  revert b. induction a as [|x a IH]; intros [|y b]; simpl; try done.
  rewrite andb_true_iff, chr_eqb_eq, IH. split; [by intros [-> ->]|by intros [= -> ->]].
Qed.

Lemma key_in_In key keys : key_in key keys = true <-> exists k, In k keys /\ key = py k.
Proof.
  unfold key_in. rewrite existsb_exists. split; intros (k & Hk & E); exists k;
    (split; [done|]); by apply str_eqb_eq.
Qed.

Lemma key_in_app key l1 l2 : key_in key (l1 ++ l2) = key_in key l1 || key_in key l2.
Proof. apply existsb_app. Qed.

(** A known key holds no colon and starts with a letter, whatever the case
    of its letters. *)
Lemma known_key_shape key :
  key_in (lower key) known_keys = true ->
  contains_chr ":" key = false /\
  startswith (py "~") key = false /\ startswith (py "-") key = false.
Proof.
  intros H. apply key_in_In in H as (k & Hk & E).
  rewrite <- (contains_colon_lower key).
  destruct (head_lower key) as [<- <-]. rewrite E.
  repeat (destruct Hk as [<-|Hk]; [done|]). done.
Qed.

(** The tests a term [key:value] passes before its key is looked at. *)
Lemma positive_shape key value :
  contains_chr ":" key = false ->
  startswith (py "~") key = false -> startswith (py "-") key = false ->
  startswith (py "~") (key ++ ":" :: value) = false /\
  startswith (py "-") (key ++ ":" :: value) = false /\
  contains_chr ":" (key ++ ":" :: value) = true /\
  split_once ":" (key ++ ":" :: value) = (key, value).
Proof.
  intros Hc Ht Hm. change (py "~") with ["~"] in *. change (py "-") with ["-"] in *.
  rewrite !head_key by done. by destruct (split_once_key key value Hc).
Qed.

Lemma negative_shape key value :
  contains_chr ":" key = false ->
  startswith (py "~") ("-" :: key ++ ":" :: value) = false /\
  startswith (py "-") ("-" :: key ++ ":" :: value) = true /\
  slice_from 1 ("-" :: key ++ ":" :: value) = key ++ ":" :: value /\
  contains_chr ":" (key ++ ":" :: value) = true /\
  split_once ":" (key ++ ":" :: value) = (key, value).
Proof.
  intros Hc. by destruct (split_once_key key value Hc).
Qed.

Lemma search_term_unknown b key value :
  contains_chr ":" key = false ->
  startswith (py "~") key = false -> startswith (py "-") key = false ->
  key_in (lower key) known_keys = false ->
  search_term b (key ++ ":" :: value)
  = Ok (add_text b TagLike (percent (key ++ ":" :: value))).
Proof.
  intros Hc Ht Hm Hk.
  destruct (positive_shape key value Hc Ht Hm) as (H1 & H2 & H3 & H4).
  unfold search_term. rewrite H1, H2, H3, H4. cbn beta iota zeta.
  change known_keys
    with (["rating"%string] ++ ["score"%string]
          ++ ["favcount"; "fav_count"; "favorites"]%string
          ++ ["type"; "filetype"; "file_type"]%string ++ ["width"%string]
          ++ ["height"%string] ++ ["filesize"; "file_size"; "size"]%string
          ++ ["id"%string]) in Hk.
  rewrite !key_in_app in Hk.
  do 7 (apply orb_false_iff in Hk as [?Hk Hk]).
  by repeat match goal with H : key_in _ _ = false |- _ => rewrite H; clear H end.
Qed.

Lemma search_term_not_negatable b key value :
  contains_chr ":" key = false ->
  key_in (lower key) negatable_keys = false ->
  search_term b ("-" :: key ++ ":" :: value)
  = Ok (add_text b TagNotLike (percent (key ++ ":" :: value))).
Proof.
  intros Hc Hk.
  destruct (negative_shape key value Hc) as (H1 & H2 & H3 & H4 & H5).
  unfold search_term. rewrite H1, H2, H3, H4, H5. cbn beta iota zeta.
  change negatable_keys with (["rating"%string] ++ ["type"%string]) in Hk.
  rewrite key_in_app in Hk. apply orb_false_iff in Hk as [Hk1 Hk2].
  by rewrite Hk1, Hk2.
Qed.

Lemma search_term_key_case b key value :
  key_in (lower key) known_keys = true ->
  search_term b (key ++ ":" :: value) = search_term b (lower key ++ ":" :: value).
Proof.
  intros Hk. destruct (known_key_shape key Hk) as (Hc & Ht & Hm).
  assert (Hk' : key_in (lower (lower key)) known_keys = true) by by rewrite lower_idem.
  destruct (known_key_shape (lower key) Hk') as (Hc' & Ht' & Hm').
  destruct (positive_shape key value Hc Ht Hm) as (H1 & H2 & H3 & H4).
  destruct (positive_shape (lower key) value Hc' Ht' Hm') as (H1' & H2' & H3' & H4').
  unfold search_term. rewrite H1, H2, H3, H4, H1', H2', H3', H4'.
  cbn beta iota zeta. rewrite lower_idem.
  apply key_in_In in Hk as (k & Hin & ->).
  repeat (destruct Hin as [<-|Hin]; [reflexivity|]). done.
Qed.

Lemma search_term_neg_key_case b key value :
  key_in (lower key) negatable_keys = true ->
  search_term b ("-" :: key ++ ":" :: value)
  = search_term b ("-" :: lower key ++ ":" :: value).
Proof.
  intros Hk.
  assert (Hk0 : key_in (lower key) known_keys = true).
  { apply key_in_In in Hk as (k & Hin & E). apply key_in_In. exists k.
    split; [|done]. repeat (destruct Hin as [<-|Hin]; [simpl; tauto|]). done. }
  destruct (known_key_shape key Hk0) as (Hc & _).
  assert (Hk' : key_in (lower (lower key)) known_keys = true) by by rewrite lower_idem.
  destruct (known_key_shape (lower key) Hk') as (Hc' & _).
  destruct (negative_shape key value Hc) as (H1 & H2 & H3 & H4 & H5).
  destruct (negative_shape (lower key) value Hc') as (H1' & H2' & H3' & H4' & H5').
  unfold search_term.
  rewrite H1, H2, H3, H4, H5, H1', H2', H3', H4', H5'.
  cbn beta iota zeta. rewrite lower_idem.
  apply key_in_In in Hk as (k & Hin & ->).
  repeat (destruct Hin as [<-|Hin]; [reflexivity|]). done.
Qed.

End MetaFacts.

(** X5: [rating:value] returns the rows whose rating is the first character
    of the value in lower case, and [-rating:value] the rows whose rating is
    NULL or another text; the rest of the value is not looked at.  A limit
    that does not fit in 64 signed bits raises [OverflowError]. *)
Theorem rating_search d neg v limit :
  Forall (fun c => is_quote c = false /\ is_blank c = false) v ->
  search_posts d (Some (sign neg ++ py "rating:" ++ v)) limit
  = (if int64 limit
     then Ok (rows_where d [if neg then BRatingNullOrNe (slice_to 1 (lower v))
                            else BRatingEq (slice_to 1 (lower v))] limit)
     else Raise OverflowError) /\
  forall r,
    where_ [if neg then BRatingNullOrNe (slice_to 1 (lower v))
            else BRatingEq (slice_to 1 (lower v))] r = true <->
    if neg then rating r <> Some (slice_to 1 (lower v))
    else rating r = Some (slice_to 1 (lower v)).
Proof.
  intros Hv. split.
  - apply (search_single _ _ _ (if neg then RatingNullOrNe else RatingEq)
             (slice_to 1 (lower v))).
    + split; [by destruct neg|]. apply sign_bare.
      apply Forall_app. split; [by repeat constructor|done].
    + by destruct neg.
    + by destruct neg.
  - intros r. rewrite where_single.
    destruct (rating_holds (slice_to 1 (lower v)) r) as [H1 H2]. by destruct neg.
Qed.

(** A witness of X5: [-rating:Safe]. *)
Lemma rating_search_witness :
  search_posts two_posts (Some (sign true ++ py "rating:" ++ py "Safe")) default_limit
  = Ok (rows_where two_posts [BRatingNullOrNe (py "s")] default_limit) /\
  forall r, where_ [BRatingNullOrNe (py "s")] r = true <-> rating r <> Some (py "s").
Proof.
  apply (rating_search two_posts true (py "Safe") default_limit).
  repeat constructor; done.
Defined.

(** X6: [type:value], [filetype:value] and [file_type:value] return the rows
    whose file extension is the value in lower case, and [-type:value] the
    rows whose file extension is NULL or another text.  A limit that does
    not fit in 64 signed bits raises [OverflowError]. *)
Theorem type_search d key v limit :
  In key type_keys ->
  Forall (fun c => is_quote c = false /\ is_blank c = false) v ->
  search_posts d (Some (py key ++ ":" :: v)) limit
  = (if int64 limit then Ok (rows_where d [BFileExtEq (lower v)] limit)
     else Raise OverflowError) /\
  search_posts d (Some (py "-type:" ++ v)) limit
  = (if int64 limit then Ok (rows_where d [BFileExtNullOrNe (lower v)] limit)
     else Raise OverflowError) /\
  forall r,
    (where_ [BFileExtEq (lower v)] r = true <-> file_ext r = Some (lower v)) /\
    (where_ [BFileExtNullOrNe (lower v)] r = true <-> file_ext r <> Some (lower v)).
Proof.
  intros Hk Hv. split; [|split].
  - apply (search_single _ _ _ FileExtEq (lower v)); [| |done].
    + split; [by destruct (py key)|].
      change (py key ++ ":" :: v) with (py key ++ [":"] ++ v).
      apply Forall_app. split;
        [repeat (destruct Hk as [<-|Hk]; [by repeat constructor|]); done|].
      apply Forall_app. split; [by repeat constructor|done].
    + repeat (destruct Hk as [<-|Hk]; [reflexivity|]). done.
  - apply (search_single _ _ _ FileExtNullOrNe (lower v)); [|done|done].
    split; [done|]. apply Forall_app. split; [by repeat constructor|done].
  - intros r. rewrite !where_single. apply file_ext_holds.
Qed.

(** A witness of X6: [filetype:PNG]. *)
Lemma type_search_witness :
  search_posts two_posts (Some (py "filetype" ++ ":" :: py "PNG")) default_limit
  = Ok (rows_where two_posts [BFileExtEq (lower (py "PNG"))] default_limit) /\
  search_posts two_posts (Some (py "-type:" ++ py "PNG")) default_limit
  = Ok (rows_where two_posts [BFileExtNullOrNe (lower (py "PNG"))] default_limit) /\
  forall r,
    (where_ [BFileExtEq (lower (py "PNG"))] r = true
     <-> file_ext r = Some (lower (py "PNG"))) /\
    (where_ [BFileExtNullOrNe (lower (py "PNG"))] r = true
     <-> file_ext r <> Some (lower (py "PNG"))).
Proof.
  apply (type_search two_posts "filetype"%string (py "PNG") default_limit).
  - simpl. tauto.
  - repeat constructor; done.
Defined.

(** X7: a term [key:value] whose key, in lower case, is none of the keys
    [search_posts] knows is searched as a tag, colon and value included; so
    is, after a [-], every term whose key is neither [rating] nor [type]:
    [-score:5] excludes the rows whose tag string contains that text, not
    the rows of that score. *)
Theorem unknown_key_is_tag b (neg : bool) key value :
  contains_chr ":" key = false ->
  key_in (lower key) (if neg then negatable_keys else known_keys) = false ->
  (neg = false -> startswith (py "~") key = false /\ startswith (py "-") key = false) ->
  search_term b (sign neg ++ key ++ ":" :: value)
  = Ok (add_text b (if neg then TagNotLike else TagLike) (percent (key ++ ":" :: value))).
Proof.
  intros Hc Hk Hs. destruct neg.
  - by apply search_term_not_negatable.
  - destruct (Hs eq_refl) as [Ht Hm]. by apply search_term_unknown.
Qed.

(** A witness of X7: [-score:5]. *)
Lemma unknown_key_is_tag_witness :
  search_term build_start (sign true ++ py "score" ++ ":" :: py "5")
  = Ok (add_text build_start TagNotLike (percent (py "score" ++ ":" :: py "5"))).
Proof.
  apply (unknown_key_is_tag build_start true (py "score") (py "5")); done.
Defined.

(** X8: the key of a term is read without regard to the case of its ASCII
    letters: a term with a known key compiles like the term with the key in
    lower case, and so does, after a [-], a term with the key [rating] or
    [type]. *)
Theorem key_case_insensitive b (neg : bool) key value :
  key_in (lower key) (if neg then negatable_keys else known_keys) = true ->
  search_term b (sign neg ++ key ++ ":" :: value)
  = search_term b (sign neg ++ lower key ++ ":" :: value).
Proof.
  intros Hk. destruct neg.
  - by apply search_term_neg_key_case.
  - by apply search_term_key_case.
Qed.

(** A witness of X8: [Score:>5]. *)
Lemma key_case_insensitive_witness :
  search_term build_start (sign false ++ py "Score" ++ ":" :: py ">5")
  = search_term build_start (sign false ++ lower (py "Score") ++ ":" :: py ">5").
Proof.
  apply (key_case_insensitive build_start false (py "Score") (py ">5")). done.
Defined.

Section WildcardFacts.

Lemma ordinary_star c : ordinary c = true -> chr_eqb c "*" = false.
Proof. destruct c as [[] [] [] [] [] [] [] []]; vm_compute; intros H; try done. Qed.

Lemma ordinary_no_chr x :
  (forall c, ordinary c = true -> chr_eqb x c = false) ->
  forall a, Forall (fun c => ordinary c = true) a -> contains_chr x a = false.
Proof.
  intros Hx a HF. unfold contains_chr.
  induction HF as [|c w Hc _ IH]; simpl; [done|]. by rewrite (Hx c Hc).
Qed.

Lemma ordinary_replace a :
  Forall (fun c => ordinary c = true) a -> replace_chr "*" "%" a = a.
Proof.
  unfold replace_chr. induction 1 as [|c a Hc _ IH]; [done|]. cbn [map].
  by rewrite (ordinary_star c Hc), IH.
Qed.

Lemma ordinary_plain a : Forall (fun c => ordinary c = true) a -> plain a.
Proof.
  intros HF. eapply Forall_impl; [exact HF|].
  intros c Hc. by destruct (ordinary_facts c Hc) as (_ & _ & _ & _ & ? & ?).
Qed.

Lemma ordinary_bare a :
  Forall (fun c => ordinary c = true) a ->
  Forall (fun c => is_quote c = false /\ is_blank c = false) a.
Proof.
  intros HF. eapply Forall_impl; [exact HF|].
  intros c Hc. by destruct (ordinary_facts c Hc) as (? & ? & _).
Qed.

Lemma head_star x a rest :
  chr_eqb x "*" = false ->
  startswith [x] (a ++ "*" :: rest) = startswith [x] a.
Proof. intros Hx. destruct a; simpl; [by rewrite Hx|done]. Qed.

(** A term with one star has the star replaced by [%]. *)
Lemma search_term_star b a1 a2 :
  Forall (fun c => ordinary c = true) a1 -> Forall (fun c => ordinary c = true) a2 ->
  startswith (py "~") a1 = false -> startswith (py "-") a1 = false ->
  search_term b (a1 ++ "*" :: a2) = Ok (add_text b TagLike (percent (a1 ++ "%" :: a2))).
Proof.
  intros H1 H2 Ht Hm. unfold search_term.
  change (py "~") with ["~"] in *. change (py "-") with ["-"] in *.
  rewrite !head_star, Ht, Hm by done.
  assert (Hcolon : forall a, Forall (fun c => ordinary c = true) a ->
                     contains_chr ":" a = false).
  { apply ordinary_no_chr. intros c Hc.
    by destruct (ordinary_facts c Hc) as (_ & _ & ? & _). }
  assert (Hc : contains_chr ":" (a1 ++ "*" :: a2) = false).
  { unfold contains_chr. rewrite existsb_app. cbn [existsb].
    fold (contains_chr ":" a1). fold (contains_chr ":" a2).
    by rewrite !Hcolon. }
  assert (Hs : contains_chr "*" (a1 ++ "*" :: a2) = true).
  { unfold contains_chr. rewrite existsb_app. cbn [existsb].
    change (chr_eqb "*" "*") with true. by rewrite orb_true_r. }
  rewrite Hc, Hs. unfold replace_chr. rewrite map_app. cbn [map].
  fold (replace_chr "*" "%" a1). fold (replace_chr "*" "%" a2).
  by rewrite !ordinary_replace.
Qed.

(** What [LIKE '%a%b%'] asks of a text, for [a] and [b] without wildcard. *)
Lemma like_two_parts a1 a2 t :
  plain a1 -> plain a2 ->
  like (percent (a1 ++ "%" :: a2)) t = true <->
  exists pre m rest, t = pre ++ m ++ rest /\ lower m = lower a1 /\ contains_ci a2 rest.
Proof.
  intros H1 H2. unfold percent.
  change (py "%" ++ (a1 ++ "%" :: a2) ++ py "%") with ("%" :: (a1 ++ "%" :: a2) ++ ["%"]).
  rewrite <- app_assoc. change (("%" :: a2) ++ ["%"]) with (percent a2).
  rewrite like_percent. split.
  - intros (pre & post & -> & H). apply like_plain in H as (m & rest & -> & E & H); [|done].
    exists pre, m, rest. split; [done|]. split; [done|]. by apply like_contains.
  - intros (pre & m & rest & -> & E & H). exists pre, (m ++ rest). split; [done|].
    apply like_plain; [done|]. exists m, rest. split; [done|]. split; [done|].
    by apply like_contains.
Qed.

(** A run of blanks leaves the scan where it starts. *)
Lemma scan_blanks n : scan (repeat " " n) scan_start = scan_start.
Proof. induction n as [|n IH]; [done|]. exact IH. Qed.

End WildcardFacts.

(** X9: a star in a tag stands for any run of characters: the term [a*b]
    returns the rows whose tag string holds [a] and, somewhere after it,
    [b], up to the case of ASCII letters.  A limit that does not fit in 64
    signed bits raises [OverflowError]. *)
Theorem wildcard_search d a1 a2 limit :
  Forall (fun c => ordinary c = true) a1 -> Forall (fun c => ordinary c = true) a2 ->
  startswith (py "~") a1 = false -> startswith (py "-") a1 = false ->
  search_posts d (Some (a1 ++ "*" :: a2)) limit
  = (if int64 limit
     then Ok (rows_where d [BTagLike (percent (a1 ++ "%" :: a2))] limit)
     else Raise OverflowError) /\
  forall r, where_ [BTagLike (percent (a1 ++ "%" :: a2))] r = true <->
    exists t pre m rest, tag_string r = Some t /\ t = pre ++ m ++ rest /\
      lower m = lower a1 /\ contains_ci a2 rest.
Proof.
  intros H1 H2 Ht Hm. split.
  - apply (search_single _ _ _ TagLike (percent (a1 ++ "%" :: a2))); [| |done].
    + split; [by destruct a1|]. apply Forall_app. split; [by apply ordinary_bare|].
      constructor; [done|by apply ordinary_bare].
    + by apply search_term_star.
  - intros r. rewrite where_single. cbn [holds]. destruct (tag_string r) as [t|].
    + rewrite like_two_parts by by apply ordinary_plain. split.
      * intros (pre & m & rest & H). by exists t, pre, m, rest.
      * intros (t' & pre & m & rest & [= <-] & H). by exists pre, m, rest.
    + split; [done|]. by intros (t' & pre & m & rest & ? & _).
Qed.

(** A witness of X9: [red*fox]. *)
Lemma wildcard_search_witness :
  search_posts two_posts (Some (py "red" ++ "*" :: py "fox")) default_limit
  = Ok (rows_where two_posts [BTagLike (percent (py "red" ++ "%" :: py "fox"))]
          default_limit) /\
  forall r, where_ [BTagLike (percent (py "red" ++ "%" :: py "fox"))] r = true <->
    exists t pre m rest, tag_string r = Some t /\ t = pre ++ m ++ rest /\
      lower m = lower (py "red") /\ contains_ci (py "fox") rest.
Proof.
  apply (wildcard_search two_posts (py "red") (py "fox") default_limit);
    [repeat constructor; done|repeat constructor; done|done|done].
Defined.

(** X10: a query of blanks only is no query: the search returns what it
    returns without a query. *)
Theorem blank_query d n limit :
  search_posts d (Some (repeat " " n)) limit = search_posts d None limit.
Proof.
  unfold search_posts, compile. destruct n as [|n]; [done|].
  cbn [repeat truthy]. unfold _parse_search_query.
  change (" " :: repeat " " n) with (repeat " " (S n)). by rewrite scan_blanks.
Qed.

Section IdFacts.

Lemma dense_empty : dense_ids empty_db.
Proof. split; [done|]. intros i r H. by destruct i. Qed.

Lemma dense_same d d' : posts d = posts d' -> next_id d = next_id d' ->
  dense_ids d -> dense_ids d'.
Proof. unfold dense_ids. by intros <- <-. Qed.

Lemma dense_insert_row d data d' :
  dense_ids d -> insert_row d data = Ok (Some d') -> dense_ids d'.
Proof.
  intros [Hn Hi] H. apply insert_row_inv in H as (_ & _ & pid & _ & ->).
  split; simpl.
  - rewrite length_app. simpl. lia.
  - intros i r. rewrite lookup_app_Some. intros [H|[Hl H]]; [by apply Hi|].
    apply list_lookup_singleton_Some in H as [Hz <-]. simpl. lia.
Qed.

Lemma dense_loop batch n d :
  dense_ids d -> dense_ids (snd (insert_loop batch n d)).
Proof.
  revert n d. induction batch as [|data batch IH]; intros n d Hd; cbn [insert_loop];
    [done|].
  destruct data as [data|]; [|done].
  destruct (insert_row d data) as [[d'|]|e] eqn:Hi; [| |done].
  - apply IH. by eapply dense_insert_row.
  - by apply IH.
Qed.

Lemma dense_insert_batch d batch : dense_ids d -> dense_ids (snd (insert_batch d batch)).
Proof.
  intros Hd. destruct (insert_batch_tables d batch) as (Hp & Hn & _).
  eapply dense_same; [symmetry; exact Hp|symmetry; exact Hn|].
  by apply dense_loop.
Qed.

Lemma dense_insert_post d data : dense_ids d -> dense_ids (snd (insert_post d data)).
Proof.
  intros Hd. unfold insert_post. destruct data as [data|]; [|done].
  destruct (_ && _); [done|].
  destruct (insert_row d data) as [[d'|]|e] eqn:Hi; [|done|done]. simpl.
  eapply (dense_same d'); [done|done|]. by eapply dense_insert_row.
Qed.

Lemma dense_mark d f h : dense_ids d -> dense_ids (mark_file_processed d f h).
Proof. by apply dense_same. Qed.

(** In a list of rows numbered from [k] on, the row of a number is found
    at its place. *)
Lemma find_numbered (l : list row) k i :
  (forall j r, l !! j = Some r -> row_id r = Z.of_nat j + k) ->
  find (fun r => bool_decide (row_id r = Z.of_nat i + k)) l = l !! i.
Proof.
  revert k i. induction l as [|r l IH]; intros k i Hl; [done|]. cbn [find].
  pose proof (Hl 0%nat r eq_refl) as Hr. simpl in Hr.
  destruct i as [|i].
  - rewrite bool_decide_eq_true_2 by (simpl; lia). done.
  - rewrite bool_decide_eq_false_2 by lia. simpl.
    replace (Z.of_nat (S i) + k) with (Z.of_nat i + (k + 1)) by lia.
    apply IH. intros j r' Hj. rewrite (Hl (S j) r' Hj). lia.
Qed.

Lemma find_below (l : list row) k x :
  (forall j r, l !! j = Some r -> row_id r = Z.of_nat j + k) -> x < k ->
  find (fun r => bool_decide (row_id r = x)) l = None.
Proof.
  revert k. induction l as [|r l IH]; intros k Hl Hx; [done|]. cbn [find].
  pose proof (Hl 0%nat r eq_refl) as Hr. simpl in Hr.
  rewrite bool_decide_eq_false_2 by lia. apply (IH (k + 1)); [|lia].
  intros j r' Hj. rewrite (Hl (S j) r' Hj). lia.
Qed.

Lemma get_post_by_id_dense d db_id :
  dense_ids d ->
  get_post_by_id d db_id =
  if int64 db_id
  then Ok (if Z.leb 1 db_id then posts d !! Z.to_nat (db_id - 1) else None)
  else Raise OverflowError.
Proof.
  intros [_ Hi]. unfold get_post_by_id. destruct (int64 db_id); [|done]. f_equal.
  destruct (Z.leb_spec 1 db_id) as [H|H].
  - pose proof (find_numbered (posts d) 1 (Z.to_nat (db_id - 1)) Hi) as Hf.
    by replace (Z.of_nat (Z.to_nat (db_id - 1)) + 1) with db_id in Hf by lia.
  - by apply (find_below _ 1).
Qed.

Lemma get_post_by_id_In d r :
  dense_ids d -> In r (posts d) ->
  get_post_by_id d (row_id r) =
  if int64 (row_id r) then Ok (Some r) else Raise OverflowError.
Proof.
  intros Hd Hr. apply list_elem_of_In, list_elem_of_lookup in Hr as [i Hi].
  rewrite get_post_by_id_dense by done. destruct Hd as [_ Hd].
  destruct (int64 (row_id r)); [|done]. f_equal.
  rewrite (Hd i r Hi). rewrite (proj2 (Z.leb_le _ _)) by lia.
  by replace (Z.to_nat (Z.of_nat i + 1 - 1)) with i by lia.
Qed.

End IdFacts.

(** *** An induction principle for the run

    A relation between a counter with a database before and after, which
    holds across [insert_batch] on decoded lines (the counter going up by
    the number the batch returns, or staying when the batch raises), holds
    across every step of the stream loop; if it also holds across
    [mark_file_processed], it holds across a whole run.  [P] is what is
    known of every decoded line. *)

Section RunInduction.

Variable json_loads : str -> option json.
Variable P : json -> Prop.
Variable R : Z * db -> Z * db -> Prop.

Hypothesis loads_P : forall line data, json_loads line = Some data -> P data.
Hypothesis R_refl : forall x, R x x.
Hypothesis R_trans : forall x y z, R x y -> R y z -> R x z.
Hypothesis R_batch : forall n d l, Forall P l ->
  R (n, d) (n + added_by (fst (insert_batch d l)), snd (insert_batch d l)).

Lemma R_append_data st data :
  Forall P (batch st) -> P data ->
  R (counted st) (counted (state_of (append_data st data))) /\
  Forall P (batch (state_of (append_data st data))).
Proof.
  intros Hb Hd.
  assert (Hl : Forall P (batch st ++ [data])) by (apply Forall_app; by split; [|constructor]).
  unfold append_data, counted. destruct (_ <=? _)%nat; [|by split; [apply R_refl|]].
  pose proof (R_batch (posts_added st) (s_db st) (batch st ++ [data]) Hl) as H.
  destruct (insert_batch (s_db st) (batch st ++ [data])) as [[m|e] d]; simpl in *.
  - by split.
  - rewrite Z.add_0_r in H. by split.
Qed.

Lemma R_process_line st line :
  Forall P (batch st) ->
  R (counted st) (counted (state_of (process_line json_loads st line))) /\
  Forall P (batch (state_of (process_line json_loads st line))).
Proof.
  intros Hb. unfold process_line.
  destruct (truthy (strip line)); [|by split; [apply R_refl|]].
  destruct (json_loads line) as [data|] eqn:E; [|by split; [apply R_refl|]].
  apply R_append_data; [done|]. by apply (loads_P line).
Qed.

Lemma R_complete_lines rounds st :
  Forall P (batch st) ->
  R (counted st) (counted (state_of (complete_lines json_loads rounds st))) /\
  Forall P (batch (state_of (complete_lines json_loads rounds st))).
Proof.
  revert st. induction rounds as [|rounds IH]; intros st Hb; simpl;
    [by split; [apply R_refl|]|].
  destruct (contains_chr newline (buffer st)); [|by split; [apply R_refl|]].
  destruct (split_once newline (buffer st)) as [line rest].
  destruct (R_process_line (set_buffer st rest) line Hb) as [H1 H2].
  destruct (process_line json_loads (set_buffer st rest) line) as [st1|st1];
    [|by split].
  destruct (IH st1 H2) as [H3 H4]. split; [|done].
  eapply R_trans; [exact H1|exact H3].
Qed.

Lemma R_process_chunk st chunk :
  Forall P (batch st) ->
  R (counted st) (counted (state_of (process_chunk json_loads st chunk))) /\
  Forall P (batch (state_of (process_chunk json_loads st chunk))).
Proof.
  intros Hb. unfold process_chunk. destruct (truthy chunk); [|by split; [apply R_refl|]].
  by apply (R_complete_lines _ (set_buffer st (buffer st ++ chunk))).
Qed.

Lemma R_chunk_loop w cs broken ds st :
  Forall P (batch st) ->
  R (counted st) (counted (snd (chunk_loop json_loads w cs broken ds st))) /\
  Forall P (batch (snd (chunk_loop json_loads w cs broken ds st))) /\
  polled ds (snd (fst (chunk_loop json_loads w cs broken ds st))).
Proof.
  revert ds st. induction cs as [|chunk cs IH]; intros ds st Hb; simpl.
  - split; [apply R_refl|]. split; [done|]. by repeat split.
  - destruct (match cancel_after w with Some k => (k <=? polls ds)%nat | None => false end).
    + simpl. split; [apply R_refl|]. split; [done|]. repeat split; simpl; lia.
    + destruct (R_process_chunk st chunk Hb) as [H1 H2].
      destruct (process_chunk json_loads st chunk) as [st1|st1]; simpl in *.
      * match goal with
        | |- context [chunk_loop _ _ _ _ ?d st1] =>
            destruct (IH d st1 H2) as (H3 & H4 & H5)
        end.
        split; [|split; [exact H4|]].
        -- eapply R_trans; [exact H1|exact H3].
        -- destruct H5 as (? & ? & ? & ? & ? & ? & ? & ?). simpl in *.
           repeat split; try done. lia.
      * split; [done|]. split; [done|]. repeat split; simpl; lia.
Qed.

Lemma R_finish_stream st :
  Forall P (batch st) ->
  R (counted st) (counted (state_of (finish_stream json_loads st))).
Proof.
  intros Hb. unfold finish_stream.
  set (st' := if truthy (strip (buffer st)) then _ else _).
  assert (E : counted st' = counted st /\ Forall P (batch st')).
  { unfold st'. destruct (truthy _); [|done].
    destruct (json_loads _) as [data|] eqn:El; [|done]. split; [done|]. simpl.
    apply Forall_app. split; [done|]. constructor; [|done]. by apply (loads_P _ _ El). }
  destruct E as [E Hb']. rewrite <- E.
  pose proof (R_batch (posts_added st') (s_db st') (batch st') Hb') as H.
  destruct (batch st') as [|data batch']; [apply R_refl|].
  destruct (insert_batch (s_db st') (data :: batch')) as [[m|e] d]; simpl in *; [done|].
  by rewrite Z.add_0_r in H.
Qed.

(** [_stream_process_file] returns the count of a relation that starts at
    zero, and changes the database, the polls and the log only. *)
Lemma R_stream_process_file w ds filename file :
  R (0, db_ ds)
    (fst (_stream_process_file json_loads w ds filename file),
     db_ (snd (_stream_process_file json_loads w ds filename file))) /\
  file_limit (snd (_stream_process_file json_loads w ds filename file)) = file_limit ds /\
  (polls ds <= polls (snd (_stream_process_file json_loads w ds filename file)))%nat /\
  processed_files_ (snd (_stream_process_file json_loads w ds filename file))
    = processed_files_ ds /\
  total_posts_added (snd (_stream_process_file json_loads w ds filename file))
    = total_posts_added ds.
Proof.
  unfold _stream_process_file. destruct file as [r|]; [|by split; [apply R_refl|]].
  pose proof (R_chunk_loop w (chunks r) (broken r) ds
    {| s_db := db_ ds; buffer := []; batch := []; posts_added := 0 |}
    (Forall_nil_2 _)) as (H1 & Hb & H2).
  destruct (chunk_loop _ _ _ _ _ _) as [[normal ds'] st]. simpl in H1, H2, Hb.
  destruct H2 as (? & ? & ? & ? & ? & ? & ? & ?).
  destruct normal; simpl; [|by split].
  pose proof (R_finish_stream st Hb) as Hfin.
  destruct (finish_stream json_loads st) as [st1|st1]; simpl in *;
    (split; [|done]); by eapply R_trans.
Qed.

Hypothesis R_mark : forall n d f h, R (n, d) (n, mark_file_processed d f h).
Hypothesis R_shift : forall a b c d d', R (a, d) (b, d') -> R (a + c, d) (b + c, d').

Lemma R_process_file w ds filename file :
  R (tallied ds) (tallied (process_file json_loads w ds filename file)).
Proof.
  unfold process_file, tallied.
  destruct file as [| |r]; [apply R_refl| |];
    match goal with
    | |- context [_stream_process_file ?j ?w ?ds ?f ?x] =>
        pose proof (R_stream_process_file w ds f x) as (H & _ & _ & _ & Ht);
        destruct (_stream_process_file j w ds f x) as [n ds']
    end; simpl in *;
    (eapply R_trans; [|apply R_mark]);
    apply (R_shift _ _ (total_posts_added ds)) in H;
    rewrite Z.add_0_l, (Z.add_comm n) in H; rewrite Ht; exact H.
Qed.

Lemma R_files_loop w files ds :
  R (tallied ds) (tallied (files_loop json_loads w files ds)).
Proof.
  revert ds. induction files as [|f files IH]; intros ds; simpl; [apply R_refl|].
  destruct (match cancel_after w with Some k => (k <=? polls ds)%nat | None => false end);
    [apply R_refl|].
  eapply R_trans; [|apply IH].
  match goal with
  | |- R _ (tallied (process_file _ _ ?d _ _)) => apply (R_process_file w d)
  end.
Qed.

Lemma R_download_and_process w ds :
  R (tallied ds) (tallied (download_and_process json_loads w ds)).
Proof.
  unfold download_and_process, get_jsonl_files.
  destruct (listing w) as [all_files|]; simpl;
    match goal with |- context [filter ?P ?l] => destruct (filter P l) eqn:E end;
    try apply R_refl; unfold set_downloading, tallied; cbn [db_ total_posts_added];
    match goal with
    | |- R _ (_, db_ (files_loop _ _ _ ?d)) => apply (R_files_loop w _ d)
    end.
Qed.

End RunInduction.

Section CountFacts.

(** The counter never counts more rows than the batch has added, and counts
    them all when the batch returns. *)
Lemma insert_batch_count d l :
  0 <= added_by (fst (insert_batch d l))
    <= Z.of_nat (length (posts (snd (insert_batch d l)))) - Z.of_nat (length (posts d)) /\
  forall m, fst (insert_batch d l) = Ok m ->
    Z.of_nat (length (posts (snd (insert_batch d l)))) = Z.of_nat (length (posts d)) + m.
Proof.
  rewrite insert_batch_fst, insert_batch_posts.
  destruct (insert_loop_grows l 0 d) as (new & -> & _ & _ & _ & Hc).
  rewrite length_app. destruct (fst (insert_loop l 0 d)) as [m|e]; simpl.
  - specialize (Hc m eq_refl). split; [lia|]. intros ? [= <-]. lia.
  - split; [lia|done].
Qed.

Lemma storable_objects l :
  Forall storable l ->
  exists batch, l = map JObject batch /\ Forall (fun x => bindable x = true) batch.
Proof.
  induction 1 as [|data l (x & -> & Hx) _ (batch & -> & IH)].
  - by exists [].
  - exists (x :: batch). split; [done|]. by constructor.
Qed.

(** A batch of storable lines does not raise. *)
Lemma insert_batch_storable d l :
  Forall storable l -> exists m, fst (insert_batch d l) = Ok m.
Proof.
  intros H. destruct (storable_objects l H) as (batch & -> & Hb).
  destruct (insert_loop_each batch 0 d d Hb (same_tables_refl d))
    as (m & d1 & _ & H1 & _).
  exists m. by rewrite (insert_batch_Ok _ _ _ _ H1).
Qed.

Lemma insert_post_true d data d' :
  insert_post d (JObject data) = (Ok true, d') ->
  exists pid, j_id data = Some pid /\ d' = commit (appended d pid data) /\
    ~ rejected d data.
Proof.
  unfold insert_post. destruct (_ && _); [done|].
  destruct (insert_row d data) as [[d1|]|e] eqn:Hi; [|done|done].
  apply insert_row_inv in Hi as (_ & Hn & pid & Hp & ->).
  intros [= <-]. by exists pid.
Qed.

End CountFacts.

(** X11: the row identifiers are 1, 2, 3, ... in the order of insertion,
    with the counter one ahead: this holds in the new database and is kept
    by [insert_post], [insert_batch], [mark_file_processed] and by a whole
    run of the downloader, whatever the remote side sends. *)
Theorem row_ids_dense :
  dense_ids empty_db /\
  (forall d data, dense_ids d -> dense_ids (snd (insert_post d data))) /\
  (forall d batch, dense_ids d -> dense_ids (snd (insert_batch d batch))) /\
  (forall d f h, dense_ids d -> dense_ids (mark_file_processed d f h)) /\
  (forall json_loads w ds,
     dense_ids (db_ ds) -> dense_ids (db_ (download_and_process json_loads w ds))).
Proof.
  split; [apply dense_empty|]. split; [apply dense_insert_post|].
  split; [apply dense_insert_batch|]. split; [apply dense_mark|].
  intros json_loads w ds.
  apply (R_download_and_process json_loads (fun _ => True)
           (fun x y => dense_ids (snd x) -> dense_ids (snd y))); simpl.
  - done.
  - auto.
  - auto.
  - intros n d l _. apply dense_insert_batch.
  - intros n d f h. apply dense_mark.
  - auto.
Qed.

(** X12: with such identifiers, [get_post_by_id] returns the row at the
    place the identifier names, and nothing for an identifier below 1 or
    above the number of posts; an identifier that does not fit in 64 signed
    bits raises [OverflowError]. *)
Theorem get_post_by_id_spec d db_id :
  dense_ids d ->
  get_post_by_id d db_id
  = (if int64 db_id
     then Ok (if Z.leb 1 db_id then posts d !! Z.to_nat (db_id - 1) else None)
     else Raise OverflowError) /\
  (get_post_by_id d db_id = Ok None <->
   int64 db_id = true /\ (db_id < 1 \/ get_total_count d < db_id)).
Proof.
  intros Hd. rewrite get_post_by_id_dense by done. split; [done|].
  unfold get_total_count. destruct (int64 db_id); [|by split; [|intros []]].
  destruct (Z.leb_spec 1 db_id) as [H|H].
  - split.
    + intros [= E]. split; [done|]. apply lookup_ge_None in E. lia.
    + intros [_ E]. f_equal. apply lookup_ge_None. lia.
  - split; [|done]. intros _. split; [done|]. by left.
Qed.

(** A witness of X12: the second of two posts, and the identifier [2^63]. *)
Lemma get_post_by_id_spec_witness :
  get_post_by_id two_posts 2 = Ok (posts two_posts !! 1%nat) /\
  get_post_by_id two_posts (2 ^ 63) = Raise OverflowError.
Proof.
  split.
  - apply (get_post_by_id_spec two_posts 2). apply dense_insert_batch, dense_empty.
  - apply (get_post_by_id_spec two_posts (2 ^ 63)). apply dense_insert_batch, dense_empty.
Defined.

(** X13: a post [insert_post] has accepted is found again: under the
    identifier the counter had, as long as that fits in 64 signed bits,
    with the columns of the record; the count of posts is one more, and its
    hash, if it has one that is not empty, is one [post_exists] knows. *)
Theorem insert_post_then_get d data d' :
  dense_ids d -> insert_post d (JObject data) = (Ok true, d') ->
  exists pid, j_id data = Some pid /\
    get_post_by_id d' (next_id d) =
      (if int64 (next_id d) then Ok (Some (new_row (next_id d) pid data))
       else Raise OverflowError) /\
    get_total_count d' = get_total_count d + 1 /\
    forall h, j_md5 data = Some h -> h <> [] -> post_exists d' (Some h) = true.
Proof.
  intros Hd Hi. destruct (insert_post_true d data d' Hi) as (pid & Hp & -> & Hn).
  exists pid. split; [done|]. split; [|split].
  - assert (Hd' : dense_ids (commit (appended d pid data))).
    { pose proof (dense_insert_post d (JObject data) Hd) as H. by rewrite Hi in H. }
    rewrite get_post_by_id_dense by done. destruct (int64 (next_id d)); [|done].
    do 2 f_equal. destruct Hd as [Hnext _]. rewrite Hnext.
    rewrite (proj2 (Z.leb_le _ _)) by lia. simpl.
    replace (Z.to_nat (Z.of_nat (length (posts d)) + 1 - 1)) with (length (posts d)) by lia.
    rewrite lookup_app_r by lia. rewrite Nat.sub_diag. simpl. by rewrite Hnext.
  - unfold get_total_count. simpl. rewrite length_app. simpl. lia.
  - intros h Hh Hne. unfold post_exists. rewrite (proj2 (truthy_true h)) by done.
    apply select_md5_spec. exists (new_row (next_id d) pid data). split; [|done].
    simpl. apply in_or_app. right. by left.
Qed.

(** A witness of X13: a first post. *)
Lemma insert_post_then_get_witness :
  exists pid, j_id (sample_post (Some 7) (Some (py "h")) None None) = Some pid /\
    get_post_by_id
      (snd (insert_post empty_db
              (JObject (sample_post (Some 7) (Some (py "h")) None None))))
      (next_id empty_db)
    = Ok (Some (new_row (next_id empty_db) pid
                  (sample_post (Some 7) (Some (py "h")) None None))) /\
    get_total_count
      (snd (insert_post empty_db
              (JObject (sample_post (Some 7) (Some (py "h")) None None))))
    = get_total_count empty_db + 1 /\
    forall h, j_md5 (sample_post (Some 7) (Some (py "h")) None None) = Some h ->
      h <> [] ->
      post_exists
        (snd (insert_post empty_db
                (JObject (sample_post (Some 7) (Some (py "h")) None None))))
        (Some h) = true.
Proof.
  apply (insert_post_then_get empty_db
           (sample_post (Some 7) (Some (py "h")) None None)).
  - apply dense_empty.
  - reflexivity.
Defined.


Section LedgerFacts.

Variable json_loads : str -> option json.

Lemma ledger_insert_batch d batch :
  processed_files (snd (insert_batch d batch)) = processed_files d.
Proof.
  destruct (insert_batch_tables d batch) as (_ & _ & ->).
  by destruct (insert_loop_grows batch 0 d) as (new & _ & _ & -> & _).
Qed.

(** Reading a file leaves the ledger and the file limit as they are. *)
Lemma ledger_stream w ds filename file :
  processed_files (db_ (snd (_stream_process_file json_loads w ds filename file)))
  = processed_files (db_ ds) /\
  file_limit (snd (_stream_process_file json_loads w ds filename file)) = file_limit ds.
Proof.
  destruct (R_stream_process_file json_loads (fun _ => True)
              (fun x y => processed_files (snd y) = processed_files (snd x))
              ltac:(done) ltac:(done) ltac:(intros x y z; simpl; congruence)
              ltac:(intros n d l _; simpl; apply ledger_insert_batch)
              w ds filename file) as (H & Hl & _).
  by split.
Qed.

(** [process_file] marks its file, unless [hf_hub_url] has raised. *)
Lemma ledger_process_file w ds filename file :
  processed_files (db_ (process_file json_loads w ds filename file))
  = match file with
    | UrlError => processed_files (db_ ds)
    | _ => <[filename := None]> (processed_files (db_ ds))
    end /\
  file_limit (process_file json_loads w ds filename file) = file_limit ds.
Proof.
  unfold process_file.
  destruct file as [| |r]; [done| |];
    match goal with
    | |- context [_stream_process_file ?j ?w ?ds ?f ?x] =>
        pose proof (ledger_stream w ds f x) as (H & Hl);
        destruct (_stream_process_file j w ds f x) as [n ds']
    end; simpl in *; by rewrite H.
Qed.

Lemma marked_insert (d : db) (m : gmap str (option str)) (filename f : str) :
  processed_files d = <[filename := None]> m ->
  is_file_processed d f = true <-> f = filename \/ is_Some (m !! f).
Proof.
  intros E. unfold is_file_processed. rewrite E.
  destruct (decide (f = filename)) as [->|Hne].
  - rewrite lookup_insert_eq. split; [by left|done].
  - rewrite lookup_insert_ne by done. destruct (m !! f) eqn:Hm.
    + split; [right; by eexists|done].
    + split; [done|]. intros [?|[? ?]]; done.
Qed.

Lemma marked_is_Some (d : db) (f : str) : is_file_processed d f = true <-> is_Some (processed_files d !! f).
Proof.
  unfold is_file_processed. destruct (processed_files d !! f).
  - split; [by eexists|done].
  - split; [done|]. by intros [? ?].
Qed.

(** A mark, once made, stays. *)
Lemma marked_files_loop w files ds f :
  is_file_processed (db_ ds) f = true ->
  is_file_processed (db_ (files_loop json_loads w files ds)) f = true.
Proof.
  apply (R_files_loop json_loads (fun _ => True)
    (fun x y => is_file_processed (snd x) f = true -> is_file_processed (snd y) f = true));
    simpl.
  - done.
  - auto.
  - auto.
  - intros n d l _. by rewrite !marked_is_Some, ledger_insert_batch.
  - intros n d g h. rewrite !marked_is_Some. simpl.
    intros [x Hx]. destruct (decide (f = g)) as [->|Hne].
    + rewrite lookup_insert_eq. by eexists.
    + rewrite lookup_insert_ne by done. by eexists.
  - auto.
Qed.

(** The loop marks files of its list only. *)
Lemma files_loop_only w files ds f :
  is_file_processed (db_ (files_loop json_loads w files ds)) f = true ->
  is_file_processed (db_ ds) f = true \/ In f files.
Proof.
  revert ds. induction files as [|f0 files IH]; intros ds; simpl; [by left|].
  destruct (match cancel_after w with Some k => (k <=? polls ds)%nat | None => false end);
    [by left|].
  intros H. apply IH in H as [H|H]; [|by right; right].
  match type of H with
  | is_file_processed (db_ (process_file _ _ ?d _ ?x)) _ = true =>
      destruct (ledger_process_file w d f0 x) as [E _]; revert E H; destruct x;
        intros E H
  end.
  - left. apply marked_is_Some. cbn [db_] in E. rewrite <- E. by apply marked_is_Some.
  - apply (marked_insert _ _ _ _ E) in H as [->|H]; [right; by left|].
    left. by apply marked_is_Some.
  - apply (marked_insert _ _ _ _ E) in H as [->|H]; [right; by left|].
    left. by apply marked_is_Some.
Qed.

(** A loop nobody cancels marks every file of its list the remote side
    gives an address for. *)
Lemma files_loop_all w files ds f :
  cancel_after w = None -> In f files -> remote w f <> UrlError ->
  is_file_processed (db_ (files_loop json_loads w files ds)) f = true.
Proof.
  intros Hc Hin Hr. revert ds. induction files as [|f0 files IH]; intros ds; [done|].
  simpl. rewrite Hc. destruct Hin as [->|Hin]; [|by apply IH].
  apply marked_files_loop.
  match goal with
  | |- is_file_processed (db_ (process_file _ _ ?d _ ?x)) _ = true =>
      destruct (ledger_process_file w d f x) as [E _]
  end.
  revert E. destruct (remote w f); [done|..]; intros E;
    apply (marked_insert _ _ _ _ E); by left.
Qed.

Lemma file_limit_files_loop w files ds :
  file_limit (files_loop json_loads w files ds) = file_limit ds.
Proof.
  revert ds. induction files as [|f0 files IH]; intros ds; simpl; [done|].
  destruct (match cancel_after w with Some k => (k <=? polls ds)%nat | None => false end);
    [done|].
  rewrite IH.
  match goal with
  | |- file_limit (process_file _ _ ?d _ ?x) = _ =>
      by destruct (ledger_process_file w d f0 x) as [_ ->]
  end.
Qed.

(** A run is the loop over the candidates that are not marked. *)
Lemma download_unfold w ds :
  exists ds0,
    db_ ds0 = db_ ds /\ file_limit ds0 = file_limit ds /\
    db_ (download_and_process json_loads w ds)
    = db_ (files_loop json_loads w
             (filter (fun f => is_file_processed (db_ ds) f = false) (candidates w ds))
             ds0) /\
    file_limit (download_and_process json_loads w ds) = file_limit ds.
Proof.
  unfold download_and_process, candidates, get_jsonl_files.
  destruct (listing w) as [all_files|];
    cbn [fst snd db_ file_limit with_log];
    match goal with
    | |- context [files_loop _ _ _ ?d] => exists d
    end;
    (split; [done|]); (split; [done|]);
    match goal with |- context [filter ?P ?l] => destruct (filter P l) eqn:E end;
    unfold set_downloading; cbn [db_ file_limit];
    rewrite ?file_limit_files_loop; by split.
Qed.

Lemma download_marked w ds f :
  is_file_processed (db_ ds) f = true ->
  is_file_processed (db_ (download_and_process json_loads w ds)) f = true.
Proof.
  intros H. destruct (download_unfold w ds) as (ds0 & E0 & _ & -> & _).
  apply marked_files_loop. by rewrite E0.
Qed.

Lemma download_only w ds f :
  is_file_processed (db_ (download_and_process json_loads w ds)) f = true ->
  is_file_processed (db_ ds) f = true \/ In f (candidates w ds).
Proof.
  destruct (download_unfold w ds) as (ds0 & E0 & _ & -> & _). intros H.
  apply files_loop_only in H as [H|H]; [left; by rewrite <- E0|right].
  apply list_elem_of_In, list_elem_of_filter in H as [_ H]. by apply list_elem_of_In.
Qed.

Lemma download_all w ds f :
  cancel_after w = None -> In f (candidates w ds) -> remote w f <> UrlError ->
  is_file_processed (db_ (download_and_process json_loads w ds)) f = true.
Proof.
  intros Hc Hin Hr. destruct (is_file_processed (db_ ds) f) eqn:Hf.
  - by apply download_marked.
  - destruct (download_unfold w ds) as (ds0 & E0 & _ & -> & _).
    apply files_loop_all; [done| |done].
    apply list_elem_of_In, list_elem_of_filter. split; [done|by apply list_elem_of_In].
Qed.

End LedgerFacts.

(** X15: a run never takes a mark away, and marks no file but the
    candidates: the sorted [.jsonl] names of the listing, cut at the file
    limit. *)
Theorem run_marks_candidates_only json_loads w ds f :
  (is_file_processed (db_ ds) f = true ->
   is_file_processed (db_ (download_and_process json_loads w ds)) f = true) /\
  (is_file_processed (db_ (download_and_process json_loads w ds)) f = true ->
   is_file_processed (db_ ds) f = true \/ In f (candidates w ds)).
Proof. split; [apply download_marked|apply download_only]. Qed.

(** X16: after a run nobody cancels, every candidate is marked for which
    [hf_hub_url] has not raised, whatever has become of its stream. *)
Theorem uncancelled_run_marks json_loads w ds f :
  cancel_after w = None -> In f (candidates w ds) -> remote w f <> UrlError ->
  is_file_processed (db_ (download_and_process json_loads w ds)) f = true.
Proof. apply download_all. Qed.

(** A witness of X16: the file whose stream breaks. *)
Lemma uncancelled_run_marks_witness :
  is_file_processed
    (db_ (download_and_process line_loads broken_file (new_downloader empty_db None)))
    (py "a.jsonl") = true.
Proof.
  apply (uncancelled_run_marks line_loads broken_file (new_downloader empty_db None)
           (py "a.jsonl")); [done|by left|done].
Defined.

(** X17: a run nobody cancels and in which [hf_hub_url] never raises is
    not repeated: a second run over the same listing leaves the database as
    the first run has left it, whatever the remote side then sends. *)
Theorem second_run_changes_nothing json_loads json_loads' w w' ds :
  cancel_after w = None ->
  (forall f, In f (candidates w ds) -> remote w f <> UrlError) ->
  listing w' = listing w ->
  db_ (download_and_process json_loads' w' (download_and_process json_loads w ds))
  = db_ (download_and_process json_loads w ds).
Proof.
  intros Hc Hr Hl.
  destruct (download_unfold json_loads w ds) as (_ & _ & _ & _ & Hlim).
  destruct (download_unfold json_loads' w' (download_and_process json_loads w ds))
    as (ds0 & E0 & _ & -> & _).
  assert (Hcand : candidates w' (download_and_process json_loads w ds) = candidates w ds).
  { unfold candidates, get_jsonl_files. rewrite Hl, Hlim. by destruct (listing w). }
  rewrite Hcand.
  match goal with |- context [filter ?P ?l] => destruct (filter P l) as [|x l'] eqn:E end;
    [done|].
  assert (Hx : x ∈ x :: l') by left. rewrite <- E in Hx.
  apply list_elem_of_filter in Hx as [Hx Hin]. apply list_elem_of_In in Hin.
  by rewrite (download_all json_loads w ds x Hc Hin (Hr x Hin)) in Hx.
Qed.

(** A witness of X17: the file of three lines, run twice. *)
Lemma second_run_changes_nothing_witness :
  db_ (download_and_process line_loads (one_file None)
         (download_and_process line_loads (one_file None)
            (new_downloader empty_db None)))
  = db_ (download_and_process line_loads (one_file None) (new_downloader empty_db None)).
Proof.
  apply (second_run_changes_nothing line_loads line_loads (one_file None)
           (one_file None) (new_downloader empty_db None)); done.
Defined.

Section ListingFacts.

#[local] Instance str_le_total : Total str_le.
Proof.
  intros a. unfold str_le. induction a as [|x a IH]; intros b; [by left|].
  destruct b as [|y b]; [by right|]. simpl.
  destruct (N.ltb_spec (N_of_ascii x) (N_of_ascii y)) as [H|H]; [by left|].
  destruct (N.ltb_spec (N_of_ascii y) (N_of_ascii x)) as [H'|H']; [by right|].
  apply IH.
Qed.

#[local] Instance str_le_trans : Transitive str_le.
Proof.
  intros a. unfold str_le. induction a as [|x a IH]; intros b c; [done|].
  destruct b as [|y b]; [done|]. destruct c as [|z c]; [done|]. simpl.
  destruct (N.ltb_spec (N_of_ascii x) (N_of_ascii y)) as [H1|H1].
  - intros _.
    destruct (N.ltb_spec (N_of_ascii y) (N_of_ascii z)) as [H2|H2].
    + intros _. rewrite (proj2 (N.ltb_lt _ _)) by lia. done.
    + destruct (N.ltb_spec (N_of_ascii z) (N_of_ascii y)) as [H3|H3]; [done|].
      intros _. rewrite (proj2 (N.ltb_lt _ _)) by lia. done.
  - destruct (N.ltb_spec (N_of_ascii y) (N_of_ascii x)) as [H1'|H1']; [done|].
    intros Hab.
    destruct (N.ltb_spec (N_of_ascii y) (N_of_ascii z)) as [H2|H2].
    + intros _. rewrite (proj2 (N.ltb_lt _ _)) by lia. done.
    + destruct (N.ltb_spec (N_of_ascii z) (N_of_ascii y)) as [H3|H3]; [done|].
      intros Hbc.
      rewrite (proj2 (N.ltb_ge _ _)) by lia. rewrite (proj2 (N.ltb_ge _ _)) by lia.
      by apply (IH b c).
Qed.

#[local] Instance str_le_antisym : AntiSymm (=) str_le.
Proof.
  intros a. unfold str_le. induction a as [|x a IH]; intros b; [by destruct b|].
  destruct b as [|y b]; [done|]. simpl.
  destruct (N.ltb_spec (N_of_ascii x) (N_of_ascii y)) as [H|H].
  - intros _. by rewrite (proj2 (N.ltb_ge _ _)) by lia.
  - destruct (N.ltb_spec (N_of_ascii y) (N_of_ascii x)) as [H'|H']; [done|].
    intros Hab Hba. f_equal; [|by apply IH].
    rewrite <- (ascii_N_embedding x), <- (ascii_N_embedding y). f_equal. lia.
Qed.

Lemma sorted_sorted l : StronglySorted str_le (sorted l).
Proof. apply StronglySorted_merge_sort; apply _. Qed.

Lemma sorted_perm l : sorted l ≡ₚ l.
Proof. apply merge_sort_Permutation. Qed.

(** The sorted list depends on the names, not on their order. *)
Lemma sorted_unique l l' : l ≡ₚ l' -> sorted l = sorted l'.
Proof.
  intros H. apply (StronglySorted_unique str_le); try apply sorted_sorted.
  by rewrite !sorted_perm.
Qed.

End ListingFacts.

(** X18: the names [get_jsonl_files] returns are the names of the listing
    that end in [.jsonl], in ascending order of their character codes; they
    do not depend on the order of the listing; and there is none when the
    listing fails. *)
Theorem get_jsonl_files_sorted w ds :
  StronglySorted str_le (fst (get_jsonl_files w ds)) /\
  (forall f, In f (fst (get_jsonl_files w ds)) <->
     exists all_files, listing w = Some all_files /\ In f all_files /\
       endswith FILE_EXTENSION f = true) /\
  (forall w' l l', listing w = Some l -> listing w' = Some l' -> Permutation l l' ->
     fst (get_jsonl_files w' ds) = fst (get_jsonl_files w ds)).
Proof.
  unfold get_jsonl_files. split; [|split].
  - destruct (listing w) as [all_files|]; simpl; [apply sorted_sorted|constructor].
  - intros f. destruct (listing w) as [all_files|]; simpl.
    + rewrite <- list_elem_of_In, sorted_perm, list_elem_of_filter, list_elem_of_In.
      split.
      * intros [He Hin]. exists all_files. split; [done|]. split; [done|].
        by apply Is_true_true.
      * intros (all' & [= <-] & Hin & He). split; [by apply Is_true_true|done].
    + split; [done|]. by intros (all' & ? & _).
  - intros w' l l' -> -> Hp. simpl. apply sorted_unique. by rewrite Hp.
Qed.

Section StreamFacts.

Variable json_loads : str -> option json.

Lemma chr_eqb_sym a b : chr_eqb a b = chr_eqb b a.
Proof.
  destruct (chr_eqb a b) eqn:E.
  - apply chr_eqb_eq in E as ->. symmetry. by apply chr_eqb_eq.
  - symmetry. apply chr_eqb_neq. apply chr_eqb_neq in E. congruence.
Qed.

Lemma split_chr_nonempty sep s : split_chr sep s <> [].
Proof.
  destruct s as [|c s]; simpl; [done|]. destruct (chr_eqb c sep); [done|].
  by destruct (split_chr sep s).
Qed.

Lemma split_chr_once sep s :
  contains_chr sep s = true ->
  split_chr sep s = fst (split_once sep s) :: split_chr sep (snd (split_once sep s)).
Proof.
  unfold contains_chr. induction s as [|c s IH]; [done|]. cbn [existsb split_chr split_once].
  rewrite (chr_eqb_sym sep c). destruct (chr_eqb c sep); [done|]. simpl.
  intros H. rewrite (IH H). by destruct (split_once sep s).
Qed.

Lemma split_chr_whole sep s : contains_chr sep s = false -> split_chr sep s = [s].
Proof.
  unfold contains_chr. induction s as [|c s IH]; [done|]. cbn [existsb split_chr].
  rewrite (chr_eqb_sym sep c). destruct (chr_eqb c sep); [done|]. simpl.
  intros H. by rewrite (IH H).
Qed.

(** More text only touches the last piece. *)
Lemma split_chr_snoc_app sep a b ps r :
  split_chr sep a = ps ++ [r] ->
  split_chr sep (a ++ b) = ps ++ split_chr sep (r ++ b).
Proof.
  revert ps r. induction a as [|c a IH]; intros ps r.
  - simpl. destruct ps as [|p [|??]]; [by intros [= <-]|done|done].
  - cbn [split_chr app]. destruct (chr_eqb c sep) eqn:Ec.
    + destruct ps as [|p ps].
      * intros [= _ H]. by destruct (split_chr_nonempty sep a).
      * intros [= <- H]. by rewrite (IH ps r H).
    + pose proof (split_chr_nonempty sep a) as Hne.
      destruct (split_chr sep a) as [|p rest]; [done|].
      destruct ps as [|q ps].
      * intros [= <- ->]. rewrite (IH [] p eq_refl). simpl. by rewrite Ec.
      * intros [= <- ->]. by rewrite (IH (p :: ps) r eq_refl).
Qed.

Lemma split_chr_once_app sep s b :
  contains_chr sep s = true ->
  split_chr sep (s ++ b)
  = fst (split_once sep s) :: split_chr sep (snd (split_once sep s) ++ b).
Proof.
  unfold contains_chr. induction s as [|c s IH]; [done|].
  cbn [existsb split_chr split_once app].
  rewrite (chr_eqb_sym sep c). destruct (chr_eqb c sep); [done|]. simpl.
  intros H. rewrite (IH H). by destruct (split_once sep s).
Qed.

Lemma eqv_refl x : eqv x x.
Proof. split; [done|apply same_tables_refl]. Qed.

Lemma eqv_trans x y z : eqv x y -> eqv y z -> eqv x z.
Proof. intros [H1 H2] [H3 H4]. split; [congruence|by eapply same_tables_trans]. Qed.

Lemma eqv_sym x y : eqv x y -> eqv y x.
Proof. intros [H1 H2]. split; [done|by apply same_tables_sym]. Qed.

Lemma select_md5_same d d' h : posts d = posts d' -> select_md5 d h = select_md5 d' h.
Proof. unfold select_md5. by intros ->. Qed.

(** The loop does the same on the same tables. *)
Lemma loop_eqv l n d d' :
  same_tables d d' -> eqv (insert_loop l n d) (insert_loop l n d').
Proof.
  revert n d d'. induction l as [|data l IH]; intros n d d' Hs; cbn [insert_loop];
    [by split|].
  destruct data as [data|]; [|by split].
  destruct Hs as (Hp & Hi & Hf). unfold insert_row.
  destruct (bindable data); [|by split].
  destruct (j_id data) as [pid|]; [|by apply IH].
  assert (E : match j_md5 data with Some h => select_md5 d h | None => false end
              = match j_md5 data with Some h => select_md5 d' h | None => false end)
    by (destruct (j_md5 data); [by apply select_md5_same|done]).
  rewrite E.
  destruct (match j_md5 data with Some h => select_md5 d' h | None => false end);
    [by apply IH|].
  apply IH. unfold same_tables. simpl. by rewrite Hp, Hi, Hf.
Qed.

Lemma resume_eqv l x y : eqv x y -> eqv (resume l x) (resume l y).
Proof.
  destruct x as [[n|e] d], y as [[n'|e'] d']; intros [Hf Hs]; simpl in *;
    simplify_eq; by first [apply loop_eqv|split].
Qed.

Lemma insert_loop_app l l' n d :
  insert_loop (l ++ l') n d = resume l' (insert_loop l n d).
Proof.
  revert n d. induction l as [|data l IH]; intros n d; [done|].
  cbn [app insert_loop]. destruct data as [data|]; [|done].
  by destruct (insert_row d data) as [[d'|]|e].
Qed.

Lemma resume_app l l' x : resume (l ++ l') x = resume l' (resume l x).
Proof. destruct x as [[n|e] d]; [apply insert_loop_app|done]. Qed.

Lemma resume_nil x : resume [] x = x.
Proof. by destruct x as [[n|e] d]. Qed.

(** Where the count starts only shifts it. *)
Lemma insert_loop_from l n d :
  fst (insert_loop l n d)
  = match fst (insert_loop l 0 d) with Ok m => Ok (n + m) | Raise e => Raise e end /\
  snd (insert_loop l n d) = snd (insert_loop l 0 d).
Proof.
  revert n d. induction l as [|data l IH]; intros n d; cbn [insert_loop].
  - simpl. split; [f_equal; lia|done].
  - destruct data as [data|]; [|done].
    destruct (insert_row d data) as [[d'|]|e]; [|apply IH|done].
    destruct (IH (n + 1) d') as [H1 H2]. destruct (IH (0 + 1) d') as [H3 H4].
    rewrite H1, H2, H3, H4. split; [|done].
    destruct (fst (insert_loop l 0 d')); [f_equal; lia|done].
Qed.

(** A stream an exception has ended stays where it is, whatever follows. *)
Lemma tracks_halt_resume st l x : tracks (Halt st) x -> tracks (Halt st) (resume l x).
Proof.
  destruct x as [[n|e] d]; intros [[e' He] Hs]; simpl in *; [done|].
  split; [by exists e|done].
Qed.

Lemma tracks_eqv f x y : tracks f x -> eqv x y -> tracks f y.
Proof.
  destruct f as [st|st]; simpl.
  - apply eqv_trans.
  - intros [[e He] Hs] [H1 H2]. split; [exists e; congruence|].
    by eapply same_tables_trans.
Qed.

(** A flush, against the loop on the batch. *)
Lemma flush_tracks n d l :
  match insert_batch d l with
  | (Ok added, d') => eqv (Ok (n + added), d') (insert_loop l n d)
  | (Raise e, d') => fst (insert_loop l n d) = Raise e /\ d' = snd (insert_loop l n d)
  end.
Proof.
  destruct (insert_loop_from l n d) as [H1 H2]. unfold insert_batch.
  destruct (insert_loop l 0 d) as [[m|e] d']; simpl in *.
  - split; [done|]. simpl. rewrite H2. by apply same_tables_sym, same_tables_commit.
  - by split.
Qed.

Lemma tracks_append_data st data :
  tracks (append_data st data) (resume [data] (pending st)).
Proof.
  unfold pending. rewrite <- insert_loop_app. unfold append_data.
  destruct (_ <=? _)%nat; [|apply eqv_refl].
  pose proof (flush_tracks (posts_added st) (s_db st) (batch st ++ [data])) as H.
  destruct (insert_batch (s_db st) (batch st ++ [data])) as [[m|e] d]; simpl.
  - exact H.
  - destruct H as [H ->]. split; [by exists e|apply same_tables_refl].
Qed.

Lemma tracks_process_line st line :
  tracks (process_line json_loads st line)
         (resume (decode_line json_loads line) (pending st)).
Proof.
  unfold process_line, decode_line.
  destruct (truthy (strip line)); [|rewrite resume_nil; apply eqv_refl].
  destruct (json_loads line); [apply tracks_append_data|].
  rewrite resume_nil. apply eqv_refl.
Qed.

(** The [while] loop handles the lines that are complete and leaves the
    rest in the buffer; when an exception ends it, the lines handled are
    the first lines of the text, whatever the text goes on with. *)
Lemma complete_lines_spec rounds st :
  (length (buffer st) <= rounds)%nat ->
  exists ps,
    tracks (complete_lines json_loads rounds st)
           (resume (concat (map (decode_line json_loads) ps)) (pending st)) /\
    match complete_lines json_loads rounds st with
    | Go st' => split_chr newline (buffer st) = ps ++ [buffer st']
    | Halt _ => forall b, exists rest, split_chr newline (buffer st ++ b) = ps ++ rest
    end.
Proof.
  revert st. induction rounds as [|rounds IH]; intros st Hl.
  - exists []. destruct (buffer st) eqn:E; [|simpl in Hl; lia].
    simpl. rewrite E, resume_nil. split; [apply eqv_refl|done].
  - cbn [complete_lines]. destruct (contains_chr newline (buffer st)) eqn:Hc.
    + pose proof (split_once_shorter _ _ Hc) as Hs.
      pose proof (split_chr_once_app newline (buffer st)) as Hb.
      rewrite (split_chr_once _ _ Hc).
      destruct (split_once newline (buffer st)) as [line rest]. simpl in Hs, Hb.
      simpl fst. simpl snd.
      pose proof (tracks_process_line (set_buffer st rest) line) as Ht.
      pose proof (buffer_process_line json_loads (set_buffer st rest) line) as Hbuf.
      destruct (process_line json_loads (set_buffer st rest) line) as [st1|st1].
      * simpl in Hbuf. destruct (IH st1) as (ps & H & E); [rewrite Hbuf; lia|].
        exists (line :: ps). cbn [map concat]. rewrite resume_app. split.
        -- eapply tracks_eqv; [exact H|]. apply resume_eqv. exact Ht.
        -- destruct (complete_lines json_loads rounds st1) as [st2|st2].
           ++ rewrite Hbuf in E. by rewrite E.
           ++ intros b. rewrite (Hb b Hc). destruct (E b) as (r & Er).
              rewrite Hbuf in Er. exists r. by rewrite Er.
      * exists [line]. cbn [map concat]. rewrite app_nil_r. split; [exact Ht|].
        intros b. rewrite (Hb b Hc). by eexists.
    + exists []. rewrite resume_nil. split; [apply eqv_refl|by apply split_chr_whole].
Qed.

Lemma process_chunk_spec st chunk :
  contains_chr newline (buffer st) = false ->
  exists ps,
    tracks (process_chunk json_loads st chunk)
           (resume (concat (map (decode_line json_loads) ps)) (pending st)) /\
    match process_chunk json_loads st chunk with
    | Go st' => split_chr newline (buffer st ++ chunk) = ps ++ [buffer st'] /\
                contains_chr newline (buffer st') = false
    | Halt _ =>
        forall b, exists rest, split_chr newline ((buffer st ++ chunk) ++ b) = ps ++ rest
    end.
Proof.
  intros Hnl. unfold process_chunk. destruct (truthy chunk) eqn:Ht.
  - destruct (complete_lines_spec (length (buffer st ++ chunk))
                (set_buffer st (buffer st ++ chunk))) as (ps & H & E); [done|].
    exists ps. split; [exact H|].
    pose proof (complete_lines_enough json_loads (length (buffer st ++ chunk))
                  (set_buffer st (buffer st ++ chunk))) as He.
    destruct (complete_lines json_loads _ _) as [st'|st']; [|exact E].
    split; [exact E|]. by apply He.
  - destruct chunk; [|done]. exists []. rewrite app_nil_r, resume_nil.
    split; [apply eqv_refl|]. split; [by apply split_chr_whole|done].
Qed.

(** A loop nobody cancels, on a stream that does not break: it ends
    normally with every chunk handled, or by the exception of a flush. *)
Lemma chunk_loop_spec w cs ds st :
  cancel_after w = None -> contains_chr newline (buffer st) = false ->
  exists ps,
    let '(normal, ds', st') := chunk_loop json_loads w cs false ds st in
    log ds' = log ds /\
    if normal then
      split_chr newline (buffer st ++ concat cs) = ps ++ [buffer st'] /\
      eqv (pending st') (resume (concat (map (decode_line json_loads) ps)) (pending st))
    else
      (exists rest, split_chr newline (buffer st ++ concat cs) = ps ++ rest) /\
      tracks (Halt st') (resume (concat (map (decode_line json_loads) ps)) (pending st)).
Proof.
  intros Hc. revert ds st. induction cs as [|chunk cs IH]; intros ds st Hnl.
  - exists []. simpl. rewrite app_nil_r, resume_nil.
    split; [done|]. split; [by apply split_chr_whole|apply eqv_refl].
  - cbn [chunk_loop concat]. unfold is_set. rewrite Hc.
    destruct (process_chunk_spec st chunk Hnl) as (ps1 & H1 & E1).
    destruct (process_chunk json_loads st chunk) as [st1|st1].
    + destruct E1 as [E1 Hnl1].
      match goal with
      | |- context [chunk_loop _ _ _ _ ?d st1] =>
          destruct (IH d st1 Hnl1) as (ps2 & H2); exists (ps1 ++ ps2);
          destruct (chunk_loop json_loads w cs false d st1) as [[normal ds'] st']
      end.
      destruct H2 as [Hlog H2]. split; [exact Hlog|].
      rewrite map_app, concat_app, resume_app, app_assoc.
      rewrite (split_chr_snoc_app _ _ _ _ _ E1).
      destruct normal.
      * destruct H2 as [E2 H2]. split; [by rewrite E2, app_assoc|].
        eapply eqv_trans; [exact H2|]. by apply resume_eqv.
      * destruct H2 as [[rest E2] H2]. split; [exists rest; by rewrite E2, app_assoc|].
        eapply tracks_eqv; [exact H2|]. by apply resume_eqv.
    + exists ps1. split; [done|]. split; [|exact H1].
      rewrite app_assoc. apply E1.
Qed.

(** The statements after the loop handle the rest of the buffer as the last
    line, and flush. *)
Lemma finish_stream_spec st :
  match finish_stream json_loads st with
  | Go st' =>
      eqv (Ok (posts_added st'), s_db st')
          (resume (decode_line json_loads (buffer st)) (pending st))
  | Halt st' =>
      tracks (Halt st') (resume (decode_line json_loads (buffer st)) (pending st))
  end.
Proof.
  unfold finish_stream, decode_line.
  set (st1 := if truthy (strip (buffer st)) then _ else _).
  assert (E : pending st1
              = resume (if truthy (strip (buffer st))
                        then match json_loads (buffer st) with
                             | Some data => [data]
                             | None => []
                             end
                        else []) (pending st)).
  { unfold st1, pending. destruct (truthy _); [|by rewrite resume_nil].
    destruct (json_loads _); [|by rewrite resume_nil]. simpl.
    by rewrite insert_loop_app. }
  rewrite <- E. unfold pending.
  pose proof (flush_tracks (posts_added st1) (s_db st1) (batch st1)) as H.
  destruct (batch st1) as [|data batch'] eqn:Eb; [apply eqv_refl|].
  destruct (insert_batch (s_db st1) (data :: batch')) as [[m|e] d]; simpl.
  - exact H.
  - destruct H as [H ->]. split; [by exists e|apply same_tables_refl].
Qed.

(** The whole stream against one [insert_loop] of its records. *)
Lemma stream_as_loop w ds filename r :
  cancel_after w = None -> broken r = false ->
  let out := _stream_process_file json_loads w ds filename (Some r) in
  let all := insert_loop (records_of json_loads (concat (chunks r))) 0 (db_ ds) in
  same_tables (db_ (snd out)) (snd all) /\
  match fst all with
  | Ok n => fst out = n /\ log (snd out) = log ds
  | Raise _ => log (snd out) = log ds ++ [StreamError filename]
  end.
Proof.
  intros Hc Hb. cbv zeta. unfold _stream_process_file. rewrite Hb.
  destruct (chunk_loop_spec w (chunks r) ds
              {| s_db := db_ ds; buffer := []; batch := []; posts_added := 0 |}
              Hc eq_refl) as (ps & H).
  destruct (chunk_loop _ _ _ _ _ _) as [[normal ds'] st].
  destruct H as [Hlog H]. unfold records_of.
  change (pending {| s_db := db_ ds; buffer := []; batch := []; posts_added := 0 |})
    with (Ok 0, db_ ds) in H. simpl in H.
  destruct normal.
  - destruct H as [E H]. rewrite E, map_app, concat_app. cbn [map concat].
    rewrite app_nil_r, insert_loop_app.
    pose proof (finish_stream_spec st) as Hf.
    assert (Hr : eqv (resume (decode_line json_loads (buffer st)) (pending st))
                     (resume (decode_line json_loads (buffer st))
                        (insert_loop (concat (map (decode_line json_loads) ps)) 0 (db_ ds))))
      by by apply resume_eqv.
    destruct (finish_stream json_loads st) as [st'|st']; cbn [fst snd db_ with_db with_log log].
    + destruct (eqv_trans _ _ _ Hf Hr) as [H1 H2]. simpl in H1, H2.
      split; [exact H2|]. rewrite <- H1. by split.
    + destruct (tracks_eqv _ _ _ Hf Hr) as [[e He] H2].
      split; [exact H2|]. rewrite He. by rewrite Hlog.
  - destruct H as [[rest E] H]. rewrite E, map_app, concat_app, insert_loop_app.
    apply (tracks_halt_resume _ (concat (map (decode_line json_loads) rest))) in H.
    destruct H as [[e He] H2]. cbn [fst snd db_ with_db with_log log].
    split; [exact H2|]. rewrite He. by rewrite Hlog.
Qed.

End StreamFacts.

(** X19: a stream that ends and that nobody cancels leaves the tables as
    one [insert_batch] of its records would leave them: the records are the
    lines of the whole text, the last one with or without its newline, that
    are not blank and that [json.loads] accepts.  When that batch returns,
    the stream returns the same count and prints nothing; when it raises,
    on a line that is no object or on an integer that does not fit, the
    stream has stored the rows before that line, prints the error and
    stores none of the later lines.  Where the chunks are cut does not
    matter, and neither do the flushes of the batch of 1000. *)
Theorem stream_is_one_batch json_loads w ds filename r :
  cancel_after w = None -> broken r = false ->
  same_tables (db_ (snd (_stream_process_file json_loads w ds filename (Some r))))
    (snd (insert_batch (db_ ds) (records_of json_loads (concat (chunks r))))) /\
  match fst (insert_batch (db_ ds) (records_of json_loads (concat (chunks r)))) with
  | Ok n =>
      fst (_stream_process_file json_loads w ds filename (Some r)) = n /\
      log (snd (_stream_process_file json_loads w ds filename (Some r))) = log ds
  | Raise _ =>
      log (snd (_stream_process_file json_loads w ds filename (Some r)))
      = log ds ++ [StreamError filename]
  end.
Proof.
  intros Hc Hb. destruct (stream_as_loop json_loads w ds filename r Hc Hb) as [H1 H2].
  rewrite insert_batch_fst. split; [|exact H2].
  eapply same_tables_trans; [exact H1|]. apply same_tables_sym, insert_batch_tables.
Qed.

(** A witness of X19: three lines in two chunks. *)
Lemma stream_is_one_batch_witness :
  same_tables
    (db_ (snd (_stream_process_file line_loads (one_file None)
                 (new_downloader empty_db None) (py "a.jsonl")
                 (Some {| chunks := [py "1" ++ [newline] ++ py "2"; newline :: py "3"];
                          broken := false |}))))
    (snd (insert_batch (db_ (new_downloader empty_db None))
            (records_of line_loads
               (concat [py "1" ++ [newline] ++ py "2"; newline :: py "3"])))) /\
  fst (_stream_process_file line_loads (one_file None) (new_downloader empty_db None)
         (py "a.jsonl")
         (Some {| chunks := [py "1" ++ [newline] ++ py "2"; newline :: py "3"];
                  broken := false |}))
  = 3.
Proof.
  destruct (stream_is_one_batch line_loads (one_file None) (new_downloader empty_db None)
              (py "a.jsonl")
              {| chunks := [py "1" ++ [newline] ++ py "2"; newline :: py "3"];
                 broken := false |} eq_refl eq_refl) as [H1 H2].
  split; [exact H1|]. exact (proj1 H2).
Defined.

Section ProgressFacts.

Variable json_loads : str -> option json.

(** Reading a file leaves the counters of the run as they are, and the
    polls do not go down. *)
Lemma stream_polled w ds filename file :
  total_files (snd (_stream_process_file json_loads w ds filename file)) = total_files ds /\
  processed_files_ (snd (_stream_process_file json_loads w ds filename file))
    = processed_files_ ds /\
  (polls ds <= polls (snd (_stream_process_file json_loads w ds filename file)))%nat /\
  is_downloading (snd (_stream_process_file json_loads w ds filename file))
    = is_downloading ds.
Proof.
  unfold _stream_process_file. destruct file as [r|]; [|by repeat split].
  pose proof (R_chunk_loop json_loads (fun _ => True) (fun _ _ => True) ltac:(done)
    ltac:(done) ltac:(done) ltac:(done) w (chunks r) (broken r) ds
    {| s_db := db_ ds; buffer := []; batch := []; posts_added := 0 |}
    (Forall_nil_2 _)) as (_ & _ & H2).
  destruct (chunk_loop _ _ _ _ _ _) as [[normal ds'] st]. simpl in H2.
  destruct H2 as (? & ? & ? & ? & ? & ? & ? & ?).
  destruct normal; [|done]. by destruct (finish_stream json_loads st).
Qed.

Lemma process_file_polled w ds filename file :
  total_files (process_file json_loads w ds filename file) = total_files ds /\
  (processed_files_ (process_file json_loads w ds filename file)
   <= S (processed_files_ ds))%nat /\
  (polls ds <= polls (process_file json_loads w ds filename file))%nat /\
  is_downloading (process_file json_loads w ds filename file) = is_downloading ds.
Proof.
  unfold process_file.
  destruct file as [| |r]; [repeat split; simpl; lia| |];
    match goal with
    | |- context [_stream_process_file ?j ?w ?ds ?f ?x] =>
        pose proof (stream_polled w ds f x) as (H1 & H2 & H3 & H4);
        destruct (_stream_process_file j w ds f x) as [n ds']
    end; simpl in *; repeat split; try done; lia.
Qed.

(** The loop starts no file once the flag is seen set, and counts a file
    for every round at most. *)
Lemma files_loop_progress w files ds :
  total_files (files_loop json_loads w files ds) = total_files ds /\
  is_downloading (files_loop json_loads w files ds) = is_downloading ds /\
  (processed_files_ (files_loop json_loads w files ds)
   <= processed_files_ ds + length files)%nat /\
  forall k, cancel_after w = Some k ->
    (processed_files_ ds <= polls ds)%nat -> (processed_files_ ds <= k)%nat ->
    (processed_files_ (files_loop json_loads w files ds) <= k)%nat.
Proof.
  revert ds. induction files as [|f files IH]; intros ds.
  - simpl. repeat split; try done; lia.
  - cbn [files_loop]. unfold is_set.
    destruct (cancel_after w) as [k0|] eqn:Hc.
    + destruct (k0 <=? polls ds)%nat eqn:Hk.
      * simpl. split; [done|]. split; [done|]. split; [lia|]. by intros k [= <-].
      * apply Nat.leb_gt in Hk.
        match goal with
        | |- context [process_file _ _ ?d _ ?x] =>
            destruct (process_file_polled w d f x) as (H1 & H2 & H3 & H4);
            destruct (IH (process_file json_loads w d f x)) as (I1 & I2 & I3 & I4)
        end.
        simpl in H1, H2, H3, H4.
        split; [by rewrite I1, H1|]. split; [by rewrite I2, H4|].
        split; [simpl; lia|]. intros k [= <-] Hp Hle. apply I4; [done|lia|lia].
    + match goal with
      | |- context [process_file _ _ ?d _ ?x] =>
          destruct (process_file_polled w d f x) as (H1 & H2 & H3 & H4);
          destruct (IH (process_file json_loads w d f x)) as (I1 & I2 & I3 & I4)
      end.
      simpl in H1, H2, H3, H4.
      split; [by rewrite I1, H1|]. split; [by rewrite I2, H4|].
      split; [simpl; lia|]. done.
Qed.

End ProgressFacts.

(** X20: a run leaves [is_downloading] cleared; [total_files] is the number
    of candidates, so at most the file limit; [processed_files] does not go
    beyond [total_files]; and when the other thread cancels, no file is
    started once the flag is set: if only the first [k] tests of the flag
    see it clear, at most [k] files are counted. *)
Theorem run_progress json_loads w ds :
  is_downloading (download_and_process json_loads w ds) = false /\
  total_files (download_and_process json_loads w ds) = length (candidates w ds) /\
  (forall n, file_limit ds = Some (S n) ->
     (total_files (download_and_process json_loads w ds) <= S n)%nat) /\
  (processed_files_ (download_and_process json_loads w ds)
   <= total_files (download_and_process json_loads w ds))%nat /\
  (forall k, cancel_after w = Some k ->
     (processed_files_ (download_and_process json_loads w ds) <= k)%nat).
Proof.
  assert (Hcand : forall n, file_limit ds = Some (S n) ->
            (length (candidates w ds) <= S n)%nat).
  { intros n Hn. unfold candidates. rewrite Hn. rewrite length_take. lia. }
  unfold download_and_process, candidates in *. unfold get_jsonl_files in *.
  destruct (listing w) as [all_files|];
    cbn [fst snd db_ file_limit with_log] in *;
    match goal with |- context [filter ?P ?l] =>
      pose proof (length_filter P l) as Hlen; destruct (filter P l) as [|x l'] eqn:E
    end;
    unfold set_downloading;
    cbn [is_downloading total_files processed_files_ length] in *;
    repeat split; try done; try lia;
    match goal with
    | |- context [files_loop _ _ ?fs ?d] =>
        destruct (files_loop_progress json_loads w fs d) as (I1 & I2 & I3 & I4)
    end;
    cbn [total_files processed_files_ polls length] in *;
    try (rewrite I1; done); try lia.
  all: try (intros k Hk; apply (I4 k Hk); lia).
Qed.

Section ListFacts.

Lemma limit_rows_length limit (rows : list row) :
  (length (limit_rows limit rows) <= length rows)%nat /\
  (0 <= limit -> Z.of_nat (length (limit_rows limit rows)) <= limit).
Proof.
  unfold limit_rows. destruct (Z.ltb_spec limit 0) as [H|H]; [split; lia|].
  rewrite length_take. split; lia.
Qed.

(** What a search returns: the triples of stored rows, no more of them than
    there are rows, nor than the limit. *)
Lemma search_posts_rows d q limit rows :
  search_posts d q limit = Ok rows ->
  exists rs, rows = map selected rs /\
    (forall r, In r rs -> In r (posts d)) /\
    (length rs <= length (posts d))%nat /\
    (0 <= limit -> Z.of_nat (length rs) <= limit).
Proof.
  intros H.
  destruct (search_posts_ok d q limit rows H) as (s & p & bs & _ & _ & _ & Hl & Hs).
  rewrite (Hs limit), Hl in H. injection H as <-.
  eexists. split; [reflexivity|].
  destruct (limit_rows_length limit
              (order_by_post_id_desc (filter (fun r => where_ bs r) (posts d))))
    as [H1 H2].
  split; [|split; [|exact H2]].
  - intros r Hr. apply limit_rows_In in Hr. apply (proj1 (order_by_In _ _)) in Hr.
    apply list_elem_of_In, list_elem_of_filter in Hr as [_ Hr]. by apply list_elem_of_In.
  - etransitivity; [exact H1|]. unfold order_by_post_id_desc.
    rewrite (Permutation_length (merge_sort_Permutation _ _)). apply length_filter.
Qed.

Lemma split_replace t :
  contains_chr newline t = false ->
  split_chr newline (replace_chr " " newline t) = split_chr " " t.
Proof.
  unfold contains_chr, replace_chr. induction t as [|c t IH]; [done|].
  cbn [existsb map split_chr]. intros H. apply orb_false_iff in H as [Hc H].
  rewrite (IH H). destruct (chr_eqb c " ") eqn:E.
  - by change (chr_eqb newline newline) with true.
  - assert (E' : chr_eqb c newline = false).
    { apply chr_eqb_neq. apply chr_eqb_neq in Hc. congruence. }
    by rewrite E'.
Qed.

End ListFacts.

(** X21: the list [load_list] builds holds one entry for every row of the
    search, each the identifier and the [post_id] of a stored post; the
    header never shows more posts than the total, nor more than 50000; the
    selectables are the first 2000 entries, and the line that tells of more
    is added when there are more entries than that. *)
Theorem load_list_view d q v :
  load_list d q = Ok v ->
  length (post_cache v) = shown v /\
  total v = get_total_count d /\
  Z.of_nat (shown v) <= total v /\
  Z.of_nat (shown v) <= default_limit /\
  selectable_items v = Nat.min (shown v) 2000 /\
  (more_line v = true <-> (2000 < shown v)%nat) /\
  forall i db_id pid, post_cache v !! i = Some (db_id, pid) ->
    exists r, In r (posts d) /\ row_id r = db_id /\ post_id r = pid.
Proof.
  unfold load_list. destruct (search_posts d q default_limit) as [rows|e] eqn:Hs; [|done].
  intros [= <-]. cbn [post_cache shown total selectable_items more_line].
  destruct (search_posts_rows d q default_limit rows Hs) as (rs & -> & Hin & Hlen & Hlim).
  rewrite !length_map in *. split; [done|]. split; [done|].
  split; [unfold get_total_count; lia|].
  split; [apply Hlim; by unfold default_limit|].
  split; [rewrite length_take, !length_map; unfold display_limit; lia|].
  split; [unfold display_limit; by rewrite Nat.ltb_lt|].
  intros i db_id pid. rewrite !list_lookup_fmap.
  destruct (rs !! i) as [r|] eqn:Hr; [|done]. simpl. intros [= <- <-].
  exists r. split; [|done]. apply Hin, list_elem_of_In, list_elem_of_lookup. by exists i.
Qed.

(** A witness of X21: the list of two posts. *)
Lemma load_list_view_witness :
  exists v, load_list two_posts None = Ok v /\
    length (post_cache v) = shown v /\
    total v = get_total_count two_posts /\
    Z.of_nat (shown v) <= total v /\
    Z.of_nat (shown v) <= default_limit /\
    selectable_items v = Nat.min (shown v) 2000 /\
    (more_line v = true <-> (2000 < shown v)%nat) /\
    forall i db_id pid, post_cache v !! i = Some (db_id, pid) ->
      exists r, In r (posts two_posts) /\ row_id r = db_id /\ post_id r = pid.
Proof.
  eexists. split; [reflexivity|]. by apply (load_list_view two_posts None).
Defined.

(** X22: with the identifiers of X11, selecting an entry of the list shows
    the stored post the entry stands for, as long as its identifier fits in
    64 signed bits; beyond the list nothing is shown. *)
Theorem on_select_item_shows d q v idx :
  dense_ids d -> load_list d q = Ok v ->
  match post_cache v !! idx with
  | Some (db_id, pid) =>
      exists r, on_select_item d v idx = (if int64 db_id then Some r else None) /\
        In r (posts d) /\ row_id r = db_id /\ post_id r = pid
  | None => on_select_item d v idx = None
  end.
Proof.
  intros Hd Hl. unfold on_select_item.
  destruct (post_cache v !! idx) as [[db_id pid]|] eqn:Hc; [|done].
  unfold load_list in Hl.
  destruct (search_posts d q default_limit) as [rows|e] eqn:Hs; [|done].
  injection Hl as <-. cbn [post_cache] in Hc.
  destruct (search_posts_rows d q default_limit rows Hs) as (rs & -> & Hin & _).
  rewrite !list_lookup_fmap in Hc.
  destruct (rs !! idx) as [r|] eqn:Hr; [|done]. simpl in Hc. injection Hc as <- <-.
  assert (Hr' : In r (posts d)).
  { apply Hin, list_elem_of_In, list_elem_of_lookup. by exists idx. }
  exists r. split; [|done]. rewrite get_post_by_id_In by done.
  by destruct (int64 (row_id r)).
Qed.

(** A witness of X22: the first entry of the list of two posts. *)
Lemma on_select_item_shows_witness :
  exists v, load_list two_posts None = Ok v /\
    match post_cache v !! 0%nat with
    | Some (db_id, pid) =>
        exists r, on_select_item two_posts v 0 = (if int64 db_id then Some r else None) /\
          In r (posts two_posts) /\ row_id r = db_id /\ post_id r = pid
    | None => on_select_item two_posts v 0 = None
    end.
Proof.
  eexists. split; [reflexivity|].
  apply (on_select_item_shows two_posts None _ 0%nat); [|reflexivity].
  apply dense_insert_batch, dense_empty.
Defined.

(** X23: [refresh_list] shows what a search for the text of the search box
    shows, the empty text included, and for a box of blanks the whole
    list. *)
Theorem refresh_list_is_search d s n :
  refresh_list d s = load_list d (Some s) /\
  refresh_list d (repeat " " n) = load_list d None.
Proof.
  assert (Hb : forall k, search_posts d (Some (repeat " " k)) default_limit
                         = search_posts d None default_limit).
  { intros k. unfold search_posts, compile. destruct k as [|k]; [done|].
    cbn [repeat truthy]. unfold _parse_search_query.
    change (" " :: repeat " " k) with (repeat " " (S k)). by rewrite scan_blanks. }
  unfold refresh_list. split.
  - destruct s; [|done]. change (load_list d None = load_list d (Some (repeat " " 0))).
    unfold load_list. by rewrite Hb.
  - destruct n as [|n]; [done|]. cbn [repeat truthy]. unfold load_list.
    change (" " :: repeat " " n) with (repeat " " (S n)). by rewrite Hb.
Qed.

(** X24: the tags tab shows one tag per line: for a post with tags, the
    lines of the text are the pieces of the tag string between its
    blanks. *)
Theorem formatted_tags_lines post t :
  or_else (tag_string post) (tags post) = Some t -> t <> [] ->
  contains_chr newline t = false ->
  split_chr newline (formatted_tags post) = split_chr " " t.
Proof.
  intros Ho Hne Hnl. unfold formatted_tags. rewrite Ho.
  rewrite (proj2 (truthy_true t)) by done. by apply split_replace.
Qed.

(** A witness of X24: a post with two tags. *)
Lemma formatted_tags_lines_witness :
  split_chr newline
    (formatted_tags (new_row 1 1 (sample_post (Some 1) None (Some (py "fox wolf")) None)))
  = split_chr " " (py "fox wolf").
Proof.
  apply (formatted_tags_lines
           (new_row 1 1 (sample_post (Some 1) None (Some (py "fox wolf")) None))
           (py "fox wolf")); done.
Defined.

Section WrapFacts.

Lemma join_split sep s : join_chr sep (split_chr sep s) = s.
Proof.
  induction s as [|c s IH]; [done|]. cbn [split_chr].
  pose proof (split_chr_nonempty sep s) as Hne.
  destruct (chr_eqb c sep) eqn:E.
  - apply chr_eqb_eq in E as ->. destruct (split_chr sep s) as [|p ps]; [done|].
    change (join_chr sep ([] :: p :: ps)) with (sep :: join_chr sep (p :: ps)).
    by rewrite IH.
  - destruct (split_chr sep s) as [|p ps]; [done|].
    destruct ps as [|q ps]; [simpl in *; by rewrite IH|].
    change (join_chr sep ((c :: p) :: q :: ps)) with (c :: join_chr sep (p :: q :: ps)).
    by rewrite IH.
Qed.

Lemma split_pieces sep s : Forall (fun p => contains_chr sep p = false) (split_chr sep s).
Proof.
  induction s as [|c s IH]; [by repeat constructor|]. cbn [split_chr].
  destruct (chr_eqb c sep) eqn:E; [by constructor|].
  pose proof (split_chr_nonempty sep s) as Hne.
  destruct (split_chr sep s) as [|p ps]; [done|].
  inversion IH as [|? ? Hp Hps]; subst. constructor; [|done].
  unfold contains_chr in *. cbn [existsb]. by rewrite (chr_eqb_sym sep c), E, Hp.
Qed.

Lemma wrap_word_fits width lines cur word :
  Forall (fits width) lines -> fits width cur -> contains_chr " " word = false ->
  Forall (fits width) (fst (wrap_word width (lines, cur) word)) /\
  fits width (snd (wrap_word width (lines, cur) word)).
Proof.
  intros Hl Hc Hw. unfold wrap_word.
  destruct (Z.leb_spec (len cur + len word + 1) width) as [H|H]; simpl.
  - split; [done|]. left. unfold len in *. rewrite !length_app.
    destruct cur; simpl in *; lia.
  - split; [|by right]. destruct (truthy cur); [|done].
    apply Forall_app. split; [done|by constructor].
Qed.

Lemma wrap_words_fits width words lines cur :
  Forall (fits width) lines -> fits width cur ->
  Forall (fun w => contains_chr " " w = false) words ->
  Forall (fits width) (fst (fold_left (wrap_word width) words (lines, cur))) /\
  fits width (snd (fold_left (wrap_word width) words (lines, cur))).
Proof.
  intros Hl Hc Hw. revert lines cur Hl Hc.
  induction Hw as [|word words Hword _ IH]; intros lines cur Hl Hc; [done|].
  cbn [fold_left].
  destruct (wrap_word_fits width lines cur word Hl Hc Hword) as [H1 H2].
  destruct (wrap_word width (lines, cur) word) as [lines' cur']. by apply IH.
Qed.

Lemma wrap_paragraph_fits width lines paragraph :
  Forall (fits width) lines -> Forall (fits width) (wrap_paragraph width lines paragraph).
Proof.
  intros Hl. unfold wrap_paragraph.
  destruct (Z.leb_spec (len paragraph) width) as [H|H].
  - apply Forall_app. split; [done|]. constructor; [by left|done].
  - destruct (wrap_words_fits width (split_chr " " paragraph) lines [] Hl
                ltac:(by right) (split_pieces " " paragraph)) as [H1 H2].
    destruct (fold_left _ _ _) as [lines' cur']. simpl in *.
    destruct (truthy cur'); [|done]. apply Forall_app. split; [done|by constructor].
Qed.

Lemma wrap_lines_fits width paragraphs lines :
  Forall (fits width) lines ->
  Forall (fits width) (fold_left (wrap_paragraph width) paragraphs lines).
Proof.
  revert lines. induction paragraphs as [|p ps IH]; intros lines Hl; [done|].
  cbn [fold_left]. by apply IH, wrap_paragraph_fits.
Qed.

(** *** The characters that are neither blank nor newline *)

Lemma ink_app a b : ink (a ++ b) = ink a ++ ink b.
Proof. apply List.filter_app. Qed.

Lemma ink_join sep pieces :
  inked sep = false -> ink (join_chr sep pieces) = concat (map ink pieces).
Proof.
  intros Hs. induction pieces as [|p ps IH]; [done|].
  destruct ps as [|q ps].
  - simpl. by rewrite app_nil_r.
  - change (join_chr sep (p :: q :: ps)) with (p ++ sep :: join_chr sep (q :: ps)).
    rewrite ink_app. change (sep :: join_chr sep (q :: ps))
      with ([sep] ++ join_chr sep (q :: ps)).
    rewrite ink_app, IH. unfold ink at 2. simpl List.filter. by rewrite Hs.
Qed.

Lemma ink_split sep s : inked sep = false -> concat (map ink (split_chr sep s)) = ink s.
Proof. intros Hs. by rewrite <- (ink_join sep), join_split. Qed.

Lemma wrap_word_ink width lines cur word :
  concat (map ink (fst (wrap_word width (lines, cur) word)))
  ++ ink (snd (wrap_word width (lines, cur) word))
  = (concat (map ink lines) ++ ink cur) ++ ink word.
Proof.
  unfold wrap_word. destruct (Z.leb (len cur + len word + 1) width); simpl.
  - rewrite !ink_app. rewrite <- !app_assoc. do 2 f_equal. by destruct cur.
  - destruct cur as [|c cur]; simpl; [by rewrite !app_nil_r|].
    by rewrite map_app, concat_app; simpl; rewrite app_nil_r.
Qed.

Lemma wrap_words_ink width words lines cur :
  concat (map ink (fst (fold_left (wrap_word width) words (lines, cur))))
  ++ ink (snd (fold_left (wrap_word width) words (lines, cur)))
  = (concat (map ink lines) ++ ink cur) ++ concat (map ink words).
Proof.
  revert lines cur. induction words as [|word words IH]; intros lines cur.
  - simpl. by rewrite app_nil_r.
  - cbn [fold_left map concat].
    pose proof (wrap_word_ink width lines cur word) as H.
    destruct (wrap_word width (lines, cur) word) as [lines' cur']. simpl in H.
    by rewrite IH, H, <- !app_assoc.
Qed.

Lemma wrap_paragraph_ink width lines paragraph :
  concat (map ink (wrap_paragraph width lines paragraph))
  = concat (map ink lines) ++ ink paragraph.
Proof.
  unfold wrap_paragraph. destruct (Z.leb (len paragraph) width).
  - rewrite map_app, concat_app. simpl. by rewrite app_nil_r.
  - pose proof (wrap_words_ink width (split_chr " " paragraph) lines []) as H.
    destruct (fold_left _ _ _) as [lines' cur']. simpl in H.
    rewrite app_nil_r, (ink_split " ") in H by done. rewrite <- H.
    destruct cur' as [|c cur']; simpl; [by rewrite app_nil_r|].
    rewrite map_app, concat_app. simpl. by rewrite app_nil_r.
Qed.

Lemma wrap_lines_ink width paragraphs lines :
  concat (map ink (fold_left (wrap_paragraph width) paragraphs lines))
  = concat (map ink lines) ++ concat (map ink paragraphs).
Proof.
  revert lines. induction paragraphs as [|p ps IH]; intros lines.
  - simpl. by rewrite app_nil_r.
  - cbn [fold_left map concat]. by rewrite IH, wrap_paragraph_ink, <- app_assoc.
Qed.

Lemma wrap_all_fit width paragraphs lines :
  Forall (fun p => len p <= width) paragraphs ->
  fold_left (wrap_paragraph width) paragraphs lines = lines ++ paragraphs.
Proof.
  intros H. revert lines. induction H as [|p ps Hp _ IH]; intros lines.
  - by rewrite app_nil_r.
  - cbn [fold_left]. unfold wrap_paragraph at 2.
    rewrite (proj2 (Z.leb_le _ _)) by done. rewrite IH. by rewrite <- app_assoc.
Qed.

End WrapFacts.

(** X25: no line [wrap_text] makes of a text is longer than the width,
    unless it is a single word: a line without blank. *)
Theorem wrap_text_width t width line :
  In line (wrap_lines t width) -> fits width line.
Proof.
  intros H. pose proof (wrap_lines_fits width (split_chr newline t) [] ltac:(constructor))
    as HF.
  rewrite Forall_forall in HF. by apply HF, list_elem_of_In.
Qed.

(** A witness of X25: a text of three words at the width 7. *)
Lemma wrap_text_width_witness : fits 7 (py "aaaa bb").
Proof.
  apply (wrap_text_width (py "aaaa bb cc") 7 (py "aaaa bb")). by left.
Defined.

(** X26: [wrap_text] moves blanks and newlines only: the other characters
    of the text come out as they are, in their order, none lost and none
    added. *)
Theorem wrap_text_keeps_ink t width : ink (wrap_text t width) = ink (default [] t).
Proof.
  destruct t as [t|]; [|done]. unfold wrap_text. cbn [default].
  destruct (truthy t) eqn:Ht; [|by destruct t].
  rewrite (ink_join newline) by done. unfold wrap_lines.
  rewrite wrap_lines_ink. cbn [map concat app]. by apply ink_split.
Qed.

(** X27: a text whose lines all fit comes out as it is. *)
Theorem wrap_text_fitting t width :
  Forall (fun p => len p <= width) (split_chr newline t) ->
  wrap_text (Some t) width = t.
Proof.
  intros H. unfold wrap_text. destruct (truthy t) eqn:Ht; [|by destruct t].
  unfold wrap_lines. rewrite wrap_all_fit by done. apply join_split.
Qed.

(** A witness of X27: two short lines. *)
Lemma wrap_text_fitting_witness :
  wrap_text (Some (py "ab" ++ newline :: py "cd")) default_width
  = py "ab" ++ newline :: py "cd".
Proof.
  apply (wrap_text_fitting (py "ab" ++ newline :: py "cd") default_width).
  repeat constructor; done.
Defined.
